(** * VectorVault: the multimodal vector store (storage/simple_vector_db.py)

    A shallow embedding of [SimpleVectorDB]: the [vectors] table, the three
    [store_*_vectors] loaders, [query_by_timerange],
    [get_conversation_summary], [find_similar_moments] and
    [cosine_similarity], followed by the properties of the store's
    specification.

    Numbers are Python floats, i.e. IEEE 754 binary64, modelled by Rocq's
    primitive floats; their comparisons and arithmetic are reasoned about
    through the specification of [FloatAxioms].  Real numbers only measure
    the rounding error of these floats. *)

From Stdlib Require Import List String Ascii Bool Arith ZArith Lia.
From Stdlib Require Import Floats.
From Stdlib Require Import Permutation Sorted.
From Stdlib Require Import Reals Lra.
Import ListNotations.

(** ** Binary64 comparisons *)

Module F64.

(** A float is ordered when it compares with itself, i.e. it is not NaN. *)
Definition ordered (x : float) : bool := (x <=? x)%float.

Definition finite (x : float) : bool :=
  match Prim2SF x with
  | S754_zero _ | S754_finite _ _ _ => true
  | _ => false
  end.

End F64.

(** ** Python values and exceptions *)

(** The values [json.loads] produces.  A JSON number is carried as the
    binary64 it denotes; an integer literal is carried as the float of its
    value, which covers the integers a float holds exactly (Python
    multiplies and adds larger integers exactly and raises [OverflowError]
    where one no longer converts to a float: such literals are outside the
    embedding).  The keys of an object are distinct.  The [vector_data]
    and [metadata] columns hold the text [json.dumps] writes; the
    embedding keeps the value that text denotes, [json.loads (json.dumps
    v)] being [v]. *)
#[local] Unset Elimination Schemes.
Inductive json : Type :=
| JNull
| JBool (b : bool)
| JNum (x : float)
| JStr (s : string)
| JList (l : list json)
| JObj (kv : list (string * json)).
#[local] Set Elimination Schemes.

(** The exceptions the module's code can raise. *)
Inductive pyerror : Type :=
| TypeError        (* an operation applied to a value of the wrong type *)
| IntegrityError.  (* sqlite3: a NOT NULL constraint failed *)

Inductive outcome (A : Type) : Type :=
| Returned (a : A)
| Raised (e : pyerror).
Arguments Returned {A} a.
Arguments Raised {A} e.

Definition bind {A B : Type} (m : outcome A) (k : A -> outcome B) : outcome B :=
  match m with
  | Returned a => k a
  | Raised e => Raised e
  end.

Notation "x <- m ;; k" := (bind m (fun x => k))
  (at level 61, m at next level, right associativity).

(** Truth value of a float: zero (of either sign) is false, NaN is true. *)
Definition truthy_float (x : float) : bool := negb (x =? 0)%float.

(** ** The [vectors] table *)

(** One row of [vectors].  [created_at] is never read and is left out.
    [row_metadata] is a nullable column: [None] is SQL NULL. *)
Record row : Type := mkRow {
  row_id : Z;
  row_source_type : string;
  row_source_file : string;
  row_timestamp : float;
  row_vector_data : json;
  row_metadata : option json
}.

(** The database as the connection sees it: the rows in rowid order and the
    AUTOINCREMENT counter (the largest rowid ever handed out). *)
Record database : Type := mkDb {
  table : list row;
  sequence : Z
}.

(** [create_tables] on a fresh file. *)
Definition create_tables : database := {| table := []; sequence := 0 |}.

(** The dictionaries handed to [store_*_vectors]: keys ['timestamp'],
    ['dense_vector'] and ['features']. *)
Record feature_vector : Type := mkFeature {
  fv_timestamp : float;
  fv_dense_vector : json;
  fv_features : json
}.

(** The dictionaries [query_by_timerange] returns. *)
Record vector_record : Type := mkRecord {
  id : Z;
  source_type : string;
  source_file : string;
  timestamp : float;
  vector : json;
  metadata : json
}.

(** ** Storing *)

(** What a [REAL] column gives back for a float written to it.  SQLite
    writes a float of integral value as an integer and converts it back
    when the row is read; the value is the same, but the sign of zero is
    lost: [-0.0] is read back as [0.0].  Every other float (infinities
    included) comes back bit for bit. *)
Definition sqlite_real (x : float) : float :=
  if (x =? 0)%float then 0%float else x.

(** One [INSERT INTO vectors ... VALUES (?, ?, ?, ?, ?)].  sqlite3 binds a
    NaN as NULL, which [timestamp REAL NOT NULL] refuses: the statement
    fails and changes nothing.  Otherwise the row gets the next rowid; the
    row is kept as a SELECT reads it. *)
Definition execute_insert (src_type src_file : string) (v : feature_vector)
    (db : database) : database * outcome unit :=
  if F64.ordered (fv_timestamp v) then
    let i := (sequence db + 1)%Z in
    ({| table := table db ++
                 [mkRow i src_type src_file (sqlite_real (fv_timestamp v))
                        (fv_dense_vector v) (Some (fv_features v))];
        sequence := i |},
     Returned tt)
  else (db, Raised IntegrityError).

(** The loop shared by the three loaders: the statements run one after the
    other on the connection; an exception leaves the loop (and the method)
    with the earlier rows inserted and [commit] not reached. *)
Fixpoint insert_vectors (src_type : string) (vectors : list feature_vector)
    (src_file : string) (db : database) : database * outcome unit :=
  match vectors with
  | [] => (db, Returned tt)
  | v :: rest =>
      match execute_insert src_type src_file v db with
      | (db', Returned _) => insert_vectors src_type rest src_file db'
      | (db', Raised e) => (db', Raised e)
      end
  end.

Definition store_audio_vectors (db : database) (vectors : list feature_vector)
    (src_file : string) : database * outcome unit :=
  insert_vectors "audio" vectors src_file db.

Definition store_visual_vectors (db : database) (vectors : list feature_vector)
    (src_file : string) : database * outcome unit :=
  insert_vectors "visual" vectors src_file db.

Definition store_semantic_vectors (db : database) (vectors : list feature_vector)
    (src_file : string) : database * outcome unit :=
  insert_vectors "semantic" vectors src_file db.

(** ** Stable insertion sort *)

Section StableSort.
Context {A : Type} (le : A -> A -> bool).

Fixpoint insert_sorted (x : A) (l : list A) : list A :=
  match l with
  | [] => [x]
  | y :: l' => if le x y then x :: y :: l' else y :: insert_sorted x l'
  end.

Fixpoint stable_sort (l : list A) : list A :=
  match l with
  | [] => []
  | x :: l' => insert_sorted x (stable_sort l')
  end.
End StableSort.

(** ** Range queries *)

(** [ORDER BY timestamp]: rows come out by ascending timestamp, rows of
    equal timestamp in rowid order.  That is the order of [idx_timestamp]
    (entries keyed by timestamp, then rowid), which SQLite walks for the
    unfiltered SELECT; for the filtered one it sorts the rows of
    [idx_source_type], met in rowid order, with a stable sorter. *)
Definition order_by_timestamp (rows : list row) : list row :=
  stable_sort (fun a b => (row_timestamp a <=? row_timestamp b)%float) rows.

Definition in_range (start_time end_time : float) (r : row) : bool :=
  ((start_time <=? row_timestamp r) && (row_timestamp r <=? end_time))%float.

(** The dictionary built from a fetched row. *)
Definition record_of_row (r : row) : vector_record :=
  {| id := row_id r;
     source_type := row_source_type r;
     source_file := row_source_file r;
     timestamp := row_timestamp r;
     vector := row_vector_data r;
     metadata := match row_metadata r with
                 | Some m => m
                 | None => JObj []
                 end |}.

(** [if source_type:] takes the filtered SELECT for a non-empty string
    only; [None] and [""] both run the unfiltered one. *)
Definition query_by_timerange (db : database) (start_time end_time : float)
    (src_type : option string) : list vector_record :=
  let fetched :=
    match src_type with
    | Some (String _ _ as s) =>
        order_by_timestamp
          (filter (fun r => in_range start_time end_time r &&
                            String.eqb (row_source_type r) s)
                  (table db))
    | _ =>
        order_by_timestamp (filter (in_range start_time end_time) (table db))
    end
  in
  map record_of_row fetched.

(** ** Cosine similarity *)

(** The operations [cosine_similarity] is written with.  The program runs
    them on Python floats: [binary64] below. *)
Record arithmetic (A : Type) : Type := mkArith {
  a_zero : A;
  a_add : A -> A -> A;
  a_mul : A -> A -> A;
  a_div : A -> A -> A;
  a_sqrt : A -> A;
  a_is_zero : A -> bool      (* [x == 0] *)
}.
Arguments a_zero {A} _.
Arguments a_add {A} _ _ _.
Arguments a_mul {A} _ _ _.
Arguments a_div {A} _ _ _.
Arguments a_sqrt {A} _ _.
Arguments a_is_zero {A} _ _.

Definition binary64 : arithmetic float :=
  {| a_zero := 0%float;
     a_add := PrimFloat.add;
     a_mul := PrimFloat.mul;
     a_div := PrimFloat.div;
     a_sqrt := PrimFloat.sqrt;
     a_is_zero := fun x => (x =? 0)%float |}.

Section Cosine.
Context {A : Type} (ar : arithmetic A).

(** [sum(...)]: the terms added left to right, starting from 0.  (From
    CPython 3.12 on, [sum] compensates the rounding errors of a float
    sum; on one or two terms it gives the same float.) *)
Definition py_sum (l : list A) : A := fold_left (a_add ar) l (a_zero ar).

Definition cosine_similarity (vec1 vec2 : list A) : A :=
  if negb (List.length vec1 =? List.length vec2)%nat then a_zero ar
  else
    let dot_product :=
      py_sum (map (fun ab => a_mul ar (fst ab) (snd ab)) (combine vec1 vec2)) in
    let magnitude1 := a_sqrt ar (py_sum (map (fun a => a_mul ar a a) vec1)) in
    let magnitude2 := a_sqrt ar (py_sum (map (fun b => a_mul ar b b) vec2)) in
    if a_is_zero ar magnitude1 || a_is_zero ar magnitude2 then a_zero ar
    else a_div ar dot_product (a_mul ar magnitude1 magnitude2).
End Cosine.

(** [len(v)] on a decoded JSON value. *)
Definition py_len (v : json) : outcome nat :=
  match v with
  | JList l => Returned (List.length l)
  | JStr s => Returned (String.length s)
  | JObj kv => Returned (List.length kv)
  | _ => Raised TypeError
  end.

(** The items iterating over a value with a length yields: the elements of
    a list, the characters of a string, the keys of an object. *)
Definition py_iter (v : json) : list json :=
  match v with
  | JList l => l
  | JStr s => map (fun c => JStr (String c EmptyString)) (list_ascii_of_string s)
  | JObj kv => map (fun p => JStr (fst p)) kv
  | _ => []
  end.

(** The float a value contributes to a product: numbers themselves,
    [True] and [False] as 1 and 0; anything else makes the sums of
    products raise [TypeError]. *)
Definition py_number (v : json) : option float :=
  match v with
  | JNum x => Some x
  | JBool true => Some 1%float
  | JBool false => Some 0%float
  | _ => None
  end.

Fixpoint py_numbers (l : list json) : option (list float) :=
  match l with
  | [] => Some []
  | v :: l' =>
      match py_number v, py_numbers l' with
      | Some x, Some xs => Some (x :: xs)
      | _, _ => None
      end
  end.

(** [self.cosine_similarity(vec1, vec2)] called on two decoded values.
    The lengths are compared first; items are only multiplied when the
    lengths agree.  The items are floats and booleans (see [json]): on
    these the products, sums, square roots and the quotient raise
    nothing, and any other item ends in [TypeError]. *)
Definition call_cosine_similarity (vec1 vec2 : json) : outcome float :=
  n1 <- py_len vec1 ;;
  n2 <- py_len vec2 ;;
  if negb (n1 =? n2)%nat then Returned 0%float
  else
    match py_numbers (py_iter vec1), py_numbers (py_iter vec2) with
    | Some v1, Some v2 => Returned (cosine_similarity binary64 v1 v2)
    | _, _ => Raised TypeError
    end.

(** ** Similar moments *)

(** The dictionaries [find_similar_moments] returns. *)
Record moment : Type := mkMoment {
  m_timestamp : float;
  m_similarity : float;
  m_metadata : json
}.

(** The [for vector_data in all_vectors] loop. *)
Fixpoint collect_similarities (target_timestamp window_size : float)
    (target_vector : json) (all_vectors : list vector_record)
    : outcome (list moment) :=
  match all_vectors with
  | [] => Returned []
  | vector_data :: rest =>
      if (abs (timestamp vector_data - target_timestamp) <? window_size)%float
      then collect_similarities target_timestamp window_size target_vector rest
      else
        similarity <- call_cosine_similarity target_vector (vector vector_data) ;;
        similarities <- collect_similarities target_timestamp window_size
                          target_vector rest ;;
        Returned ({| m_timestamp := timestamp vector_data;
                     m_similarity := similarity;
                     m_metadata := metadata vector_data |} :: similarities)
  end.

(** [similarities.sort(key=lambda x: x['similarity'], reverse=True)].
    When no key is NaN the keys are totally ordered and [list.sort] is a
    stable sort by decreasing key: an item stays ahead of a later one
    unless its key is smaller; the insertion sort below computes that
    list.  A NaN key compares false with everything; the order
    [list.sort] then leaves depends on the runs and merges of its
    algorithm and is not the one computed here.  The properties that
    depend on the order of the result therefore assume that no
    similarity is NaN; the others hold of every permutation of the
    list. *)
Definition sort_by_similarity (similarities : list moment) : list moment :=
  stable_sort (fun a b => negb (m_similarity a <? m_similarity b)%float)
              similarities.

Definition find_similar_moments (db : database)
    (target_timestamp window_size : float) (src_type : option string)
    : outcome (list moment) :=
  let target_vectors :=
    query_by_timerange db (target_timestamp - 5)%float
                          (target_timestamp + 5)%float src_type in
  match target_vectors with
  | [] => Returned []
  | first :: _ =>
      let target_vector := vector first in
      let all_vectors := query_by_timerange db 0%float infinity src_type in
      similarities <- collect_similarities target_timestamp window_size
                        target_vector all_vectors ;;
      Returned (firstn 10 (sort_by_similarity similarities))
  end.

(** ** Summary *)

(** The per-type dictionaries of the summary. *)
Record source_summary : Type := mkSource {
  count : nat;
  min_timestamp : option float;
  max_timestamp : option float;
  src_duration : float
}.

Record summary : Type := mkSummary {
  total_vectors : nat;
  duration : float;
  sources : list (string * source_summary)
}.

(** The distinct values of [source_type]; [GROUP BY source_type] yields
    one row per value, in ascending order of the value. *)
Fixpoint distinct_source_types (rows : list row) : list string :=
  match rows with
  | [] => []
  | r :: rest =>
      row_source_type r ::
      filter (fun s => negb (String.eqb s (row_source_type r)))
             (distinct_source_types rest)
  end.

Definition group_keys (rows : list row) : list string :=
  stable_sort String.leb (distinct_source_types rows).

(** SQL [MIN] and [MAX] over a column of non-NULL reals: NULL on no rows. *)
Definition sql_min (l : list float) : option float :=
  match l with
  | [] => None
  | x :: l' => Some (fold_left (fun m y => if (y <? m)%float then y else m) l' x)
  end.

Definition sql_max (l : list float) : option float :=
  match l with
  | [] => None
  | x :: l' => Some (fold_left (fun m y => if (m <? y)%float then y else m) l' x)
  end.

(** [SELECT source_type, COUNT( * ), MIN(timestamp), MAX(timestamp)
     FROM vectors GROUP BY source_type]. *)
Definition select_groups (db : database)
    : list (string * nat * option float * option float) :=
  map (fun s =>
         let group := filter (fun r => String.eqb (row_source_type r) s) (table db) in
         (s, List.length group,
          sql_min (map row_timestamp group),
          sql_max (map row_timestamp group)))
      (group_keys (table db)).

(** Python's [max(a, b)]: [b] only when it is greater than [a]. *)
Definition py_max (a b : float) : float := if (a <? b)%float then b else a.

(** The loop over the fetched groups.  [None] stands for the NULL an
    aggregate can be; in a condition it is false, as a zero is. *)
Definition get_conversation_summary (db : database) : summary :=
  fold_left
    (fun acc grp =>
       let '(src, cnt, min_time, max_time) := grp in
       {| total_vectors := total_vectors acc + cnt;
          duration := py_max (duration acc)
                        (match max_time with
                         | Some m => if truthy_float m then m else 0%float
                         | None => 0%float
                         end);
          sources := sources acc ++
            [(src,
              {| count := cnt;
                 min_timestamp := min_time;
                 max_timestamp := max_time;
                 src_duration :=
                   match max_time, min_time with
                   | Some hi, Some lo =>
                       if truthy_float hi && truthy_float lo
                       then (hi - lo)%float else 0%float
                   | _, _ => 0%float
                   end |})] |})
    (select_groups db)
    {| total_vectors := 0; duration := 0%float; sources := [] |}.

(** ** Vocabulary of the properties *)

(** The rows a query admits: [None] and the empty string admit every
    source type. *)
Definition matches_filter (src_type : option string) (r : row) : bool :=
  match src_type with
  | Some (String _ _ as s) => String.eqb (row_source_type r) s
  | _ => true
  end.

Definition selected (start_time end_time : float) (src_type : option string)
    (db : database) : list row :=
  filter (fun r => in_range start_time end_time r && matches_filter src_type r)
         (table db).

(** The three audio records of the specification's scenario, stored with
    [store_audio_vectors] in a fresh database. *)
Definition scenario_vectors : list feature_vector :=
  [ mkFeature 10 (JList [JNum 1; JNum 0]) (JObj []);
    mkFeature 20 (JList [JNum 1; JNum 0]) (JObj []);
    mkFeature 80 (JList [JNum 0; JNum 1]) (JObj []) ].

Definition scenario_db : database :=
  fst (store_audio_vectors create_tables scenario_vectors "conversation_audio.wav").

(** A list of floats as the decoded [vector] of a record. *)
Definition json_vector (v : list float) : json := JList (map JNum v).

(** [math.sqrt(sum(a * a for a in vec))]. *)
Definition magnitude {A : Type} (ar : arithmetic A) (vec : list A) : A :=
  a_sqrt ar (py_sum ar (map (fun a => a_mul ar a a) vec)).

(** The states the store can be in: rowids grow along the table and none
    exceeds the AUTOINCREMENT counter. *)
Definition well_formed (db : database) : Prop :=
  StronglySorted (fun a b => (row_id a < row_id b)%Z) (table db) /\
  Forall (fun r => (row_id r <= sequence db)%Z) (table db).

(** The rows a successful batch appends, numbered from the counter on. *)
Fixpoint new_rows (src_type src_file : string) (seq : Z)
    (vectors : list feature_vector) : list row :=
  match vectors with
  | [] => []
  | v :: rest =>
      mkRow (seq + 1) src_type src_file (sqlite_real (fv_timestamp v))
            (fv_dense_vector v) (Some (fv_features v))
      :: new_rows src_type src_file (seq + 1) rest
  end.

(** Two records at the same second, for the order of ties. *)
Definition tie_db : database :=
  fst (store_visual_vectors scenario_db
         [ mkFeature 20 (JList [JNum 3]) JNull;
           mkFeature 10 (JList [JNum 4]) JNull ] "google_meet.mp4").

(** What a stored record is compared on after a round trip. *)
Definition stored_fields (v : feature_vector) : float * json * json :=
  (fv_timestamp v, fv_dense_vector v, fv_features v).

Definition returned_fields (r : vector_record) : float * json * json :=
  (timestamp r, vector r, metadata r).

(** The fields read back equal the fields submitted: the timestamps are
    equal numbers ([==]), and the same float unless [-0.0] was submitted
    (it is read back as [0.0]); the vector and the metadata are the same
    values. *)
Definition same_fields (returned submitted : float * json * json) : Prop :=
  (fst (fst returned) =? fst (fst submitted))%float = true /\
  (fst (fst submitted) <> neg_zero -> fst (fst returned) = fst (fst submitted)) /\
  snd (fst returned) = snd (fst submitted) /\
  snd returned = snd submitted.

(** A batch submitted with the timestamp [-0.0]. *)
Definition negative_zero_batch : list feature_vector :=
  [ mkFeature neg_zero (JList [JNum 1; JNum 0]) (JObj []) ].

(** The three loaders. *)
Definition loaders
    : list (database -> list feature_vector -> string -> database * outcome unit) :=
  [store_audio_vectors; store_visual_vectors; store_semantic_vectors].

(** The shape a vector is expected to have: a list of numbers. *)
Definition numeric_vector (v : json) : bool :=
  match v with
  | JList l => forallb (fun x => match x with JNum _ => true | _ => false end) l
  | _ => false
  end.

(** The database a successful batch leaves. *)
Definition appended (src_type : string) (db : database)
    (vectors : list feature_vector) (src_file : string) : database :=
  {| table := table db ++ new_rows src_type src_file (sequence db) vectors;
     sequence := sequence db + Z.of_nat (List.length vectors) |}.

(** A batch whose only record has a vector with a non-numeric entry. *)
Definition malformed_batch : list feature_vector :=
  [ mkFeature 30 (JList [JNum 1; JStr "loud"]) (JObj []) ].

(** A batch whose second record has no timestamp to store (NaN). *)
Definition nan_batch : list feature_vector :=
  [ mkFeature 30 (JList [JNum 1; JNum 0]) (JObj []);
    mkFeature nan (JList [JNum 1; JNum 0]) (JObj []);
    mkFeature 40 (JList [JNum 1; JNum 0]) (JObj []) ].

(** Audio records starting at second 0, as a recording does. *)
Definition zero_start_db : database :=
  fst (store_audio_vectors create_tables
         [ mkFeature 0 (JList [JNum 1; JNum 0]) (JObj []);
           mkFeature 10 (JList [JNum 0; JNum 1]) (JObj []) ]
         "conversation_audio.wav").

(** The candidates [find_similar_moments] keeps: those not within
    [window_size] of the target. *)
Definition kept (target_timestamp window_size : float) (r : vector_record) : bool :=
  negb (abs (timestamp r - target_timestamp) <? window_size)%float.

(** [m] is the entry the loop appends for the record [r]. *)
Definition scored (target_vector : json) (r : vector_record) (m : moment) : Prop :=
  m_timestamp m = timestamp r /\
  m_metadata m = metadata r /\
  call_cosine_similarity target_vector (vector r) = Returned (m_similarity m).




(** The vector (0.1, 0.7), as the binary64 numbers nearest to 0.1 and 0.7. *)
Definition tenth_and_seven_tenths : list float :=
  [0x1.999999999999ap-4; 0x1.6666666666666p-1]%float.

(** The scenario's records followed by the malformed batch. *)
Definition malformed_db : database :=
  fst (store_audio_vectors scenario_db malformed_batch "noise.wav").

(** The invariant [timestamp REAL NOT NULL] keeps: no stored timestamp is
    NaN. *)
Definition timestamps_stored (db : database) : Prop :=
  Forall (fun r => F64.ordered (row_timestamp r) = true) (table db).

(** The rows of one source type. *)
Definition rows_of_type (s : string) (rows : list row) : list row :=
  filter (fun r => String.eqb (row_source_type r) s) rows.

(** The body of the loop of [get_conversation_summary], for one fetched
    group. *)
Definition summary_step (acc : summary)
    (grp : string * nat * option float * option float) : summary :=
  let '(src, cnt, min_time, max_time) := grp in
  {| total_vectors := total_vectors acc + cnt;
     duration := py_max (duration acc)
                   (match max_time with
                    | Some m => if truthy_float m then m else 0%float
                    | None => 0%float
                    end);
     sources := sources acc ++
       [(src,
         {| count := cnt;
            min_timestamp := min_time;
            max_timestamp := max_time;
            src_duration :=
              match max_time, min_time with
              | Some hi, Some lo =>
                  if truthy_float hi && truthy_float lo
                  then (hi - lo)%float else 0%float
              | _, _ => 0%float
              end |})] |}.

(** What a group contributes to the overall duration: its maximum, or 0
    when that is missing or zero. *)
Definition group_latest (grp : string * nat * option float * option float)
    : float :=
  match snd grp with
  | Some m => if truthy_float m then m else 0%float
  | None => 0%float
  end.

(** The loaders with the source type each one writes. *)
Definition tagged_loaders
    : list (string *
            (database -> list feature_vector -> string -> database * outcome unit)) :=
  [ ("audio"%string, store_audio_vectors);
    ("visual"%string, store_visual_vectors);
    ("semantic"%string, store_semantic_vectors) ].

(** ** The extractors' vectors (extractors/audio_basic.py,
       extractors/visual_basic.py) *)

(** The part of the [features] dictionary [create_vectors] reads:
    [features['metadata']['num_frames']], [features['timestamps']] and the
    five lists of [features['features']]. *)
Record audio_features : Type := mkAudioFeatures {
  num_frames : Z;
  timestamps : list float;
  rms_energy : list float;
  peak_amplitude : list float;
  zero_crossing_rate : list float;
  spectral_centroid_approx : list float;
  energy_ratio : list float
}.

Inductive index_error : Type := IndexError.

(** [l[i]] for an index that is not negative. *)
Definition py_index {A : Type} (l : list A) (i : nat) : A + index_error :=
  match nth_error l i with
  | Some a => inl a
  | None => inr IndexError
  end.

(** The dictionary [create_vectors] builds for one frame. *)
Definition audio_vector (t rms peak zcr centroid ratio : float) : feature_vector :=
  {| fv_timestamp := t;
     fv_dense_vector := JList [JNum rms; JNum peak; JNum zcr; JNum centroid; JNum ratio];
     fv_features := JObj [ ("rms_energy"%string, JNum rms);
                           ("peak_amplitude"%string, JNum peak);
                           ("zero_crossing_rate"%string, JNum zcr);
                           ("spectral_centroid_approx"%string, JNum centroid);
                           ("energy_ratio"%string, JNum ratio) ] |}.

(** [for i in range(num_frames)], from frame [i] on, [remaining] frames to
    go.  An index out of range raises and the vectors built so far are
    lost. *)
Fixpoint create_vectors_from (features : audio_features) (i remaining : nat)
    : list feature_vector + index_error :=
  match remaining with
  | O => inl []
  | S n =>
      match py_index (timestamps features) i,
            py_index (rms_energy features) i,
            py_index (peak_amplitude features) i,
            py_index (zero_crossing_rate features) i,
            py_index (spectral_centroid_approx features) i,
            py_index (energy_ratio features) i with
      | inl t, inl rms, inl peak, inl zcr, inl centroid, inl ratio =>
          match create_vectors_from features (S i) n with
          | inl vectors => inl (audio_vector t rms peak zcr centroid ratio :: vectors)
          | inr e => inr e
          end
      | _, _, _, _, _, _ => inr IndexError
      end
  end.

Definition create_vectors (features : audio_features)
    : list feature_vector + index_error :=
  create_vectors_from features 0 (Z.to_nat (num_frames features)).

(** The part of a frame dictionary [create_visual_vectors] reads. *)
Record frame : Type := mkFrame {
  frame_timestamp : float;
  frame_complexity : float;
  frame_file_size : float
}.

Definition create_visual_vectors (frames : list frame) : list feature_vector :=
  map (fun fr =>
         {| fv_timestamp := frame_timestamp fr;
            fv_dense_vector :=
              JList [ JNum (frame_complexity fr);
                      JNum (frame_file_size fr / 10000)%float;
                      JNum (frame_timestamp fr) ];
            fv_features :=
              JObj [ ("complexity"%string, JNum (frame_complexity fr));
                     ("file_size"%string, JNum (frame_file_size fr));
                     ("temporal_position"%string, JNum (frame_timestamp fr)) ] |})
      frames.

(** The least number of items the six lists must have. *)
Definition shortest_list (features : audio_features) : nat :=
  Nat.min (List.length (timestamps features))
   (Nat.min (List.length (rms_energy features))
     (Nat.min (List.length (peak_amplitude features))
       (Nat.min (List.length (zero_crossing_rate features))
         (Nat.min (List.length (spectral_centroid_approx features))
                  (List.length (energy_ratio features)))))).

(** Two frames of audio features, and two video frames. *)
Definition sample_audio_features : audio_features :=
  {| num_frames := 2;
     timestamps := [0; 0x1.999999999999ap-4]%float;
     rms_energy := [120; 80]%float;
     peak_amplitude := [300; 200]%float;
     zero_crossing_rate := [0.25; 0.5]%float;
     spectral_centroid_approx := [0.5; 0.25]%float;
     energy_ratio := [1; 0.5]%float |}.

Definition sample_frames : list frame :=
  [ mkFrame 0 12 12000; mkFrame 2 15 15000 ].

(** ** The real number a float denotes *)

(** [2^e], and the number [m * 2^e] a mantissa and an exponent denote. *)
Definition bpow (e : Z) : R := powerRZ 2 e.

Definition F2R (m e : Z) : R := (IZR m * bpow e)%R.

(** The value of a float in the format of [SpecFloat]: finite floats denote
    [+/- m * 2^e], zeros denote 0; infinities and NaN denote no number and
    are given 0 (the properties below only read the value of a finite
    float). *)
Definition SF2R (f : spec_float) : R :=
  match f with
  | S754_finite s m e => if s then (- F2R (Zpos m) e)%R else F2R (Zpos m) e
  | _ => 0%R
  end.

Definition SFfinite (f : spec_float) : bool :=
  match f with
  | S754_zero _ | S754_finite _ _ _ => true
  | _ => false
  end.

(** The value of a Python float. *)
Definition B2R (x : float) : R := SF2R (Prim2SF x).

(** The least exponent of binary64. *)
Definition emin64 : Z := (-1074)%Z.

(** The mantissa and the exponent [binary_round_aux] ends with, before it
    chooses between zero, a finite float and an infinity. *)
Definition round_pair (mx ex : Z) (lx : location) : Z * Z :=
  let '(mrs', e') := shr_fexp prec emax mx ex lx in
  let '(mrs'', e'') :=
    shr_fexp prec emax
      (round_nearest_even (shr_m mrs') (loc_of_shr_record mrs')) e' loc_Exact in
  (shr_m mrs'', e'').

(** The rounding error of one operation is bounded by [eps] relative to
    the result, plus [eta] where the result is subnormal: [eps] is
    [2^-52], [eta] is the least positive float [2^-1074]; [nu] is the
    least normal float [2^-1022] and [omega] its square root. *)
Definition eps : R := bpow (-52).
Definition eta : R := bpow (-1074).
Definition nu : R := bpow (-1022).
Definition omega : R := bpow (-511).

(** [z] is a rounded [x]. *)
Definition near (z x : R) : Prop := (Rabs (z - x) <= eps * Rabs z + eta)%R.

Definition alpha : R := (1 + eps)%R.
Definition beta : R := (1 - eps)%R.

(** The tolerance of the similarity, per operation: [1 + 2^-50]. *)
Definition qtol : R := (1 + 4 * eps)%R.

Definition sumR (l : list R) : R := fold_right Rplus 0%R l.

(** The lists [cosine_similarity] sums, and [sum] on floats. *)
Definition products (v1 v2 : list float) : list float :=
  map (fun ab => (fst ab * snd ab)%float) (combine v1 v2).

Definition squares (v : list float) : list float :=
  map (fun a => (a * a)%float) v.

Definition fsum (l : list float) : float := fold_left PrimFloat.add l 0%float.

(** [sum(a * a for a in vec)], the number under the square root of a
    magnitude. *)
Definition sum_of_squares (vec : list float) : float :=
  py_sum binary64 (map (fun a => (a * a)%float) vec).

(** * Properties *)

(** ** Order facts on binary64 *)

Lemma SFcompare_antisym (a b : spec_float) :
  SFcompare b a = option_map CompOpp (SFcompare a b).
Proof.
  destruct a as [sa|sa| |sa ma ea], b as [sb|sb| |sb mb eb]; simpl;
    try reflexivity;
    try (destruct sa; reflexivity); try (destruct sb; reflexivity);
    try (destruct sa, sb; reflexivity).
  destruct sa, sb; simpl; try reflexivity;
    rewrite (Z.compare_antisym ea eb);
    destruct (Z.compare ea eb); simpl; try reflexivity;
    rewrite (Pos.compare_cont_antisym ma mb Eq); simpl;
    destruct (Pos.compare_cont Eq ma mb); reflexivity.
Qed.

Lemma SFleb_refl_iff (a : spec_float) :
  SFleb a a = true <-> a <> S754_nan.
Proof.
  unfold SFleb. destruct a as [s|s| |s m e]; simpl.
  - split; [discriminate|reflexivity].
  - destruct s; (split; [discriminate|reflexivity]).
  - split; [discriminate|intros H; now elim H].
  - destruct s; rewrite Z.compare_refl, Pos.compare_cont_refl; simpl;
      (split; [discriminate|reflexivity]).
Qed.

Lemma SFleb_trans (a b c : spec_float) :
  SFleb a b = true -> SFleb b c = true -> SFleb a c = true.
Proof.
  unfold SFleb.
  destruct a as [sa|sa| |sa ma ea], b as [sb|sb| |sb mb eb],
           c as [sc|sc| |sc mc ec]; simpl;
    try discriminate; try reflexivity;
    try (destruct sa; simpl; try discriminate; try reflexivity);
    try (destruct sb; simpl; try discriminate; try reflexivity);
    try (destruct sc; simpl; try discriminate; try reflexivity).
  - (* negative finite numbers *)
    destruct (Z.compare_spec ea eb) as [E1|E1|E1]; try discriminate;
    destruct (Z.compare_spec eb ec) as [E2|E2|E2]; try discriminate;
    destruct (Z.compare_spec ea ec) as [E3|E3|E3]; try lia; try reflexivity;
      subst; intros H1 H2.
    change (Pos.compare_cont Eq ma mb) with (Pos.compare ma mb) in H1.
    change (Pos.compare_cont Eq mb mc) with (Pos.compare mb mc) in H2.
    change (Pos.compare_cont Eq ma mc) with (Pos.compare ma mc).
    destruct (Pos.compare_spec ma mb); try discriminate;
    destruct (Pos.compare_spec mb mc); try discriminate;
    destruct (Pos.compare_spec ma mc); simpl; try reflexivity; lia.
  - (* positive finite numbers *)
    destruct (Z.compare_spec ea eb) as [E1|E1|E1]; try discriminate;
    destruct (Z.compare_spec eb ec) as [E2|E2|E2]; try discriminate;
    destruct (Z.compare_spec ea ec) as [E3|E3|E3]; try lia; try reflexivity;
      subst; intros H1 H2.
    change (Pos.compare_cont Eq ma mb) with (Pos.compare ma mb) in H1.
    change (Pos.compare_cont Eq mb mc) with (Pos.compare mb mc) in H2.
    change (Pos.compare_cont Eq ma mc) with (Pos.compare ma mc).
    destruct (Pos.compare_spec ma mb); try discriminate;
    destruct (Pos.compare_spec mb mc); try discriminate;
    destruct (Pos.compare_spec ma mc); simpl; try reflexivity; lia.
Qed.

Lemma SFcompare_refl (a : spec_float) :
  a <> S754_nan -> SFcompare a a = Some Eq.
Proof.
  intros Ha. apply SFleb_refl_iff in Ha. unfold SFleb in Ha.
  pose proof (SFcompare_antisym a a) as Hs.
  destruct (SFcompare a a) as [[ | | ]|]; simpl in *; try discriminate; reflexivity.
Qed.

Lemma SFcompare_some (a b : spec_float) (c : comparison) :
  SFcompare a b = Some c -> a <> S754_nan /\ b <> S754_nan.
Proof.
  destruct a, b; simpl; intros H; split; try discriminate; congruence.
Qed.

Lemma SFcompare_none (a b : spec_float) :
  SFcompare a b = None -> a = S754_nan \/ b = S754_nan.
Proof.
  destruct a as [sa|sa| |sa ma ea], b as [sb|sb| |sb mb eb]; simpl; intros H;
    try discriminate; auto.
Qed.

Lemma SFcompare_eq (a b : spec_float) :
  SFcompare a b = Some Eq ->
  match a, b with
  | S754_zero _, S754_zero _ => True
  | _, _ => a = b
  end.
Proof.
  destruct a as [sa|sa| |sa ma ea], b as [sb|sb| |sb mb eb]; simpl;
    try discriminate; auto;
    try (destruct sa; discriminate); try (destruct sb; discriminate).
  - destruct sa, sb; intros H; try discriminate; reflexivity.
  - destruct sa, sb; try discriminate;
      destruct (Z.compare_spec ea eb); try discriminate; subst;
      change (Pos.compare_cont Eq ma mb) with (Pos.compare ma mb);
      destruct (Pos.compare_spec ma mb); simpl; try discriminate;
      subst; reflexivity.
Qed.

Lemma F64_leb_trans (x y z : float) :
  (x <=? y)%float = true -> (y <=? z)%float = true -> (x <=? z)%float = true.
Proof. rewrite !leb_spec. apply SFleb_trans. Qed.

Lemma F64_leb_ordered (x y : float) :
  (x <=? y)%float = true -> F64.ordered x = true /\ F64.ordered y = true.
Proof.
  unfold F64.ordered. rewrite !leb_spec. unfold SFleb at 1. intros H.
  destruct (SFcompare (Prim2SF x) (Prim2SF y)) as [c|] eqn:E; [|discriminate].
  apply SFcompare_some in E. destruct E as [Ex Ey].
  split; apply SFleb_refl_iff; assumption.
Qed.

Lemma F64_ltb_antisym (x y : float) :
  (x <? y)%float = true -> (y <=? x)%float = false.
Proof.
  rewrite ltb_spec, leb_spec. unfold SFltb, SFleb.
  rewrite (SFcompare_antisym (Prim2SF x) (Prim2SF y)).
  destruct (SFcompare (Prim2SF x) (Prim2SF y)) as [[ | | ]|]; simpl;
    try discriminate; reflexivity.
Qed.

Lemma F64_ltb_leb (x y : float) :
  (x <? y)%float = true -> (x <=? y)%float = true.
Proof.
  rewrite ltb_spec, leb_spec. unfold SFltb, SFleb.
  destruct (SFcompare (Prim2SF x) (Prim2SF y)) as [[ | | ]|]; simpl;
    try discriminate; reflexivity.
Qed.

Lemma F64_leb_total (x y : float) :
  F64.ordered x = true -> F64.ordered y = true ->
  (x <=? y)%float = false -> (y <? x)%float = true.
Proof.
  unfold F64.ordered. rewrite !leb_spec, ltb_spec. intros Hx Hy.
  apply SFleb_refl_iff in Hx. apply SFleb_refl_iff in Hy.
  unfold SFleb, SFltb.
  rewrite (SFcompare_antisym (Prim2SF x) (Prim2SF y)).
  destruct (SFcompare (Prim2SF x) (Prim2SF y)) as [[ | | ]|] eqn:E; simpl;
    try discriminate; try reflexivity.
  apply SFcompare_none in E. destruct E; contradiction.
Qed.

Lemma F64_not_ltb (x y : float) :
  F64.ordered x = true -> F64.ordered y = true ->
  (x <? y)%float = false -> (y <=? x)%float = true.
Proof.
  unfold F64.ordered. rewrite !leb_spec, ltb_spec. intros Hx Hy.
  apply SFleb_refl_iff in Hx. apply SFleb_refl_iff in Hy.
  unfold SFleb, SFltb.
  rewrite (SFcompare_antisym (Prim2SF x) (Prim2SF y)).
  destruct (SFcompare (Prim2SF x) (Prim2SF y)) as [[ | | ]|] eqn:E; simpl;
    try discriminate; try reflexivity.
  apply SFcompare_none in E. destruct E; contradiction.
Qed.

Lemma F64_eqb_leb (x y : float) :
  (x =? y)%float = ((x <=? y) && (y <=? x))%float.
Proof.
  rewrite eqb_spec, !leb_spec. unfold SFeqb, SFleb.
  rewrite (SFcompare_antisym (Prim2SF x) (Prim2SF y)).
  destruct (SFcompare (Prim2SF x) (Prim2SF y)) as [[ | | ]|]; reflexivity.
Qed.

Lemma F64_eqb_sym (x y : float) : (x =? y)%float = (y =? x)%float.
Proof. rewrite !F64_eqb_leb. apply andb_comm. Qed.

Lemma F64_finite_ordered (x : float) :
  F64.finite x = true -> F64.ordered x = true.
Proof.
  unfold F64.finite, F64.ordered. rewrite leb_spec. intros H.
  apply SFleb_refl_iff. destruct (Prim2SF x); try discriminate.
Qed.


(** Equal floats compare alike with a third one. *)
Lemma F64_eqb_leb_l (x y a : float) :
  (x =? y)%float = true -> (a <=? x)%float = (a <=? y)%float.
Proof.
  rewrite F64_eqb_leb, andb_true_iff. intros [H1 H2].
  destruct (a <=? x)%float eqn:E1, (a <=? y)%float eqn:E2; try reflexivity.
  - pose proof (F64_leb_trans _ _ _ E1 H1). congruence.
  - pose proof (F64_leb_trans _ _ _ E2 H2). congruence.
Qed.

Lemma F64_eqb_leb_r (x y b : float) :
  (x =? y)%float = true -> (x <=? b)%float = (y <=? b)%float.
Proof.
  rewrite F64_eqb_leb, andb_true_iff. intros [H1 H2].
  destruct (x <=? b)%float eqn:E1, (y <=? b)%float eqn:E2; try reflexivity.
  - pose proof (F64_leb_trans _ _ _ H2 E1). congruence.
  - pose proof (F64_leb_trans _ _ _ H1 E2). congruence.
Qed.

(** ** The REAL column *)

(** What is read back is the number that was written. *)
Lemma sqlite_real_eqb (x : float) :
  F64.ordered x = true -> (sqlite_real x =? x)%float = true.
Proof.
  unfold sqlite_real, F64.ordered. intros H.
  destruct (x =? 0)%float eqn:E.
  - now rewrite F64_eqb_sym.
  - rewrite F64_eqb_leb, H. reflexivity.
Qed.

(** It is the same float, unless that was [-0.0]. *)
Lemma sqlite_real_same (x : float) : x <> neg_zero -> sqlite_real x = x.
Proof.
  unfold sqlite_real. intros Hx. destruct (x =? 0)%float eqn:E; [|reflexivity].
  rewrite eqb_spec in E. unfold SFeqb in E.
  destruct (SFcompare (Prim2SF x) (Prim2SF 0)) as [[ | | ]|] eqn:Ec;
    try discriminate.
  apply SFcompare_eq in Ec. change (Prim2SF 0) with (S754_zero false) in Ec.
  destruct (Prim2SF x) as [[|]| | |] eqn:Ex; try discriminate.
  - elim Hx. apply Prim2SF_inj. rewrite Ex. reflexivity.
  - symmetry. apply Prim2SF_inj. rewrite Ex. reflexivity.
Qed.

Lemma sqlite_real_leb_l (a x : float) :
  (a <=? sqlite_real x)%float = (a <=? x)%float.
Proof.
  unfold sqlite_real. destruct (x =? 0)%float eqn:E; [|reflexivity].
  symmetry. apply F64_eqb_leb_l, E.
Qed.

Lemma sqlite_real_leb_r (x b : float) :
  (sqlite_real x <=? b)%float = (x <=? b)%float.
Proof.
  unfold sqlite_real. destruct (x =? 0)%float eqn:E; [|reflexivity].
  symmetry. apply F64_eqb_leb_r, E.
Qed.

Lemma sqlite_real_ordered (x : float) :
  F64.ordered (sqlite_real x) = F64.ordered x.
Proof.
  unfold F64.ordered. now rewrite sqlite_real_leb_l, sqlite_real_leb_r.
Qed.

(** ** The stable insertion sort *)

Section StableSortFacts.
Context {A : Type} (le : A -> A -> bool) (ok : A -> Prop).
Hypothesis le_total :
  forall x y, ok x -> ok y -> le x y = false -> le y x = true.
Hypothesis le_trans :
  forall x y z, ok x -> ok y -> ok z ->
                le x y = true -> le y z = true -> le x z = true.

Let leP (x y : A) : Prop := le x y = true.

Lemma insert_sorted_perm (x : A) (l : list A) :
  Permutation (x :: l) (insert_sorted le x l).
Proof.
  induction l as [|y l IH]; simpl.
  - apply Permutation_refl.
  - destruct (le x y).
    + apply Permutation_refl.
    + eapply perm_trans; [apply perm_swap|]. now apply perm_skip.
Qed.

Lemma stable_sort_perm (l : list A) : Permutation l (stable_sort le l).
Proof.
  induction l as [|x l IH]; simpl.
  - constructor.
  - eapply perm_trans; [apply perm_skip, IH|]. apply insert_sorted_perm.
Qed.

Lemma stable_sort_In (x : A) (l : list A) :
  In x (stable_sort le l) <-> In x l.
Proof.
  split; intros H.
  - eapply Permutation_in; [apply Permutation_sym, stable_sort_perm|exact H].
  - eapply Permutation_in; [apply stable_sort_perm|exact H].
Qed.

Lemma stable_sort_length (l : list A) :
  List.length (stable_sort le l) = List.length l.
Proof. symmetry. apply Permutation_length, stable_sort_perm. Qed.

Lemma insert_sorted_sorted (x : A) (l : list A) :
  ok x -> Forall ok l ->
  StronglySorted leP l -> StronglySorted leP (insert_sorted le x l).
Proof.
  intros Hx Hl Hs. induction Hs as [|y l Hs IH Hy]; simpl.
  - constructor; constructor.
  - inversion Hl as [|? ? Hoky Hokl]; subst.
    destruct (le x y) eqn:E.
    + constructor; [constructor; assumption|].
      constructor; [exact E|].
      rewrite Forall_forall in Hy, Hokl |- *. intros z Hz.
      apply (le_trans x y z Hx Hoky (Hokl z Hz) E (Hy z Hz)).
    + constructor; [apply IH; assumption|].
      rewrite Forall_forall in Hy |- *. intros z Hz.
      apply (Permutation_in _ (Permutation_sym (insert_sorted_perm x l))) in Hz.
      destruct Hz as [<-|Hz]; [apply le_total; assumption|apply Hy, Hz].
Qed.

Lemma stable_sort_sorted (l : list A) :
  Forall ok l -> StronglySorted leP (stable_sort le l).
Proof.
  induction l as [|x l IH]; simpl; intros H.
  - constructor.
  - inversion H as [|? ? Hx Hl]; subst. apply insert_sorted_sorted.
    + exact Hx.
    + rewrite Forall_forall in Hl |- *. intros z Hz.
      apply Hl, (proj1 (stable_sort_In z l)), Hz.
    + apply IH, Hl.
Qed.

(** Stability: the items of a class whose members are pairwise [le] keep
    the order they had. *)
Lemma insert_sorted_class (p : A -> bool) (x : A) (l : list A) :
  (forall a b, p a = true -> p b = true -> le a b = true) ->
  filter p (insert_sorted le x l) = filter p (x :: l).
Proof.
  intros Hp. induction l as [|y l IH]; simpl; [reflexivity|].
  destruct (le x y) eqn:E; simpl; [reflexivity|].
  simpl in IH. rewrite IH.
  destruct (p x) eqn:Px, (p y) eqn:Py; try reflexivity.
  rewrite (Hp x y Px Py) in E. discriminate.
Qed.

Lemma stable_sort_class (p : A -> bool) (l : list A) :
  (forall a b, p a = true -> p b = true -> le a b = true) ->
  filter p (stable_sort le l) = filter p l.
Proof.
  intros Hp. induction l as [|x l IH]; simpl; [reflexivity|].
  rewrite (insert_sorted_class p x _ Hp). simpl. now rewrite IH.
Qed.
End StableSortFacts.

(** ** Range queries *)

Lemma query_by_timerange_rows (db : database) (start_time end_time : float)
    (src_type : option string) :
  query_by_timerange db start_time end_time src_type =
  map record_of_row
      (order_by_timestamp (selected start_time end_time src_type db)).
Proof.
  unfold query_by_timerange, selected.
  destruct src_type as [[|c s]|]; simpl; f_equal; f_equal;
    apply filter_ext; intros r; now rewrite ?andb_true_r.
Qed.

Lemma in_query_by_timerange (db : database) (start_time end_time : float)
    (src_type : option string) (rec : vector_record) :
  In rec (query_by_timerange db start_time end_time src_type) <->
  exists r, In r (table db) /\ rec = record_of_row r /\
            in_range start_time end_time r = true /\
            matches_filter src_type r = true.
Proof.
  rewrite query_by_timerange_rows, in_map_iff. unfold order_by_timestamp, selected.
  split.
  - intros (r & <- & Hr). apply stable_sort_In, filter_In in Hr.
    destruct Hr as [Hr Hb]. apply andb_true_iff in Hb. exists r. tauto.
  - intros (r & Hr & -> & H1 & H2). exists r. split; [reflexivity|].
    apply stable_sort_In, filter_In. split; [exact Hr|]. now rewrite H1, H2.
Qed.

Lemma empty_range (start_time end_time : float) (r : row) :
  (end_time <? start_time)%float = true -> in_range start_time end_time r = false.
Proof.
  intros H. unfold in_range. apply F64_ltb_antisym in H.
  destruct (start_time <=? row_timestamp r)%float eqn:E1; [|reflexivity].
  destruct (row_timestamp r <=? end_time)%float eqn:E2; [|reflexivity].
  rewrite (F64_leb_trans _ _ _ E1 E2) in H. discriminate.
Qed.

Lemma filter_none {A : Type} (f : A -> bool) (l : list A) :
  (forall x, In x l -> f x = false) -> filter f l = [].
Proof.
  induction l as [|x l IH]; simpl; intros H; [reflexivity|].
  rewrite (H x (or_introl eq_refl)). apply IH. intros y Hy. apply H. now right.
Qed.

(** C3: every record [query_by_timerange] returns has its timestamp between
    the two bounds, both included, and comes from a stored row the filter
    admits; every stored row in the range that the filter admits is
    returned; and when [start_time > end_time] the result is the empty
    list. *)
Theorem query_by_timerange_range (db : database) (start_time end_time : float)
    (src_type : option string) :
  (forall rec, In rec (query_by_timerange db start_time end_time src_type) ->
     (start_time <=? timestamp rec)%float = true /\
     (timestamp rec <=? end_time)%float = true /\
     exists r, In r (table db) /\ rec = record_of_row r /\
               matches_filter src_type r = true) /\
  (forall r, In r (table db) ->
     (start_time <=? row_timestamp r)%float = true ->
     (row_timestamp r <=? end_time)%float = true ->
     matches_filter src_type r = true ->
     In (record_of_row r) (query_by_timerange db start_time end_time src_type)) /\
  ((end_time <? start_time)%float = true ->
   query_by_timerange db start_time end_time src_type = []).
Proof.
  split; [|split].
  - intros rec H. apply in_query_by_timerange in H.
    destruct H as (r & Hr & -> & Hin & Hm). unfold in_range in Hin.
    apply andb_true_iff in Hin. destruct Hin as [H1 H2]. simpl.
    repeat split; try assumption. exists r. auto.
  - intros r Hr H1 H2 Hm. apply in_query_by_timerange. exists r.
    unfold in_range. rewrite H1, H2. auto.
  - intros H. rewrite query_by_timerange_rows. unfold selected.
    rewrite filter_none; [reflexivity|].
    intros r _. now rewrite (empty_range _ _ r H).
Qed.

Lemma query_by_timerange_range_witness :
  query_by_timerange scenario_db 25 15 None = [].
Proof.
  apply (proj2 (proj2 (query_by_timerange_range scenario_db 25 15 None))).
  vm_compute. reflexivity.
Defined.

(** The scenario of the specification: the query over [15, 25] returns
    exactly the record at second 20. *)
Example query_by_timerange_scenario :
  map timestamp (query_by_timerange scenario_db 15 25 None) = [20%float].
Proof. vm_compute. reflexivity. Qed.

(** C10: an empty string as [source_type] is no filter at all: the query
    returns what it returns without a filter, so every stored row of the
    range is returned whatever its source type. *)
Theorem query_by_timerange_empty_source_type (db : database)
    (start_time end_time : float) :
  query_by_timerange db start_time end_time (Some EmptyString) =
  query_by_timerange db start_time end_time None /\
  incl (map record_of_row (filter (in_range start_time end_time) (table db)))
       (query_by_timerange db start_time end_time (Some EmptyString)).
Proof.
  split; [reflexivity|].
  intros rec H. apply in_map_iff in H. destruct H as (r & <- & Hr).
  apply filter_In in Hr. destruct Hr as [Hr Hin].
  apply in_query_by_timerange. exists r. auto.
Qed.

(** ** Similar moments without a reference *)

(** C1 (as the code has it): when no stored row admitted by the filter has
    its timestamp in [target_timestamp - 5, target_timestamp + 5],
    [find_similar_moments] returns the empty list; it raises nothing. *)
Theorem find_similar_moments_no_reference (db : database)
    (target_timestamp window_size : float) (src_type : option string) :
  (forall r, In r (table db) -> matches_filter src_type r = true ->
     in_range (target_timestamp - 5) (target_timestamp + 5) r = false) ->
  find_similar_moments db target_timestamp window_size src_type = Returned [].
Proof.
  intros H. unfold find_similar_moments.
  destruct (query_by_timerange db (target_timestamp - 5) (target_timestamp + 5)
              src_type) as [|rec l] eqn:E; [reflexivity|].
  assert (Hin : In rec (query_by_timerange db (target_timestamp - 5)
                          (target_timestamp + 5) src_type))
    by (rewrite E; now left).
  apply in_query_by_timerange in Hin. destruct Hin as (r & Hr & _ & Hin & Hm).
  rewrite (H r Hr Hm) in Hin. discriminate.
Qed.

Lemma find_similar_moments_no_reference_witness :
  find_similar_moments scenario_db 50 30 (Some "audio"%string) = Returned [].
Proof.
  apply (find_similar_moments_no_reference scenario_db 50 30 (Some "audio"%string)).
  intros r Hr _. vm_compute in Hr.
  destruct Hr as [<-|[<-|[<-|[]]]]; vm_compute; reflexivity.
Defined.

(** C1 as stated fails: with records at 10, 20 and 80 seconds and a target
    of 50 seconds no record lies within 5 seconds of the target, and the
    call returns normally. *)
Lemma find_similar_moments_no_reference_is_no_error :
  (forall r, In r (table scenario_db) ->
     in_range (50 - 5) (50 + 5) r = false) /\
  ~ (exists e, find_similar_moments scenario_db 50 30 (Some "audio"%string)
               = Raised e).
Proof.
  split.
  - intros r Hr. vm_compute in Hr.
    destruct Hr as [<-|[<-|[<-|[]]]]; vm_compute; reflexivity.
  - intros [e He]. vm_compute in He. discriminate.
Qed.

(** ** Cosine similarity: the degenerate cases *)

Lemma py_numbers_json_vector (v : list float) :
  py_numbers (map JNum v) = Some v.
Proof. induction v as [|x v IH]; simpl; [reflexivity|now rewrite IH]. Qed.

Lemma call_cosine_similarity_vectors (vec1 vec2 : list float) :
  call_cosine_similarity (json_vector vec1) (json_vector vec2) =
  Returned (cosine_similarity binary64 vec1 vec2).
Proof.
  unfold call_cosine_similarity, json_vector, cosine_similarity. simpl.
  rewrite !length_map, !py_numbers_json_vector.
  destruct (negb (List.length vec1 =? List.length vec2)%nat); reflexivity.
Qed.

(** C5: on two lists of floats, [cosine_similarity] returns 0.0 when the
    lengths differ, and returns 0.0 when the magnitude of either is zero;
    in both cases it returns and does not raise. *)
Theorem cosine_similarity_degenerate (vec1 vec2 : list float) :
  (List.length vec1 <> List.length vec2 ->
   call_cosine_similarity (json_vector vec1) (json_vector vec2)
   = Returned 0%float) /\
  ((magnitude binary64 vec1 =? 0)%float = true \/
   (magnitude binary64 vec2 =? 0)%float = true ->
   call_cosine_similarity (json_vector vec1) (json_vector vec2)
   = Returned 0%float).
Proof.
  rewrite call_cosine_similarity_vectors. unfold cosine_similarity.
  split.
  - intros H. apply Nat.eqb_neq in H. rewrite H. reflexivity.
  - intros H. destruct (negb (List.length vec1 =? List.length vec2)%nat);
      [reflexivity|].
    fold (magnitude binary64 vec1). fold (magnitude binary64 vec2).
    cbn [a_is_zero binary64].
    destruct H as [H|H]; rewrite H; [|rewrite orb_true_r]; reflexivity.
Qed.

Lemma cosine_similarity_degenerate_witness :
  call_cosine_similarity (json_vector [1; 2; 3]%float) (json_vector [1; 2]%float)
  = Returned 0%float /\
  call_cosine_similarity (json_vector [0; 0]%float) (json_vector [3; 4]%float)
  = Returned 0%float.
Proof.
  split.
  - apply (proj1 (cosine_similarity_degenerate [1; 2; 3] [1; 2])%float).
    simpl. discriminate.
  - apply (proj2 (cosine_similarity_degenerate [0; 0] [3; 4])%float).
    left. vm_compute. reflexivity.
Defined.

(** ** Order of the rows a query returns *)

Lemma StronglySorted_filter {A : Type} (R : A -> A -> Prop) (f : A -> bool)
    (l : list A) :
  StronglySorted R l -> StronglySorted R (filter f l).
Proof.
  induction 1 as [|x l Hs IH Hx]; simpl; [constructor|].
  destruct (f x); [|exact IH].
  constructor; [exact IH|].
  rewrite Forall_forall in Hx |- *. intros y Hy. apply filter_In in Hy.
  apply Hx, Hy.
Qed.

Lemma StronglySorted_map {A B : Type} (R : B -> B -> Prop) (f : A -> B)
    (l : list A) :
  StronglySorted (fun a b => R (f a) (f b)) l -> StronglySorted R (map f l).
Proof.
  induction 1 as [|x l Hs IH Hx]; simpl; constructor; [exact IH|].
  rewrite Forall_forall in Hx |- *. intros y Hy. apply in_map_iff in Hy.
  destruct Hy as (a & <- & Ha). apply Hx, Ha.
Qed.

Lemma StronglySorted_split {A : Type} (R : A -> A -> Prop)
    (l1 : list A) (a : A) (l2 : list A) (b : A) (l3 : list A) :
  StronglySorted R (l1 ++ a :: l2 ++ b :: l3) -> R a b.
Proof.
  induction l1 as [|x l1 IH]; simpl; intros H; inversion H as [|? ? Hs Hx]; subst.
  - rewrite Forall_forall in Hx. apply Hx. apply in_or_app. right. now left.
  - apply IH, Hs.
Qed.

Lemma same_second_le (t : float) (a b : row) :
  (row_timestamp a =? t)%float = true ->
  (row_timestamp b =? t)%float = true ->
  (row_timestamp a <=? row_timestamp b)%float = true.
Proof.
  rewrite !F64_eqb_leb, !andb_true_iff. intros [H1 _] [_ H2].
  exact (F64_leb_trans _ _ _ H1 H2).
Qed.

(** Rows of one timestamp come out of [ORDER BY timestamp] in table
    order. *)
Lemma order_by_timestamp_same_second (t : float) (rows : list row) :
  filter (fun r => (row_timestamp r =? t)%float) (order_by_timestamp rows) =
  filter (fun r => (row_timestamp r =? t)%float) rows.
Proof.
  unfold order_by_timestamp. apply stable_sort_class.
  intros a b. apply same_second_le.
Qed.

(** C7: on a well-formed store, of two returned records with equal
    timestamps the one returned first has the smaller id. *)
Theorem query_by_timerange_ties (db : database) (start_time end_time : float)
    (src_type : option string)
    (l1 : list vector_record) (a : vector_record) (l2 : list vector_record)
    (b : vector_record) (l3 : list vector_record) :
  well_formed db ->
  query_by_timerange db start_time end_time src_type
    = l1 ++ a :: l2 ++ b :: l3 ->
  (timestamp a =? timestamp b)%float = true ->
  (id a < id b)%Z.
Proof.
  intros [Hwf _] Hq Hab. rewrite query_by_timerange_rows in Hq.
  apply map_eq_app in Hq. destruct Hq as (r1 & rest & Hsort & _ & Hrest).
  apply map_eq_cons in Hrest. destruct Hrest as (ra & rest' & -> & <- & Hrest).
  apply map_eq_app in Hrest. destruct Hrest as (r2 & rest'' & -> & _ & Hrest).
  apply map_eq_cons in Hrest. destruct Hrest as (rb & r3 & -> & <- & _).
  simpl in Hab |- *.
  set (p := fun r => (row_timestamp r =? row_timestamp rb)%float).
  assert (Hpb : p rb = true).
  { unfold p. rewrite F64_eqb_sym in Hab. rewrite F64_eqb_leb in Hab |- *.
    apply andb_true_iff in Hab. destruct Hab as [H _].
    apply F64_leb_ordered in H. destruct H as [H _]. unfold F64.ordered in H.
    now rewrite H. }
  pose proof (order_by_timestamp_same_second (row_timestamp rb)
                (selected start_time end_time src_type db)) as Hst.
  fold p in Hst. rewrite Hsort in Hst.
  rewrite filter_app in Hst. simpl in Hst. rewrite filter_app in Hst.
  simpl in Hst. unfold p at 2 in Hst. rewrite Hab in Hst. rewrite Hpb in Hst.
  assert (Hs : StronglySorted (fun x y => (row_id x < row_id y)%Z)
                 (filter p (selected start_time end_time src_type db))).
  { apply StronglySorted_filter. unfold selected.
    apply StronglySorted_filter. exact Hwf. }
  rewrite <- Hst in Hs.
  exact (StronglySorted_split _ _ _ _ _ _ Hs).
Qed.

(** ** Storing a batch *)

Lemma execute_insert_accepts (src_type src_file : string) (v : feature_vector)
    (db : database) :
  F64.ordered (fv_timestamp v) = true ->
  execute_insert src_type src_file v db =
  ({| table := table db ++ new_rows src_type src_file (sequence db) [v];
      sequence := sequence db + 1 |}, Returned tt).
Proof. intros H. unfold execute_insert. rewrite H. reflexivity. Qed.

Lemma insert_vectors_accepts (src_type : string) (vectors : list feature_vector)
    (src_file : string) (db : database) :
  Forall (fun v => F64.ordered (fv_timestamp v) = true) vectors ->
  insert_vectors src_type vectors src_file db =
  ({| table := table db ++ new_rows src_type src_file (sequence db) vectors;
      sequence := sequence db + Z.of_nat (List.length vectors) |}, Returned tt).
Proof.
  intros H. revert db. induction H as [|v vectors Hv _ IH]; intros db.
  - simpl. rewrite app_nil_r, Z.add_0_r. now destruct db.
  - cbn [insert_vectors]. rewrite (execute_insert_accepts _ _ _ _ Hv), IH.
    cbn [table sequence new_rows List.length]. rewrite <- app_assoc.
    cbn [app]. f_equal. f_equal. lia.
Qed.

Lemma execute_insert_well_formed (src_type src_file : string)
    (v : feature_vector) (db : database) :
  well_formed db -> well_formed (fst (execute_insert src_type src_file v db)).
Proof.
  intros [Hs Hb]. unfold execute_insert.
  destruct (F64.ordered (fv_timestamp v)); [|split; assumption].
  split; simpl.
  - clear -Hs Hb. induction Hs as [|r l Hs IH Hr]; simpl.
    + constructor; constructor.
    + inversion Hb as [|? ? Hr' Hl']; subst.
      constructor; [apply IH, Hl'|].
      apply Forall_app. split; [exact Hr|]. constructor; [simpl; lia|constructor].
  - apply Forall_app. split.
    + eapply Forall_impl; [|exact Hb]. simpl. intros; lia.
    + constructor; [simpl; lia|constructor].
Qed.

Lemma execute_insert_raised (src_type src_file : string) (v : feature_vector)
    (db db' : database) (e : pyerror) :
  execute_insert src_type src_file v db = (db', Raised e) -> db' = db.
Proof.
  unfold execute_insert. destruct (F64.ordered (fv_timestamp v)); congruence.
Qed.

Lemma insert_vectors_well_formed (src_type : string)
    (vectors : list feature_vector) (src_file : string) (db : database) :
  well_formed db -> well_formed (fst (insert_vectors src_type vectors src_file db)).
Proof.
  revert db. induction vectors as [|v vectors IH]; intros db Hwf; [exact Hwf|].
  cbn [insert_vectors].
  pose proof (execute_insert_well_formed src_type src_file v db Hwf) as H.
  destruct (execute_insert src_type src_file v db) as [db' [[]|e]]; simpl in H.
  - apply IH, H.
  - exact H.
Qed.

Lemma create_tables_well_formed : well_formed create_tables.
Proof. split; constructor. Qed.

(** Every state the loaders reach from a fresh database is well formed. *)
Lemma loaders_well_formed
    (store_vectors : database -> list feature_vector -> string
                     -> database * outcome unit)
    (db : database) (vectors : list feature_vector) (src_file : string) :
  In store_vectors loaders -> well_formed db ->
  well_formed (fst (store_vectors db vectors src_file)).
Proof.
  intros [<-|[<-|[<-|[]]]] Hwf; apply insert_vectors_well_formed, Hwf.
Qed.

Lemma query_by_timerange_ties_witness :
  query_by_timerange tie_db 15 25 None =
  [ mkRecord 2 "audio" "conversation_audio.wav" 20 (JList [JNum 1; JNum 0]) (JObj []);
    mkRecord 4 "visual" "google_meet.mp4" 20 (JList [JNum 3]) JNull ] /\
  (2 < 4)%Z.
Proof.
  split; [vm_compute; reflexivity|].
  apply (query_by_timerange_ties tie_db 15 25 None []
           (mkRecord 2 "audio" "conversation_audio.wav" 20
                     (JList [JNum 1; JNum 0]) (JObj []))
           []
           (mkRecord 4 "visual" "google_meet.mp4" 20 (JList [JNum 3]) JNull)
           []).
  - unfold tie_db, scenario_db, store_visual_vectors, store_audio_vectors.
    apply insert_vectors_well_formed, insert_vectors_well_formed,
          create_tables_well_formed.
  - vm_compute. reflexivity.
  - vm_compute. reflexivity.
Defined.

(** ** Round trip *)

Lemma F64_leb_infinity (x : float) :
  F64.ordered x = true -> (x <=? infinity)%float = true.
Proof.
  unfold F64.ordered. rewrite !leb_spec. intros H. apply SFleb_refl_iff in H.
  change (Prim2SF infinity) with (S754_infinity false).
  unfold SFleb. destruct (Prim2SF x) as [s|s| |s m e]; simpl;
    try reflexivity; try (destruct s; reflexivity). now elim H.
Qed.

Lemma filter_all {A : Type} (f : A -> bool) (l : list A) :
  (forall x, In x l -> f x = true) -> filter f l = l.
Proof.
  induction l as [|x l IH]; simpl; intros H; [reflexivity|].
  rewrite (H x (or_introl eq_refl)). f_equal. apply IH. intros y Hy.
  apply H. now right.
Qed.

Lemma new_rows_fields (src_type src_file : string) (seq : Z)
    (vectors : list feature_vector) :
  Forall (fun v => F64.ordered (fv_timestamp v) = true) vectors ->
  Forall2 same_fields
          (map (fun r => returned_fields (record_of_row r))
               (new_rows src_type src_file seq vectors))
          (map stored_fields vectors).
Proof.
  intros H. revert seq. induction H as [|v vectors Hv _ IH]; intros seq;
    simpl; constructor; [|apply IH].
  unfold same_fields. simpl. split; [apply sqlite_real_eqb, Hv|].
  split; [apply sqlite_real_same|]. split; reflexivity.
Qed.

Lemma new_rows_length (src_type src_file : string) (seq : Z)
    (vectors : list feature_vector) :
  List.length (new_rows src_type src_file seq vectors) = List.length vectors.
Proof.
  revert seq. induction vectors as [|v vectors IH]; intros seq; simpl;
    [reflexivity|]. now rewrite IH.
Qed.

Lemma new_rows_ids (src_type src_file : string) (seq : Z)
    (vectors : list feature_vector) :
  Forall (fun r => (seq < row_id r <= seq + Z.of_nat (List.length vectors))%Z)
         (new_rows src_type src_file seq vectors).
Proof.
  revert seq. induction vectors as [|v vectors IH]; intros seq;
    cbn [new_rows List.length]; constructor.
  - simpl. lia.
  - eapply Forall_impl; [|apply IH]. simpl. intros r. lia.
Qed.

Lemma new_rows_in_range (src_type src_file : string) (seq : Z)
    (vectors : list feature_vector) (r : row) :
  Forall (fun v => (0 <=? fv_timestamp v)%float = true) vectors ->
  In r (new_rows src_type src_file seq vectors) ->
  in_range 0 infinity r = true.
Proof.
  intros H. revert seq. induction H as [|v vectors Hv _ IH]; intros seq;
    simpl; [tauto|].
  intros [<-|Hr]; [|exact (IH _ Hr)].
  unfold in_range. simpl. rewrite sqlite_real_leb_l, sqlite_real_leb_r, Hv.
  simpl. apply F64_leb_infinity. apply F64_leb_ordered in Hv. tauto.
Qed.

Lemma StronglySorted_lt_NoDup (l : list Z) :
  StronglySorted Z.lt l -> NoDup l.
Proof.
  induction 1 as [|x l Hs IH Hx]; constructor; [|exact IH].
  intros Hin. rewrite Forall_forall in Hx. specialize (Hx x Hin). lia.
Qed.

Lemma in_range_ordered (start_time end_time : float) (r : row) :
  in_range start_time end_time r = true -> F64.ordered (row_timestamp r) = true.
Proof.
  unfold in_range. intros H. apply andb_true_iff in H. destruct H as [H _].
  apply F64_leb_ordered in H. tauto.
Qed.

(** The records of a query are in ascending order of timestamp. *)
Lemma query_by_timerange_sorted (db : database) (start_time end_time : float)
    (src_type : option string) :
  StronglySorted (fun a b => (timestamp a <=? timestamp b)%float = true)
                 (query_by_timerange db start_time end_time src_type).
Proof.
  rewrite query_by_timerange_rows. apply StronglySorted_map. simpl.
  unfold order_by_timestamp.
  apply (stable_sort_sorted
           (fun a b => (row_timestamp a <=? row_timestamp b)%float)
           (fun r => F64.ordered (row_timestamp r) = true)).
  - intros x y Hx Hy H. apply F64_ltb_leb, F64_leb_total; assumption.
  - intros x y z _ _ _. apply F64_leb_trans.
  - unfold selected. rewrite Forall_forall. intros r Hr.
    apply filter_In in Hr. destruct Hr as [_ Hr].
    apply andb_true_iff in Hr. destruct Hr as [Hr _].
    exact (in_range_ordered _ _ _ Hr).
Qed.

Lemma insert_vectors_round_trip (src_type : string)
    (vectors : list feature_vector) (src_file : string) :
  Forall (fun v => (0 <=? fv_timestamp v)%float = true) vectors ->
  let stored := insert_vectors src_type vectors src_file create_tables in
  let result := query_by_timerange (fst stored) 0 infinity None in
  snd stored = Returned tt /\
  List.length result = List.length vectors /\
  (exists returned,
     Permutation (map returned_fields result) returned /\
     Forall2 same_fields returned (map stored_fields vectors)) /\
  StronglySorted (fun a b => (timestamp a <=? timestamp b)%float = true) result /\
  NoDup (map id result) /\
  Forall (fun r => (1 <= id r <= Z.of_nat (List.length vectors))%Z) result.
Proof.
  intros Hv stored result.
  assert (Hord : Forall (fun v => F64.ordered (fv_timestamp v) = true) vectors).
  { eapply Forall_impl; [|exact Hv]. simpl. intros v H.
    apply F64_leb_ordered in H. tauto. }
  assert (Hst : stored =
                ({| table := new_rows src_type src_file 0 vectors;
                    sequence := Z.of_nat (List.length vectors) |}, Returned tt)).
  { unfold stored. rewrite (insert_vectors_accepts _ _ _ _ Hord). reflexivity. }
  assert (Hres : result = map record_of_row
                   (order_by_timestamp (new_rows src_type src_file 0 vectors))).
  { unfold result. rewrite query_by_timerange_rows, Hst. unfold selected.
    cbn [fst table]. rewrite filter_all; [reflexivity|].
    intros r Hr. rewrite (new_rows_in_range _ _ _ _ r Hv Hr). reflexivity. }
  assert (Hperm : Permutation result
                    (map record_of_row (new_rows src_type src_file 0 vectors))).
  { rewrite Hres. apply Permutation_map, Permutation_sym.
    unfold order_by_timestamp. apply stable_sort_perm. }
  split; [now rewrite Hst|]. split; [|split; [|split; [|split]]].
  - rewrite (Permutation_length Hperm), length_map. apply new_rows_length.
  - exists (map (fun r => returned_fields (record_of_row r))
               (new_rows src_type src_file 0 vectors)).
    split; [|apply new_rows_fields, Hord].
    rewrite <- (map_map record_of_row returned_fields).
    apply Permutation_map, Hperm.
  - apply query_by_timerange_sorted.
  - apply (Permutation_NoDup (Permutation_sym (Permutation_map id Hperm))).
    rewrite map_map. change (fun x => id (record_of_row x)) with row_id.
    apply StronglySorted_lt_NoDup, StronglySorted_map.
    pose proof (insert_vectors_well_formed src_type vectors src_file
                  create_tables create_tables_well_formed) as [Hs _].
    fold stored in Hs. rewrite Hst in Hs. exact Hs.
  - rewrite Forall_forall. intros rec Hrec.
    apply (Permutation_in _ Hperm), in_map_iff in Hrec.
    destruct Hrec as (r & <- & Hr).
    pose proof (new_rows_ids src_type src_file 0 vectors) as Hids.
    rewrite Forall_forall in Hids. specialize (Hids r Hr). simpl. lia.
Qed.

(** C2: a batch of N records with non-negative timestamps, stored in a
    fresh database by any of the three loaders, comes back from
    [query_by_timerange 0 infinity]: N records which, taken in some order,
    have the fields of the N submitted ones (the timestamp an equal
    number, and the same float unless [-0.0] was submitted; the vector and
    the metadata the same values); they are in ascending order of
    timestamp and carry the N distinct ids 1..N. *)
Theorem store_then_query_round_trip
    (store_vectors : database -> list feature_vector -> string
                     -> database * outcome unit)
    (vectors : list feature_vector) (src_file : string) :
  In store_vectors loaders ->
  Forall (fun v => (0 <=? fv_timestamp v)%float = true) vectors ->
  let stored := store_vectors create_tables vectors src_file in
  let result := query_by_timerange (fst stored) 0 infinity None in
  snd stored = Returned tt /\
  List.length result = List.length vectors /\
  (exists returned,
     Permutation (map returned_fields result) returned /\
     Forall2 same_fields returned (map stored_fields vectors)) /\
  StronglySorted (fun a b => (timestamp a <=? timestamp b)%float = true) result /\
  NoDup (map id result) /\
  Forall (fun r => (1 <= id r <= Z.of_nat (List.length vectors))%Z) result.
Proof.
  intros Hin Hv.
  destruct Hin as [<-|[<-|[<-|[]]]];
    unfold store_audio_vectors, store_visual_vectors, store_semantic_vectors;
    apply insert_vectors_round_trip, Hv.
Qed.

Lemma store_then_query_round_trip_witness :
  List.length (query_by_timerange scenario_db 0 infinity None) = 3 /\
  exists returned,
    Permutation
      (map returned_fields (query_by_timerange scenario_db 0 infinity None))
      returned /\
    Forall2 same_fields returned (map stored_fields scenario_vectors).
Proof.
  destruct (store_then_query_round_trip store_audio_vectors scenario_vectors
              "conversation_audio.wav") as (_ & Hlen & Hperm & _).
  - left. reflexivity.
  - repeat constructor.
  - split; [exact Hlen|exact Hperm].
Defined.

(** A timestamp submitted as [-0.0] is stored and comes back as [0.0]: an
    equal number, not the same float. *)
Example store_negative_zero :
  Forall (fun v => (0 <=? fv_timestamp v)%float = true) negative_zero_batch /\
  map returned_fields
      (query_by_timerange
         (fst (store_audio_vectors create_tables negative_zero_batch "a.wav"))
         0 infinity None)
  = [ (0%float, JList [JNum 1; JNum 0], JObj []) ] /\
  map stored_fields negative_zero_batch
  = [ (neg_zero, JList [JNum 1; JNum 0], JObj []) ] /\
  (0 =? neg_zero)%float = true /\ 0%float <> neg_zero.
Proof.
  split; [repeat constructor|]. split; [vm_compute; reflexivity|].
  split; [reflexivity|]. split; [reflexivity|].
  intros H. apply (f_equal Prim2SF) in H. vm_compute in H. discriminate.
Qed.

(** C8 (as the code has it): the loaders validate nothing.  A batch in
    which every timestamp is a number (not NaN) is stored whole, one row
    per record in order, whatever its vectors and metadata hold, and the
    call returns normally. *)
Theorem store_vectors_no_validation (db : database)
    (vectors : list feature_vector) (src_file : string) :
  Forall (fun v => F64.ordered (fv_timestamp v) = true) vectors ->
  store_audio_vectors db vectors src_file
    = (appended "audio" db vectors src_file, Returned tt) /\
  store_visual_vectors db vectors src_file
    = (appended "visual" db vectors src_file, Returned tt) /\
  store_semantic_vectors db vectors src_file
    = (appended "semantic" db vectors src_file, Returned tt).
Proof.
  intros H. repeat split; apply insert_vectors_accepts, H.
Qed.

Lemma store_vectors_no_validation_witness :
  store_audio_vectors scenario_db malformed_batch "noise.wav"
  = (appended "audio" scenario_db malformed_batch "noise.wav", Returned tt).
Proof.
  apply (store_vectors_no_validation scenario_db malformed_batch "noise.wav").
  repeat constructor.
Defined.

(** C8 as stated fails: a batch with a non-numeric vector entry is not
    rejected; the call returns normally and the table has one more row. *)
Lemma store_audio_vectors_accepts_malformed :
  Exists (fun v => numeric_vector (fv_dense_vector v) = false) malformed_batch /\
  snd (store_audio_vectors scenario_db malformed_batch "noise.wav") = Returned tt /\
  List.length (table (fst (store_audio_vectors scenario_db malformed_batch "noise.wav")))
  = S (List.length (table scenario_db)).
Proof.
  split; [left; reflexivity|]. split; vm_compute; reflexivity.
Qed.

(** The one rejection there is, the NOT NULL timestamp, is not atomic on
    the connection: the rows before the offending record stay inserted. *)
Remark store_audio_vectors_partial :
  store_audio_vectors create_tables nan_batch "noise.wav"
  = ({| table := new_rows "audio" "noise.wav" 0 (firstn 1 nan_batch);
        sequence := 1 |}, Raised IntegrityError).
Proof. vm_compute. reflexivity. Qed.

(** ** Summary *)

(** C6: with audio records at seconds 0 and 10 the summary counts 2 records
    between 0 and 10 but reports a duration of 0 for the type, whereas the
    maximum minus the minimum is 10. *)
Theorem get_conversation_summary_zero_start :
  get_conversation_summary zero_start_db =
  {| total_vectors := 2;
     duration := 10;
     sources := [ ("audio"%string,
                   {| count := 2;
                      min_timestamp := Some 0%float;
                      max_timestamp := Some 10%float;
                      src_duration := 0 |}) ] |} /\
  (10 - 0 =? 0)%float = false.
Proof. split; vm_compute; reflexivity. Qed.

(** On an empty store the summary has no record, no duration and no
    source. *)
Lemma get_conversation_summary_empty :
  get_conversation_summary create_tables =
  {| total_vectors := 0; duration := 0; sources := [] |}.
Proof. reflexivity. Qed.

(** With several source types the summary has one entry per type, the
    total count, and the largest timestamp as overall duration. *)
Example get_conversation_summary_two_types :
  get_conversation_summary tie_db =
  {| total_vectors := 5;
     duration := 80;
     sources := [ ("audio"%string,
                   {| count := 3;
                      min_timestamp := Some 10%float;
                      max_timestamp := Some 80%float;
                      src_duration := 70 |});
                  ("visual"%string,
                   {| count := 2;
                      min_timestamp := Some 10%float;
                      max_timestamp := Some 20%float;
                      src_duration := 10 |}) ] |}.
Proof. vm_compute. reflexivity. Qed.

(** ** Ranking of similar moments *)

Lemma collect_similarities_scored (target_timestamp window_size : float)
    (target_vector : json) (all_vectors : list vector_record)
    (similarities : list moment) :
  collect_similarities target_timestamp window_size target_vector all_vectors
    = Returned similarities ->
  Forall2 (scored target_vector)
          (filter (kept target_timestamp window_size) all_vectors)
          similarities.
Proof.
  revert similarities.
  induction all_vectors as [|r l IH]; intros similarities; simpl.
  - intros [= <-]. constructor.
  - unfold kept at 1.
    destruct (abs (timestamp r - target_timestamp) <? window_size)%float;
      simpl; [apply IH|].
    destruct (call_cosine_similarity target_vector (vector r)) as [s|e] eqn:Es;
      simpl; [|discriminate].
    destruct (collect_similarities target_timestamp window_size target_vector l)
      as [sims|e]; simpl; [|discriminate].
    intros [= <-]. constructor; [|apply IH; reflexivity].
    repeat split; assumption.
Qed.

Lemma numeric_vector_json_vector (v : json) :
  numeric_vector v = true -> exists l, v = json_vector l.
Proof.
  destruct v as [ | | | |l| ]; simpl; try discriminate.
  induction l as [|x l IH]; simpl; intros H.
  - exists []. reflexivity.
  - apply andb_true_iff in H. destruct H as [Hx Hl].
    destruct x as [ | |x| | | ]; try discriminate.
    destruct (IH Hl) as [l' E]. exists (x :: l').
    unfold json_vector in *. simpl. congruence.
Qed.

(** On vectors that are lists of numbers the loop raises nothing. *)
Lemma collect_similarities_returns (target_timestamp window_size : float)
    (target_vector : json) (all_vectors : list vector_record) :
  numeric_vector target_vector = true ->
  Forall (fun r => numeric_vector (vector r) = true) all_vectors ->
  exists similarities,
    collect_similarities target_timestamp window_size target_vector all_vectors
    = Returned similarities.
Proof.
  intros Ht H. induction H as [|r l Hr _ [sims IH]]; simpl.
  - exists []. reflexivity.
  - destruct (abs (timestamp r - target_timestamp) <? window_size)%float.
    + exists sims. exact IH.
    + destruct (numeric_vector_json_vector _ Ht) as [v1 ->].
      destruct (numeric_vector_json_vector _ Hr) as [v2 ->].
      rewrite call_cosine_similarity_vectors, IH. simpl. eexists. reflexivity.
Qed.



Lemma sort_by_similarity_perm (similarities : list moment) :
  Permutation similarities (sort_by_similarity similarities).
Proof. apply stable_sort_perm. Qed.




Lemma Forall2_In_r {A B : Type} (R : A -> B -> Prop) (l1 : list A) (l2 : list B)
    (y : B) :
  Forall2 R l1 l2 -> In y l2 -> exists x, In x l1 /\ R x y.
Proof.
  induction 1 as [|a b l1 l2 Hab _ IH]; simpl; [tauto|].
  intros [<-|Hy].
  - exists a. auto.
  - destruct (IH Hy) as (x & Hx & HR). exists x. auto.
Qed.

Lemma In_firstn {A : Type} (n : nat) (l : list A) (x : A) :
  In x (firstn n l) -> In x l.
Proof.
  intros H. rewrite <- (firstn_skipn n l). apply in_or_app. now left.
Qed.


Lemma find_similar_moments_candidates (db : database)
    (target_timestamp window_size : float) (src_type : option string)
    (first : vector_record) (others : list vector_record)
    (result : list moment) :
  query_by_timerange db (target_timestamp - 5) (target_timestamp + 5) src_type
    = first :: others ->
  find_similar_moments db target_timestamp window_size src_type
    = Returned result ->
  exists candidates,
    Forall2 (scored (vector first))
            (filter (kept target_timestamp window_size)
                    (query_by_timerange db 0 infinity src_type))
            candidates /\
    result = firstn 10 (sort_by_similarity candidates).
Proof.
  intros Href. unfold find_similar_moments. rewrite Href.
  destruct (collect_similarities target_timestamp window_size (vector first)
              (query_by_timerange db 0 infinity src_type))
    as [sims|e] eqn:Hs; cbn [bind]; [|discriminate].
  intros Hr. exists sims. split; [|congruence].
  apply collect_similarities_scored, Hs.
Qed.




(** ** Cosine similarity: bounds *)

(** C9 as stated fails: in binary64 the quotient can exceed 1; for the
    non-zero vector (0.1, 0.7) compared with itself it is
    1.0000000000000002. *)
Lemma cosine_similarity_above_one :
  List.length tenth_and_seven_tenths = List.length tenth_and_seven_tenths /\
  Exists (fun x => (x =? 0)%float = false) tenth_and_seven_tenths /\
  cosine_similarity binary64 tenth_and_seven_tenths tenth_and_seven_tenths
  = 0x1.0000000000001p+0%float /\
  (cosine_similarity binary64 tenth_and_seven_tenths tenth_and_seven_tenths
   <=? 1)%float = false.
Proof.
  split; [reflexivity|]. split; [left; reflexivity|].
  split; vm_compute; reflexivity.
Qed.

(** Nor is a non-zero vector always similar to itself: squares that
    overflow give NaN, squares that underflow give 0.0.  The bound below
    therefore asks for sums of squares that did not underflow and for a
    finite result. *)
Remark cosine_similarity_overflow :
  cosine_similarity binary64 [0x1p+600]%float [0x1p+600]%float = nan /\
  cosine_similarity binary64 [0x1p-600]%float [0x1p-600]%float = 0%float.
Proof. split; vm_compute; reflexivity. Qed.

(** ** Binary64 rounding: powers of two, digits and shifts *)

Lemma F64_finite_SF (x : float) : F64.finite x = SFfinite (Prim2SF x).
Proof. reflexivity. Qed.

Lemma bpow_pos (e : Z) : (0 < bpow e)%R.
Proof. apply powerRZ_lt. lra. Qed.

Lemma bpow_add (a b : Z) : bpow (a + b) = (bpow a * bpow b)%R.
Proof. apply powerRZ_add. lra. Qed.

Lemma bpow_IZR (n : Z) : (0 <= n)%Z -> bpow n = IZR (2 ^ n).
Proof.
  intros H. unfold bpow. rewrite <- (Z2Nat.id n H).
  rewrite <- pow_IZR, <- pow_powerRZ. reflexivity.
Qed.

Lemma bpow_ge_1 (n : Z) : (0 <= n)%Z -> (1 <= bpow n)%R.
Proof.
  intros H. rewrite bpow_IZR by exact H. apply IZR_le.
  assert (0 < 2 ^ n)%Z by (apply Z.pow_pos_nonneg; lia). lia.
Qed.

Lemma bpow_le (a b : Z) : (a <= b)%Z -> (bpow a <= bpow b)%R.
Proof.
  intros H. replace b with (a + (b - a))%Z by lia. rewrite bpow_add.
  pose proof (bpow_pos a). pose proof (bpow_ge_1 (b - a) ltac:(lia)). nra.
Qed.

(** The number of binary digits of a mantissa. *)
Lemma digits2_pos_bounds (p : positive) :
  (2 ^ (Zpos (digits2_pos p) - 1) <= Zpos p < 2 ^ Zpos (digits2_pos p))%Z.
Proof.
  induction p as [p IH|p IH|]; cbn [digits2_pos].
  - rewrite Pos2Z.inj_succ.
    replace (Z.succ (Zpos (digits2_pos p)) - 1)%Z with (Zpos (digits2_pos p) - 1 + 1)%Z by lia.
    rewrite Z.pow_succ_r by lia.
    assert (0 <= Zpos (digits2_pos p) - 1)%Z by lia.
    rewrite Z.pow_add_r by lia. change (2 ^ 1)%Z with 2%Z. lia.
  - rewrite Pos2Z.inj_succ.
    replace (Z.succ (Zpos (digits2_pos p)) - 1)%Z with (Zpos (digits2_pos p) - 1 + 1)%Z by lia.
    rewrite Z.pow_succ_r by lia.
    rewrite Z.pow_add_r by lia. change (2 ^ 1)%Z with 2%Z. lia.
  - simpl. lia.
Qed.

Lemma Zdigits2_le (m k : Z) : (0 < m < 2 ^ k)%Z -> (0 <= k)%Z -> (Zdigits2 m <= k)%Z.
Proof.
  intros [H1 H2] Hk. destruct m as [|p|p]; try lia. cbn [Zdigits2].
  pose proof (digits2_pos_bounds p) as [Hl _].
  destruct (Z_le_gt_dec (Zpos (digits2_pos p)) k) as [|Hgt]; [assumption|exfalso].
  assert (2 ^ k <= 2 ^ (Zpos (digits2_pos p) - 1))%Z by (apply Z.pow_le_mono_r; lia).
  lia.
Qed.

(** Shifting a mantissa right. *)
Lemma shr_1_m (mrs : shr_record) :
  (0 <= shr_m mrs)%Z -> shr_m (shr_1 mrs) = (shr_m mrs / 2)%Z.
Proof.
  destruct mrs as [m r s]. cbn [shr_m]. intros H.
  destruct m as [|[p|p|]|p]; cbn [shr_1 shr_m]; try lia.
  - reflexivity.
  - rewrite Pos2Z.inj_xI. apply Z.div_unique with 1%Z; lia.
  - rewrite Pos2Z.inj_xO. apply Z.div_unique with 0%Z; lia.
  - reflexivity.
Qed.

Lemma shr_1_nonneg (mrs : shr_record) :
  (0 <= shr_m mrs)%Z -> (0 <= shr_m (shr_1 mrs))%Z.
Proof. intros H. rewrite shr_1_m by exact H. apply Z.div_pos; lia. Qed.

Lemma iter_shr_1_m (p : positive) (mrs : shr_record) :
  (0 <= shr_m mrs)%Z ->
  shr_m (SpecFloat.iter_pos shr_1 p mrs) = (shr_m mrs / 2 ^ Zpos p)%Z.
Proof.
  revert mrs. induction p as [p IH|p IH|]; intros mrs H; cbn [SpecFloat.iter_pos].
  - assert (H1 : (0 <= shr_m (shr_1 mrs))%Z) by (apply shr_1_nonneg, H).
    assert (H2 : (0 <= shr_m (SpecFloat.iter_pos shr_1 p (shr_1 mrs)))%Z).
    { rewrite IH by exact H1. apply Z.div_pos; [lia|]. apply Z.pow_pos_nonneg; lia. }
    rewrite IH by exact H2. rewrite IH by exact H1. rewrite shr_1_m by exact H.
    assert (0 < 2 ^ Zpos p)%Z by (apply Z.pow_pos_nonneg; lia).
    rewrite !Z.div_div by lia. f_equal.
    replace (Zpos p~1) with (1 + (Zpos p + Zpos p))%Z by lia.
    rewrite !Z.pow_add_r by lia. change (2 ^ 1)%Z with 2%Z. lia.
  - assert (H2 : (0 <= shr_m (SpecFloat.iter_pos shr_1 p mrs))%Z).
    { rewrite IH by exact H. apply Z.div_pos; [lia|]. apply Z.pow_pos_nonneg; lia. }
    rewrite IH by exact H2. rewrite IH by exact H.
    assert (0 < 2 ^ Zpos p)%Z by (apply Z.pow_pos_nonneg; lia).
    rewrite !Z.div_div by lia. f_equal.
    replace (Zpos p~0) with (Zpos p + Zpos p)%Z by lia.
    rewrite !Z.pow_add_r by lia. lia.
  - apply shr_1_m, H.
Qed.

(** The value of a shifted mantissa. *)
Lemma F2R_shift (m e n : Z) : (0 <= n)%Z -> F2R m (e + n) = F2R (m * 2 ^ n) e.
Proof.
  intros H. unfold F2R. rewrite bpow_add, mult_IZR, (bpow_IZR n H). ring.
Qed.

Lemma F2R_le (m1 m2 e : Z) : (m1 <= m2)%Z -> (F2R m1 e <= F2R m2 e)%R.
Proof.
  intros H. unfold F2R. apply Rmult_le_compat_r; [left; apply bpow_pos|].
  apply IZR_le, H.
Qed.

Lemma F2R_succ (m e : Z) : F2R (m + 1) e = (F2R m e + bpow e)%R.
Proof. unfold F2R. rewrite plus_IZR. ring. Qed.

Lemma shr_record_of_loc_m (m : Z) (l : location) :
  shr_m (shr_record_of_loc m l) = m.
Proof. destruct l as [|[ | | ]]; reflexivity. Qed.

Lemma fexp64 (e : Z) : fexp prec emax e = Z.max (e - 53) emin64.
Proof. reflexivity. Qed.

(** One shift to the exponent of the format. *)
Lemma shr_fexp_spec (m e : Z) (l : location) :
  (0 <= m)%Z ->
  exists m1 e1 mrs,
    shr_fexp prec emax m e l = (mrs, e1) /\ shr_m mrs = m1 /\
    (0 <= m1)%Z /\ (e <= e1)%Z /\
    (F2R m1 e1 <= F2R m e)%R /\ (F2R (m + 1) e <= F2R (m1 + 1) e1)%R /\
    (m1 = 0%Z -> (0 < m)%Z -> e1 = emin64) /\
    (m1 <= m)%Z.
Proof.
  intros Hm. unfold shr_fexp, shr. rewrite fexp64.
  set (n := (Z.max (Zdigits2 m + e - 53) emin64 - e)%Z).
  destruct n as [|p|p] eqn:En.
  - exists m, e, (shr_record_of_loc m l). rewrite shr_record_of_loc_m.
    repeat split; try lia; try apply Rle_refl.
  - exists (m / 2 ^ Zpos p)%Z, (e + Zpos p)%Z,
           (SpecFloat.iter_pos shr_1 p (shr_record_of_loc m l)).
    assert (Hp : (0 < 2 ^ Zpos p)%Z) by (apply Z.pow_pos_nonneg; lia).
    pose proof (Z.mul_div_le m (2 ^ Zpos p) Hp) as Hlo.
    pose proof (Z.mul_succ_div_gt m (2 ^ Zpos p) Hp) as Hhi.
    split; [reflexivity|]. split.
    { rewrite iter_shr_1_m; rewrite shr_record_of_loc_m; [reflexivity|exact Hm]. }
    split; [apply Z.div_pos; lia|]. split; [lia|].
    split; [|split; [|split]].
    + rewrite F2R_shift by lia. apply F2R_le. lia.
    + rewrite F2R_shift by lia. apply F2R_le. lia.
    + intros H0 Hpos. rewrite H0 in Hhi.
      assert (Hd : (Zdigits2 m <= Zpos p)%Z) by (apply Zdigits2_le; lia).
      unfold emin64 in *. lia.
    + apply Z.div_le_upper_bound; [lia|]. nia.
  - exists m, e, (shr_record_of_loc m l). rewrite shr_record_of_loc_m.
    repeat split; try lia; try apply Rle_refl.
Qed.

Lemma round_nearest_even_cases (m : Z) (l : location) :
  round_nearest_even m l = m \/ round_nearest_even m l = (m + 1)%Z.
Proof.
  destruct l as [|[ | | ]]; cbn [round_nearest_even]; auto.
  destruct (Z.even m); auto.
Qed.

Lemma binary_round_aux_pair (sx : bool) (mx ex : Z) (lx : location) :
  binary_round_aux prec emax sx mx ex lx =
  match fst (round_pair mx ex lx) with
  | Z0 => S754_zero sx
  | Zpos m => if (snd (round_pair mx ex lx) <=? emax - prec)%Z
              then S754_finite sx m (snd (round_pair mx ex lx))
              else S754_infinity sx
  | Zneg _ => S754_nan
  end.
Proof.
  unfold binary_round_aux, round_pair.
  destruct (shr_fexp prec emax mx ex lx) as [mrs' e'].
  destruct (shr_fexp prec emax _ e' loc_Exact) as [mrs'' e'']. reflexivity.
Qed.

Lemma round_pair_spec (mx ex : Z) (lx : location) (x : R) :
  (0 <= mx)%Z -> (F2R mx ex <= x <= F2R (mx + 1) ex)%R ->
  exists m e,
    round_pair mx ex lx = (m, e) /\ (0 <= m)%Z /\
    (Rabs (F2R m e - x) <= bpow e)%R /\
    (m = 0%Z -> (0 < mx)%Z -> e = emin64).
Proof.
  intros Hmx [Hlo Hhi]. unfold round_pair.
  destruct (shr_fexp_spec mx ex lx Hmx)
    as (m1 & e1 & mrs1 & E1 & Em1 & Hm1 & He1 & Hlo1 & Hhi1 & Hz1 & Hle1).
  rewrite E1, Em1.
  set (m2 := round_nearest_even m1 (loc_of_shr_record mrs1)).
  assert (Hm2 : m2 = m1 \/ m2 = (m1 + 1)%Z) by apply round_nearest_even_cases.
  assert (Hm2' : (0 <= m2)%Z) by lia.
  destruct (shr_fexp_spec m2 e1 loc_Exact Hm2')
    as (m3 & e3 & mrs3 & E3 & Em3 & Hm3 & He3 & Hlo3 & Hhi3 & Hz3 & Hle3).
  rewrite E3, Em3. exists m3, e3. split; [reflexivity|]. split; [exact Hm3|].
  assert (Hb13 : (bpow e1 <= bpow e3)%R) by (apply bpow_le, He3).
  assert (H2lo : (F2R m1 e1 <= F2R m2 e1)%R) by (apply F2R_le; lia).
  assert (H2hi : (F2R m2 e1 <= F2R (m1 + 1) e1)%R) by (apply F2R_le; lia).
  assert (H2hi' : (F2R (m1 + 1) e1 <= F2R (m2 + 1) e1)%R) by (apply F2R_le; lia).
  pose proof (F2R_succ mx ex) as S0. pose proof (F2R_succ m1 e1) as S1.
  pose proof (F2R_succ m2 e1) as S2. pose proof (F2R_succ m3 e3) as S3.
  split.
  - apply Rabs_le. lra.
  - intros H0 Hpos. destruct (Z.eq_dec m2 0) as [E2|N2].
    + assert (m1 = 0%Z) by lia. rewrite <- (Hz1 H Hpos).
      (* second shift does not move a zero below emin *)
      clear -E3 E2 Hz1 H Hpos He3. rewrite E2 in E3.
      unfold shr_fexp, shr in E3. rewrite fexp64 in E3. cbn [Zdigits2] in E3.
      rewrite (Hz1 H Hpos) in *. simpl in E3. congruence.
    + apply Hz3; [exact H0|lia].
Qed.

(** ** Binary64 rounding: Real value of a float *)

Lemma eps_pos : (0 < eps)%R. Proof. apply bpow_pos. Qed.
Lemma eta_pos : (0 < eta)%R. Proof. apply bpow_pos. Qed.

Lemma F2R_pos (m : positive) (e : Z) : (0 < F2R (Zpos m) e)%R.
Proof.
  unfold F2R. apply Rmult_lt_0_compat; [|apply bpow_pos].
  apply IZR_lt. lia.
Qed.

Lemma valid_ulp (s : bool) (m : positive) (e : Z) :
  valid_binary (S754_finite s m e) = true ->
  (bpow e <= eps * F2R (Zpos m) e + eta)%R.
Proof.
  cbn [SpecFloat.valid_binary]. unfold bounded, canonical_mantissa.
  intros H. apply andb_true_iff in H. destruct H as [H _].
  apply Z.eqb_eq in H. rewrite fexp64 in H. pose proof (F2R_pos m e) as Hp.
  pose proof eps_pos as He. pose proof eta_pos as Ht.
  destruct (Z.eq_dec e emin64) as [E|N].
  - subst e. unfold eta, emin64 in *. nra.
  - assert (Hd : Zpos (digits2_pos m) = 53%Z) by lia.
    pose proof (digits2_pos_bounds m) as [Hl _]. rewrite Hd in Hl.
    assert (Hm : (IZR (2 ^ 52) <= IZR (Zpos m))%R) by (apply IZR_le; exact Hl).
    assert (E1 : (eps * IZR (2 ^ 52) = 1)%R).
    { unfold eps. rewrite <- (bpow_IZR 52) by lia. rewrite <- bpow_add.
      reflexivity. }
    unfold F2R. pose proof (bpow_pos e) as Hb.
    assert (bpow e <= eps * IZR (Zpos m) * bpow e)%R; [|nra].
    assert (1 <= eps * IZR (Zpos m))%R by nra. nra.
Qed.

Lemma round_error (s : bool) (mx ex : Z) (lx : location) (x : R) :
  (0 <= mx)%Z -> (mx = 0%Z -> (ex <= emin64)%Z) ->
  (F2R mx ex <= x <= F2R (mx + 1) ex)%R ->
  valid_binary (binary_round_aux prec emax s mx ex lx) = true ->
  SFfinite (binary_round_aux prec emax s mx ex lx) = true ->
  exists a, (0 <= a)%R /\
    SF2R (binary_round_aux prec emax s mx ex lx) = (if s then - a else a)%R /\
    (Rabs (a - x) <= eps * a + eta)%R.
Proof.
  intros Hmx H0 Hx. rewrite binary_round_aux_pair.
  destruct (round_pair_spec mx ex lx x Hmx Hx) as (m & e & -> & Hm & Hb & Hz).
  cbn [fst snd]. destruct m as [|p|p]; [| |lia].
  - intros _ _. exists 0%R. split; [lra|]. split; [destruct s; simpl; lra|].
    pose proof eps_pos. unfold F2R in Hb. rewrite Rmult_0_l in Hb.
    destruct (Z.eq_dec mx 0) as [E|N].
    + subst mx. specialize (H0 eq_refl). destruct Hx as [Hx1 Hx2].
      unfold F2R in Hx1, Hx2. simpl in Hx2. rewrite Rmult_0_l in Hx1.
      rewrite Rmult_1_l in Hx2.
      pose proof (bpow_le _ _ H0) as Hle. fold eta in Hle.
      apply Rabs_le. unfold eta, emin64 in *. lra.
    + rewrite (Hz eq_refl ltac:(lia)) in Hb. fold eta in Hb.
      unfold emin64 in Hb. fold eta in Hb. lra.
  - destruct (e <=? emax - prec)%Z; [|discriminate].
    intros Hv _. exists (F2R (Zpos p) e). split; [left; apply F2R_pos|].
    split; [destruct s; reflexivity|].
    pose proof (valid_ulp s p e Hv). lra.
Qed.

(** ** Binary64 rounding: Multiplication *)

Lemma F2R_mul (m1 e1 m2 e2 : Z) :
  F2R (m1 * m2) (e1 + e2) = (F2R m1 e1 * F2R m2 e2)%R.
Proof. unfold F2R. rewrite mult_IZR, bpow_add. ring. Qed.

Lemma F2R_0 (e : Z) : F2R 0 e = 0%R.
Proof. unfold F2R. apply Rmult_0_l. Qed.

Lemma error_zero : (Rabs (0 - 0) <= eps * Rabs 0 + eta)%R.
Proof.
  replace (0 - 0)%R with 0%R by ring. rewrite Rabs_R0.
  pose proof eta_pos. lra.
Qed.

Lemma signed_error (s : bool) (a x : R) :
  (0 <= a)%R -> (Rabs (a - x) <= eps * a + eta)%R ->
  (Rabs ((if s then - a else a) - (if s then - x else x))
   <= eps * Rabs (if s then - a else a) + eta)%R.
Proof.
  intros Ha H. destruct s.
  - replace (- a - - x)%R with (- (a - x))%R by ring.
    rewrite !Rabs_Ropp, (Rabs_pos_eq a Ha). exact H.
  - rewrite (Rabs_pos_eq a Ha). exact H.
Qed.

Lemma SFmul_error (fx fy : spec_float) :
  valid_binary (SFmul prec emax fx fy) = true ->
  SFfinite (SFmul prec emax fx fy) = true ->
  (Rabs (SF2R (SFmul prec emax fx fy) - SF2R fx * SF2R fy)
   <= eps * Rabs (SF2R (SFmul prec emax fx fy)) + eta)%R.
Proof.
  destruct fx as [sx|sx| |sx mx ex], fy as [sy|sy| |sy my ey];
    cbn [SFmul SFfinite]; try discriminate; intros Hv Hf;
    try (cbn [SF2R]; rewrite ?Rmult_0_l, ?Rmult_0_r; apply error_zero).
  destruct (round_error (xorb sx sy) (Zpos (mx * my)) (ex + ey) loc_Exact
              (F2R (Zpos (mx * my)) (ex + ey))) as (a & Ha & Ea & Hb);
    try assumption; try lia.
  { split; [apply Rle_refl|]. apply F2R_le. lia. }
  rewrite Ea. rewrite Pos2Z.inj_mul, F2R_mul in Hb.
  replace (SF2R (S754_finite sx mx ex) * SF2R (S754_finite sy my ey))%R
    with (if xorb sx sy then - (F2R (Zpos mx) ex * F2R (Zpos my) ey)
          else F2R (Zpos mx) ex * F2R (Zpos my) ey)%R
    by (cbn [SF2R]; destruct sx, sy; simpl; ring).
  apply signed_error; assumption.
Qed.

Lemma SFmul_finite (fx fy : spec_float) :
  SFfinite (SFmul prec emax fx fy) = true ->
  SFfinite fx = true /\ SFfinite fy = true.
Proof.
  destruct fx as [sx|sx| |sx mx ex], fy as [sy|sy| |sy my ey];
    cbn [SFmul SFfinite]; auto; discriminate.
Qed.

Lemma SFmul_square_nonneg (f : spec_float) :
  valid_binary (SFmul prec emax f f) = true ->
  SFfinite (SFmul prec emax f f) = true ->
  (0 <= SF2R (SFmul prec emax f f))%R.
Proof.
  destruct f as [s|s| |s m e]; cbn [SFmul SFfinite]; try discriminate;
    intros Hv Hf; try (cbn [SF2R]; lra).
  destruct (round_error (xorb s s) (Zpos (m * m)) (e + e) loc_Exact
              (F2R (Zpos (m * m)) (e + e))) as (a & Ha & Ea & Hb);
    try assumption; try lia.
  { split; [apply Rle_refl|]. apply F2R_le. lia. }
  rewrite Ea. destruct s; simpl; exact Ha.
Qed.

(** ** Binary64 rounding: Addition *)

Lemma shl_align_spec (mx : positive) (ex ex' : Z) :
  F2R (Zpos (fst (shl_align mx ex ex'))) (snd (shl_align mx ex ex'))
  = F2R (Zpos mx) ex /\
  snd (shl_align mx ex ex') = Z.min ex ex'.
Proof.
  unfold shl_align. destruct (ex' - ex)%Z as [|d|d] eqn:E; cbn [fst snd].
  - split; [reflexivity|lia].
  - split; [reflexivity|lia].
  - split; [|lia].
    change (Pos.iter xO mx d) with (shift_pos d mx).
    rewrite shift_pos_correct. rewrite Z.pow_pos_fold.
    replace ex with (ex' + Zpos d)%Z by lia.
    rewrite F2R_shift by lia. f_equal. lia.
Qed.

Lemma binary_round_error (s : bool) (m : positive) (e : Z) :
  valid_binary (binary_round prec emax s m e) = true ->
  SFfinite (binary_round prec emax s m e) = true ->
  exists a, (0 <= a)%R /\
    SF2R (binary_round prec emax s m e) = (if s then - a else a)%R /\
    (Rabs (a - F2R (Zpos m) e) <= eps * a + eta)%R.
Proof.
  unfold binary_round.
  pose proof (shl_align_spec m e (fexp prec emax (Zpos (digits2_pos m) + e)))
    as [Hv _].
  destruct (shl_align m e (fexp prec emax (Zpos (digits2_pos m) + e)))
    as [mz ez]. cbn [fst snd] in Hv. intros Hval Hfin.
  rewrite <- Hv.
  apply round_error; try assumption; try lia.
  split; [apply Rle_refl|]. apply F2R_le. lia.
Qed.

Lemma binary_normalize_error (m e : Z) :
  valid_binary (binary_normalize prec emax m e false) = true ->
  SFfinite (binary_normalize prec emax m e false) = true ->
  (Rabs (SF2R (binary_normalize prec emax m e false) - F2R m e)
   <= eps * Rabs (SF2R (binary_normalize prec emax m e false)) + eta)%R.
Proof.
  destruct m as [|p|p]; cbn [binary_normalize]; intros Hv Hf.
  - cbn [SF2R]. rewrite F2R_0. apply error_zero.
  - destruct (binary_round_error false p e Hv Hf) as (a & Ha & -> & Hb).
    apply (signed_error false); assumption.
  - destruct (binary_round_error true p e Hv Hf) as (a & Ha & -> & Hb).
    replace (F2R (Zneg p) e) with (- F2R (Zpos p) e)%R.
    + apply (signed_error true); assumption.
    + unfold F2R. change (Zneg p) with (- Zpos p)%Z. rewrite opp_IZR. ring.
Qed.

Lemma error_exact (x : R) : (Rabs (x - x) <= eps * Rabs x + eta)%R.
Proof.
  replace (x - x)%R with 0%R by ring. rewrite Rabs_R0.
  pose proof eta_pos. pose proof eps_pos. pose proof (Rabs_pos x). nra.
Qed.

Lemma F2R_cond_Zopp (s : bool) (m : positive) (e : Z) :
  F2R (cond_Zopp s (Zpos m)) e = SF2R (S754_finite s m e).
Proof.
  destruct s; cbn [cond_Zopp SF2R]; [|reflexivity].
  unfold F2R. change (- Zpos m)%Z with (Zneg m).
  change (Zneg m) with (- Zpos m)%Z. rewrite opp_IZR. ring.
Qed.

Lemma F2R_add (m1 m2 e : Z) : F2R (m1 + m2) e = (F2R m1 e + F2R m2 e)%R.
Proof. unfold F2R. rewrite plus_IZR. ring. Qed.

Lemma SFadd_error_finite (sx : bool) (mx : positive) (ex : Z)
    (sy : bool) (my : positive) (ey : Z) :
  let fx := S754_finite sx mx ex in
  let fy := S754_finite sy my ey in
  valid_binary (SFadd prec emax fx fy) = true ->
  SFfinite (SFadd prec emax fx fy) = true ->
  (Rabs (SF2R (SFadd prec emax fx fy) - (SF2R fx + SF2R fy))
   <= eps * Rabs (SF2R (SFadd prec emax fx fy)) + eta)%R.
Proof.
  intros fx fy. unfold fx, fy. cbn [SFadd]. intros Hv Hf.
  pose proof (binary_normalize_error _ _ Hv Hf) as H.
  rewrite F2R_add, !F2R_cond_Zopp in H.
  pose proof (shl_align_spec mx ex (Z.min ex ey)) as [Hx Hxe].
  pose proof (shl_align_spec my ey (Z.min ex ey)) as [Hy Hye].
  replace (Z.min ex (Z.min ex ey)) with (Z.min ex ey) in Hxe by lia.
  replace (Z.min ey (Z.min ex ey)) with (Z.min ex ey) in Hye by lia.
  rewrite Hxe in Hx. rewrite Hye in Hy.
  assert (Ex : SF2R (S754_finite sx (fst (shl_align mx ex (Z.min ex ey))) (Z.min ex ey))
               = SF2R (S754_finite sx mx ex))
    by (cbn [SF2R]; rewrite Hx; reflexivity).
  assert (Ey : SF2R (S754_finite sy (fst (shl_align my ey (Z.min ex ey))) (Z.min ex ey))
               = SF2R (S754_finite sy my ey))
    by (cbn [SF2R]; rewrite Hy; reflexivity).
  rewrite Ex, Ey in H. exact H.
Qed.

Lemma SFadd_error (fx fy : spec_float) :
  valid_binary (SFadd prec emax fx fy) = true ->
  SFfinite (SFadd prec emax fx fy) = true ->
  (Rabs (SF2R (SFadd prec emax fx fy) - (SF2R fx + SF2R fy))
   <= eps * Rabs (SF2R (SFadd prec emax fx fy)) + eta)%R.
Proof.
  destruct fx as [sx|sx| |sx mx ex], fy as [sy|sy| |sy my ey];
    try apply SFadd_error_finite;
    cbn [SFadd SFfinite]; try discriminate;
    try (destruct sx; cbn [SFfinite]; discriminate);
    try (destruct sx, sy; cbn [SFfinite]; discriminate).
  - destruct sx, sy; intros _ _; cbn [SF2R]; rewrite Rplus_0_l; apply error_zero.
  - intros _ _. change (SF2R (S754_zero sx)) with 0%R. rewrite Rplus_0_l.
    apply error_exact.
  - intros _ _. change (SF2R (S754_zero sy)) with 0%R. rewrite Rplus_0_r.
    apply error_exact.
Qed.

Lemma SFadd_finite (fx fy : spec_float) :
  SFfinite (SFadd prec emax fx fy) = true ->
  SFfinite fx = true /\ SFfinite fy = true.
Proof.
  destruct fx as [sx|sx| |sx mx ex], fy as [sy|sy| |sy my ey];
    cbn [SFadd SFfinite]; auto; try discriminate;
    try (destruct sx); try (destruct sy); cbn [SFfinite]; auto; discriminate.
Qed.

(** ** Binary64 rounding: Square root *)

Lemma bpow_double (e : Z) : bpow (2 * e) = (bpow e * bpow e)%R.
Proof. replace (2 * e)%Z with (e + e)%Z by lia. apply bpow_add. Qed.

Lemma SFsqrt_core_spec (m : positive) (e : Z) :
  let '(q, e', l) := SFsqrt_core_binary prec emax (Zpos m) e in
  (0 < q)%Z /\
  (F2R q e' <= sqrt (F2R (Zpos m) e) <= F2R (q + 1) e')%R.
Proof.
  unfold SFsqrt_core_binary.
  set (e' := Z.min (fexp prec emax (Z.div2 (Zdigits2 (Zpos m) + e + 1)))
                   (Z.div2 e)).
  assert (He' : (2 * e' <= e)%Z).
  { pose proof (Z.div2_div e). pose proof (Z.mul_div_le e 2 ltac:(lia)). lia. }
  set (s := (e - 2 * e')%Z).
  set (m' := match s with
             | Zpos _ => Z.shiftl (Zpos m) s
             | Z0 => Zpos m
             | Zneg _ => 0%Z
             end).
  assert (Hm' : m' = (Zpos m * 2 ^ s)%Z).
  { unfold m'. destruct s as [|p|p] eqn:Es; [simpl; lia| |lia].
    apply Z.shiftl_mul_pow2. lia. }
  assert (Hp : (0 < 2 ^ s)%Z) by (apply Z.pow_pos_nonneg; lia).
  assert (Hm'pos : (0 < m')%Z) by (rewrite Hm'; nia).
  pose proof (Z.sqrtrem_spec m' ltac:(lia)) as Hs.
  destruct (Z.sqrtrem m') as [q r]. destruct Hs as [Hq Hr].
  split; [nia|].
  assert (Hval : F2R (Zpos m) e = (IZR m' * (bpow e' * bpow e'))%R).
  { rewrite <- bpow_double. replace e with (2 * e' + s)%Z at 1 by (unfold s; lia).
    rewrite F2R_shift by (unfold s; lia). rewrite Hm'. reflexivity. }
  rewrite Hval. pose proof (bpow_pos e') as Hb.
  rewrite sqrt_mult; [|apply IZR_le; lia|nra].
  rewrite sqrt_square by lra.
  unfold F2R.
  assert (Hlo : (IZR q <= sqrt (IZR m'))%R).
  { rewrite <- (sqrt_square (IZR q)) by (apply IZR_le; nia).
    apply sqrt_le_1_alt. rewrite <- mult_IZR. apply IZR_le. nia. }
  assert (Hhi : (sqrt (IZR m') <= IZR (q + 1))%R).
  { rewrite <- (sqrt_square (IZR (q + 1))) by (apply IZR_le; nia).
    apply sqrt_le_1_alt. rewrite <- mult_IZR. apply IZR_le. nia. }
  split; apply Rmult_le_compat_r; lra.
Qed.

Lemma error_pos (a x : R) :
  (0 <= a)%R -> (Rabs (a - x) <= eps * a + eta)%R ->
  (Rabs (a - x) <= eps * Rabs a + eta)%R.
Proof. intros Ha H. now rewrite (Rabs_pos_eq a Ha). Qed.

Lemma SFsqrt_error (f : spec_float) :
  valid_binary (SFsqrt prec emax f) = true ->
  SFfinite (SFsqrt prec emax f) = true ->
  (0 <= SF2R f)%R /\ (0 <= SF2R (SFsqrt prec emax f))%R /\
  (Rabs (SF2R (SFsqrt prec emax f) - sqrt (SF2R f))
   <= eps * Rabs (SF2R (SFsqrt prec emax f)) + eta)%R.
Proof.
  destruct f as [s|s| |s m e]; cbn [SFsqrt SFfinite]; try discriminate.
  - intros _ _. cbn [SF2R]. rewrite sqrt_0. split; [lra|]. split; [lra|].
    apply error_zero.
  - destruct s; cbn [SFfinite]; discriminate.
  - destruct s; cbn [SFfinite]; [discriminate|].
    pose proof (SFsqrt_core_spec m e) as Hc.
    destruct (SFsqrt_core_binary prec emax (Zpos m) e) as [[q e'] l].
    destruct Hc as [Hq Hx]. intros Hv Hf.
    destruct (round_error false q e' l (sqrt (F2R (Zpos m) e)))
      as (a & Ha & Ea & Hb); try assumption; try lia.
    rewrite Ea. cbn [SF2R]. split; [left; apply F2R_pos|]. split; [exact Ha|].
    apply error_pos; assumption.
Qed.

Lemma SFsqrt_finite (f : spec_float) :
  SFfinite (SFsqrt prec emax f) = true -> SFfinite f = true.
Proof.
  destruct f as [s|s| |s m e]; cbn [SFsqrt SFfinite]; auto.
  destruct s; cbn [SFfinite]; auto.
Qed.

(** ** Binary64 rounding: Division *)

Lemma SFdiv_core_spec (m1 : positive) (e1 : Z) (m2 : positive) (e2 : Z) :
  let '(q, e', l) := SFdiv_core_binary prec emax (Zpos m1) e1 (Zpos m2) e2 in
  (0 <= q)%Z /\ (q = 0%Z -> (e' <= emin64)%Z) /\
  (F2R q e' <= F2R (Zpos m1) e1 / F2R (Zpos m2) e2 <= F2R (q + 1) e')%R.
Proof.
  unfold SFdiv_core_binary. cbn [Zdigits2].
  set (d1 := Zpos (digits2_pos m1)). set (d2 := Zpos (digits2_pos m2)).
  set (e' := Z.min (fexp prec emax (d1 + e1 - (d2 + e2))) (e1 - e2)).
  set (s := (e1 - e2 - e')%Z).
  assert (Hs : (0 <= s)%Z) by (unfold s, e'; lia).
  set (m' := match s with
             | Zpos _ => Z.shiftl (Zpos m1) s
             | Z0 => Zpos m1
             | Zneg _ => 0%Z
             end).
  assert (Hm' : m' = (Zpos m1 * 2 ^ s)%Z).
  { unfold m'. destruct s as [|p|p] eqn:Es; [simpl; lia| |lia].
    apply Z.shiftl_mul_pow2. lia. }
  assert (Hp : (0 < 2 ^ s)%Z) by (apply Z.pow_pos_nonneg; lia).
  assert (Hm'pos : (0 < m')%Z) by (rewrite Hm'; nia).
  pose proof (Z_div_mod m' (Zpos m2) ltac:(lia)) as Hd.
  destruct (Z.div_eucl m' (Zpos m2)) as [q r]. destruct Hd as [Hq Hr].
  assert (Hq0 : (0 <= q)%Z) by nia.
  split; [exact Hq0|]. split.
  - intros E0. subst q.
    destruct (Z_le_gt_dec e' emin64) as [|Hgt]; [assumption|exfalso].
    assert (Hf : fexp prec emax (d1 + e1 - (d2 + e2)) = (d1 + e1 - (d2 + e2) - 53)%Z).
    { rewrite fexp64. unfold e' in Hgt. rewrite fexp64 in Hgt. lia. }
    assert (Hs' : (d2 - d1 + 53 <= s)%Z) by (unfold s, e'; rewrite Hf; lia).
    pose proof (digits2_pos_bounds m1) as [Hl1 _].
    pose proof (digits2_pos_bounds m2) as [_ Hu2].
    fold d1 in Hl1. fold d2 in Hu2.
    assert (Hd1 : (0 < d1)%Z) by (unfold d1; lia).
    assert (Hd2 : (0 < d2)%Z) by (unfold d2; lia).
    assert (Hge : (2 ^ d2 <= Zpos m1 * 2 ^ s)%Z).
    { destruct (Z_le_gt_dec 0 (d2 - d1 + 53)) as [Hc|Hc].
      - assert (H1 : (2 ^ (d2 - d1 + 53) <= 2 ^ s)%Z)
          by (apply Z.pow_le_mono_r; lia).
        assert (H2 : (2 ^ (d1 - 1) * 2 ^ (d2 - d1 + 53) = 2 ^ (d2 + 52))%Z).
        { rewrite <- Z.pow_add_r by lia. f_equal. lia. }
        assert (H3 : (2 ^ d2 <= 2 ^ (d2 + 52))%Z)
          by (apply Z.pow_le_mono_r; lia).
        assert (H4 : (2 ^ (d1 - 1) * 2 ^ (d2 - d1 + 53) <= Zpos m1 * 2 ^ s)%Z).
        { apply Z.mul_le_mono_nonneg; try lia; apply Z.pow_nonneg; lia. }
        lia.
      - assert (H3 : (2 ^ d2 <= 2 ^ (d1 - 1))%Z)
          by (apply Z.pow_le_mono_r; lia).
        nia. }
    lia.
  - assert (Hval : (F2R (Zpos m1) e1 / F2R (Zpos m2) e2
                    = IZR m' / IZR (Zpos m2) * bpow e')%R).
    { replace e1 with (e2 + e' + s)%Z at 1 by (unfold s; lia).
      rewrite F2R_shift by lia. rewrite <- Hm'. unfold F2R.
      rewrite bpow_add. pose proof (bpow_pos e2). pose proof (bpow_pos e').
      assert (0 < IZR (Zpos m2))%R by (apply IZR_lt; lia).
      field. split; lra. }
    rewrite Hval. unfold F2R. pose proof (bpow_pos e') as Hb.
    assert (Hm2 : (0 < IZR (Zpos m2))%R) by (apply IZR_lt; lia).
    assert (Et : (IZR m' / IZR (Zpos m2) * IZR (Zpos m2) = IZR m')%R)
      by (field; lra).
    assert (H1 : (IZR (q * Zpos m2) <= IZR m')%R) by (apply IZR_le; nia).
    assert (H2 : (IZR m' <= IZR ((q + 1) * Zpos m2))%R) by (apply IZR_le; nia).
    rewrite mult_IZR in H1, H2.
    assert (Hlo : (IZR q <= IZR m' / IZR (Zpos m2))%R) by nra.
    assert (Hhi : (IZR m' / IZR (Zpos m2) <= IZR (q + 1))%R) by nra.
    split; apply Rmult_le_compat_r; lra.
Qed.

Lemma SFdiv_error (fx fy : spec_float) :
  SF2R fy <> 0%R ->
  valid_binary (SFdiv prec emax fx fy) = true ->
  SFfinite (SFdiv prec emax fx fy) = true ->
  (Rabs (SF2R (SFdiv prec emax fx fy) - SF2R fx / SF2R fy)
   <= eps * Rabs (SF2R (SFdiv prec emax fx fy)) + eta)%R.
Proof.
  destruct fx as [sx|sx| |sx mx ex], fy as [sy|sy| |sy my ey];
    cbn [SFdiv SFfinite]; try discriminate; intros Hy;
    try (now elim Hy); intros Hv Hf.
  - cbn [SF2R]. unfold Rdiv. rewrite Rmult_0_l. apply error_zero.
  - pose proof (SFdiv_core_spec mx ex my ey) as Hc.
    destruct (SFdiv_core_binary prec emax (Zpos mx) ex (Zpos my) ey)
      as [[q e'] l]. destruct Hc as (Hq & Hq0 & Hx).
    destruct (round_error (xorb sx sy) q e' l
                (F2R (Zpos mx) ex / F2R (Zpos my) ey))
      as (a & Ha & Ea & Hb); try assumption.
    rewrite Ea.
    replace (SF2R (S754_finite sx mx ex) / SF2R (S754_finite sy my ey))%R
      with (if xorb sx sy then - (F2R (Zpos mx) ex / F2R (Zpos my) ey)
            else F2R (Zpos mx) ex / F2R (Zpos my) ey)%R.
    + apply signed_error; assumption.
    + pose proof (F2R_pos my ey). cbn [SF2R].
      destruct sx, sy; simpl; field; lra.
Qed.

Lemma SF2R_nonneg_sign (s : bool) (m : positive) (e : Z) :
  (0 <= SF2R (S754_finite s m e))%R -> s = false.
Proof.
  destruct s; [|reflexivity]. cbn [SF2R]. pose proof (F2R_pos m e). lra.
Qed.

Lemma SFadd_nonneg (fx fy : spec_float) :
  (0 <= SF2R fx)%R -> (0 <= SF2R fy)%R ->
  valid_binary (SFadd prec emax fx fy) = true ->
  SFfinite (SFadd prec emax fx fy) = true ->
  (0 <= SF2R (SFadd prec emax fx fy))%R.
Proof.
  destruct fx as [sx|sx| |sx mx ex], fy as [sy|sy| |sy my ey];
    cbn [SFadd SFfinite]; try discriminate; intros Hx Hy;
    try (destruct sx; cbn [SFfinite]; discriminate);
    try (destruct sx, sy; cbn [SFfinite]; discriminate).
  - destruct sx, sy; intros _ _; cbn [SF2R]; lra.
  - intros _ _. exact Hy.
  - intros _ _. exact Hx.
  - apply SF2R_nonneg_sign in Hx, Hy. subst sx sy. cbn [cond_Zopp].
    set (mz := (Zpos (fst (shl_align mx ex (Z.min ex ey)))
                + Zpos (fst (shl_align my ey (Z.min ex ey))))%Z).
    assert (Hmz : (0 < mz)%Z) by (unfold mz; lia).
    destruct mz as [|p|p]; try lia. cbn [binary_normalize]. intros Hv Hf.
    destruct (binary_round_error false p _ Hv Hf) as (a & Ha & -> & _).
    exact Ha.
Qed.

(** ** Binary64 rounding: The operations on floats *)

Lemma mul_near (x y : float) :
  F64.finite (x * y) = true -> near (B2R (x * y)) (B2R x * B2R y).
Proof.
  rewrite ?F64_finite_SF; unfold near, B2R. pose proof (Prim2SF_valid (x * y)) as Hv.
  rewrite mul_spec in *. apply SFmul_error, Hv.
Qed.

Lemma mul_finite (x y : float) :
  F64.finite (x * y) = true -> F64.finite x = true /\ F64.finite y = true.
Proof. rewrite ?F64_finite_SF. rewrite mul_spec. apply SFmul_finite. Qed.

Lemma square_nonneg (x : float) :
  F64.finite (x * x) = true -> (0 <= B2R (x * x))%R.
Proof.
  rewrite ?F64_finite_SF; unfold B2R. pose proof (Prim2SF_valid (x * x)) as Hv.
  rewrite mul_spec in *. apply SFmul_square_nonneg, Hv.
Qed.

Lemma add_near (x y : float) :
  F64.finite (x + y) = true -> near (B2R (x + y)) (B2R x + B2R y).
Proof.
  rewrite ?F64_finite_SF; unfold near, B2R. pose proof (Prim2SF_valid (x + y)) as Hv.
  rewrite add_spec in *. apply SFadd_error, Hv.
Qed.

Lemma add_finite (x y : float) :
  F64.finite (x + y) = true -> F64.finite x = true /\ F64.finite y = true.
Proof. rewrite ?F64_finite_SF. rewrite add_spec. apply SFadd_finite. Qed.

Lemma add_nonneg (x y : float) :
  (0 <= B2R x)%R -> (0 <= B2R y)%R -> F64.finite (x + y) = true ->
  (0 <= B2R (x + y))%R.
Proof.
  rewrite ?F64_finite_SF; unfold B2R. pose proof (Prim2SF_valid (x + y)) as Hv.
  rewrite add_spec in *. intros Hx Hy. apply SFadd_nonneg; assumption.
Qed.

Lemma sqrt_near (x : float) :
  F64.finite (PrimFloat.sqrt x) = true ->
  (0 <= B2R x)%R /\ (0 <= B2R (PrimFloat.sqrt x))%R /\
  near (B2R (PrimFloat.sqrt x)) (R_sqrt.sqrt (B2R x)).
Proof.
  rewrite ?F64_finite_SF; unfold near, B2R. pose proof (Prim2SF_valid (PrimFloat.sqrt x)) as Hv.
  rewrite sqrt_spec in *. apply SFsqrt_error, Hv.
Qed.

Lemma sqrt_finite (x : float) :
  F64.finite (PrimFloat.sqrt x) = true -> F64.finite x = true.
Proof. rewrite ?F64_finite_SF. rewrite sqrt_spec. apply SFsqrt_finite. Qed.

Lemma div_near (x y : float) :
  B2R y <> 0%R -> F64.finite (x / y) = true ->
  near (B2R (x / y)) (B2R x / B2R y).
Proof.
  rewrite ?F64_finite_SF; unfold near, B2R. pose proof (Prim2SF_valid (x / y)) as Hv.
  rewrite div_spec in *. intros Hy. apply SFdiv_error; assumption.
Qed.

(** A float that is at least [2^-1022] is worth at least that. *)

Lemma normal_ge (x : float) :
  F64.finite x = true -> (0x1p-1022 <=? x)%float = true -> (nu <= B2R x)%R.
Proof.
  rewrite ?F64_finite_SF; unfold B2R. rewrite leb_spec. pose proof (Prim2SF_valid x) as Hv.
  change (Prim2SF 0x1p-1022) with (S754_finite false 4503599627370496 (-1074)).
  destruct (Prim2SF x) as [s|s| |s m e]; cbn [SFfinite]; try discriminate;
    intros _; unfold SFleb, SFcompare.
  destruct s; [discriminate|]. cbn [SF2R].
  cbn [SpecFloat.valid_binary] in Hv. unfold bounded, canonical_mantissa in Hv.
  apply andb_true_iff in Hv. destruct Hv as [Hc _]. apply Z.eqb_eq in Hc.
  rewrite fexp64 in Hc. unfold emin64 in Hc.
  assert (Hnu : nu = F2R 4503599627370496 (-1074)).
  { unfold nu. change 4503599627370496%Z with (1 * 2 ^ 52)%Z.
    rewrite <- F2R_shift by lia. unfold F2R. simpl (-1074 + 52)%Z. ring. }
  destruct (Z.compare_spec (-1074) e) as [E|E|E]; try discriminate.
  + subst e. intros H. rewrite Hnu. apply F2R_le.
    change (Pos.compare_cont Eq 4503599627370496 m)
      with (Pos.compare 4503599627370496 m) in H.
    destruct (Pos.compare_spec 4503599627370496 m); try discriminate; lia.
  + intros _. assert (Hd : Zpos (digits2_pos m) = 53%Z) by lia.
    pose proof (digits2_pos_bounds m) as [Hl _]. rewrite Hd in Hl.
    rewrite Hnu. apply Rle_trans with (F2R 4503599627370496 e).
    * unfold F2R. apply Rmult_le_compat_l; [apply IZR_le; lia|].
      apply bpow_le. lia.
    * apply F2R_le. exact Hl.
Qed.

(** ** Binary64 rounding: Sums of floats *)

Lemma eps_val : eps = (/ 4503599627370496)%R.
Proof.
  unfold eps, bpow. change (-52)%Z with (- Z.of_nat 52)%Z.
  rewrite powerRZ_neg' by lra. rewrite <- pow_powerRZ.
  f_equal. rewrite pow_IZR. reflexivity.
Qed.

Lemma eps_small : (0 < eps < / 1000000)%R.
Proof. rewrite eps_val. lra. Qed.

Lemma beta_bounds : (0 < beta <= 1)%R.
Proof. unfold beta. pose proof eps_small. lra. Qed.

Lemma alpha_ge_1 : (1 <= alpha)%R.
Proof. unfold alpha. pose proof eps_small. lra. Qed.

Lemma near_lower (z x : R) : near z x -> (beta * Rabs z <= Rabs x + eta)%R.
Proof.
  unfold near, beta. intros H.
  pose proof (Rabs_triang_inv z x) as Ht. lra.
Qed.

Lemma near_upper (z x : R) : near z x -> (Rabs x <= alpha * Rabs z + eta)%R.
Proof.
  unfold near, alpha. intros H.
  pose proof (Rabs_triang_inv x z) as Ht. rewrite (Rabs_minus_sym x z) in Ht.
  lra.
Qed.

Lemma sumR_nonneg (l : list R) : Forall (fun x => 0 <= x)%R l -> (0 <= sumR l)%R.
Proof.
  induction 1 as [|x l Hx _ IH]; simpl; lra.
Qed.

Lemma sum_abs_upper (l : list float) (a : float) :
  F64.finite (fold_left PrimFloat.add l a) = true ->
  F64.finite a = true /\ Forall (fun x => F64.finite x = true) l /\
  (Rabs (B2R (fold_left PrimFloat.add l a)) * beta ^ List.length l
   <= Rabs (B2R a) + sumR (map (fun x => Rabs (B2R x) + eta) l))%R.
Proof.
  revert a. induction l as [|x l IH]; intros a Hf.
  - simpl in *. split; [exact Hf|]. split; [constructor|]. lra.
  - cbn [fold_left] in Hf. destruct (IH _ Hf) as (Hax & Hl & Hb).
    destruct (add_finite _ _ Hax) as [Ha Hx].
    split; [exact Ha|]. split; [constructor; assumption|].
    cbn [fold_left List.length map sumR fold_right]. fold (sumR (map (fun x => Rabs (B2R x) + eta)%R l)).
    pose proof (near_lower _ _ (add_near _ _ Hax)) as Hn.
    pose proof (Rabs_triang (B2R a) (B2R x)) as Ht.
    pose proof beta_bounds as [Hb0 Hb1].
    assert (Hs : (0 <= sumR (map (fun x => Rabs (B2R x) + eta) l))%R).
    { apply sumR_nonneg. rewrite Forall_forall. intros y Hy.
      apply in_map_iff in Hy. destruct Hy as (z & <- & _).
      pose proof (Rabs_pos (B2R z)). pose proof eta_pos. lra. }
    set (SS := sumR (map (fun x => Rabs (B2R x) + eta)%R l)) in *.
    set (F := Rabs (B2R (fold_left PrimFloat.add l (a + x)%float))) in *.
    set (A' := Rabs (B2R (a + x)%float)) in *.
    assert (HF : (0 <= F)%R) by apply Rabs_pos.
    assert (Hbk : (0 <= beta ^ List.length l)%R) by (apply pow_le; lra).
    simpl pow.
    assert (H1 : (F * (beta * beta ^ List.length l) = beta * (F * beta ^ List.length l))%R) by ring.
    rewrite H1.
    assert (H2 : (beta * (F * beta ^ List.length l) <= beta * (A' + SS))%R)
      by (apply Rmult_le_compat_l; lra).
    nra.
Qed.

Lemma near_upper_nonneg (z x : R) :
  (0 <= z)%R -> near z x -> (x <= alpha * z + eta)%R.
Proof.
  intros Hz H. pose proof (near_upper _ _ H) as Hu.
  rewrite (Rabs_pos_eq z Hz) in Hu. pose proof (Rle_abs x). lra.
Qed.

Lemma sum_nonneg_lower (l : list float) (a : float) :
  F64.finite (fold_left PrimFloat.add l a) = true ->
  (0 <= B2R a)%R -> Forall (fun x => 0 <= B2R x)%R l ->
  (0 <= B2R (fold_left PrimFloat.add l a))%R /\
  (B2R a + sumR (map B2R l)
   <= alpha ^ List.length l
      * (B2R (fold_left PrimFloat.add l a) + INR (List.length l) * eta))%R.
Proof.
  revert a. induction l as [|x l IH]; intros a Hf Ha Hl.
  - simpl in *. split; [exact Ha|]. lra.
  - inversion Hl as [|? ? Hx Hl']; subst. cbn [fold_left] in Hf |- *.
    destruct (sum_abs_upper _ _ Hf) as (Hax & _ & _).
    pose proof (add_nonneg _ _ Ha Hx Hax) as Hz.
    destruct (IH _ Hf Hz Hl') as [HF Hb]. split; [exact HF|].
    pose proof (near_upper_nonneg _ _ Hz (add_near _ _ Hax)) as Hn.
    cbn [List.length map sumR fold_right]. fold (sumR (map B2R l)).
    rewrite S_INR. simpl pow.
    pose proof alpha_ge_1 as Ha1. pose proof eta_pos as Het.
    assert (Hs : (0 <= sumR (map B2R l))%R).
    { apply sumR_nonneg. rewrite Forall_forall. intros y Hy.
      apply in_map_iff in Hy. destruct Hy as (z & <- & Hz').
      rewrite Forall_forall in Hl'. apply Hl', Hz'. }
    assert (Hak : (1 <= alpha ^ List.length l)%R) by (apply pow_R1_Rle; lra).
    assert (Hn0 : (0 <= INR (List.length l))%R) by apply pos_INR.
    set (SS := sumR (map B2R l)) in *.
    set (F := B2R (fold_left PrimFloat.add l (a + x)%float)) in *.
    set (Z := B2R (a + x)%float) in *.
    set (K := (alpha ^ List.length l)%R) in *.
    set (N := INR (List.length l)) in *.
    assert (H0 : (SS <= alpha * SS)%R).
    { rewrite <- (Rmult_1_l SS) at 1. apply Rmult_le_compat_r; lra. }
    assert (H1 : (B2R a + (B2R x + SS) <= alpha * (Z + SS) + eta)%R).
    { rewrite Rmult_plus_distr_l. lra. }
    assert (H2 : (alpha * (Z + SS) <= alpha * (K * (F + N * eta)))%R)
      by (apply Rmult_le_compat_l; lra).
    assert (H3 : (1 <= alpha * K)%R).
    { rewrite <- (Rmult_1_l 1). apply Rmult_le_compat; lra. }
    assert (H4 : (eta <= alpha * K * eta)%R).
    { rewrite <- (Rmult_1_l eta) at 1. apply Rmult_le_compat_r; lra. }
    replace (alpha * K * (F + (N + 1) * eta))%R
      with (alpha * (K * (F + N * eta)) + alpha * K * eta)%R by ring.
    lra.
Qed.

Lemma sumR_le {A : Type} (f g : A -> R) (l : list A) :
  (forall x, In x l -> f x <= g x)%R ->
  (sumR (map f l) <= sumR (map g l))%R.
Proof.
  induction l as [|x l IH]; intros H; simpl; [lra|].
  pose proof (H x (or_introl eq_refl)).
  assert (sumR (map f l) <= sumR (map g l))%R
    by (apply IH; intros y Hy; apply H; now right).
  lra.
Qed.

Lemma sumR_plus_const {A : Type} (f : A -> R) (c : R) (l : list A) :
  sumR (map (fun x => f x + c)%R l)
  = (sumR (map f l) + INR (List.length l) * c)%R.
Proof.
  induction l as [|x l IH]; cbn [map sumR fold_right List.length].
  - simpl. ring.
  - fold (sumR (map (fun x => f x + c)%R l)). fold (sumR (map f l)).
    rewrite IH, S_INR. ring.
Qed.

Lemma sumR_scal {A : Type} (f : A -> R) (c : R) (l : list A) :
  sumR (map (fun x => c * f x)%R l) = (c * sumR (map f l))%R.
Proof.
  induction l as [|x l IH]; cbn [map sumR fold_right].
  - ring.
  - fold (sumR (map (fun x => c * f x)%R l)). fold (sumR (map f l)).
    rewrite IH. ring.
Qed.

Lemma B2R_zero : B2R 0 = 0%R.
Proof. reflexivity. Qed.

(** The computed dot product against the exact sum of |a b|. *)
Lemma dot_bound (v1 v2 : list float) :
  F64.finite (fsum (products v1 v2)) = true ->
  (Rabs (B2R (fsum (products v1 v2))) * beta ^ (List.length (combine v1 v2) + 1)
   <= sumR (map (fun ab => Rabs (B2R (fst ab) * B2R (snd ab))) (combine v1 v2))
      + 2 * INR (List.length (combine v1 v2)) * eta)%R.
Proof.
  intros Hf. unfold fsum in *.
  destruct (sum_abs_upper _ _ Hf) as (_ & Hl & Hb).
  rewrite B2R_zero, Rabs_R0, Rplus_0_l in Hb.
  unfold products in Hb, Hl. rewrite length_map in Hb. rewrite map_map in Hb.
  set (n := List.length (combine v1 v2)) in *.
  set (D := Rabs (B2R (fold_left PrimFloat.add (products v1 v2) 0%float))) in *.
  pose proof beta_bounds as [Hb0 Hb1]. pose proof eta_pos as Het.
  rewrite pow_add. simpl (beta ^ 1)%R. rewrite Rmult_1_r.
  assert (H1 : (D * (beta ^ n * beta) = beta * (D * beta ^ n))%R) by ring.
  rewrite H1.
  apply Rle_trans with
    (beta * sumR (map (fun ab => Rabs (B2R (fst ab * snd ab)%float) + eta)%R
                      (combine v1 v2)))%R.
  { apply Rmult_le_compat_l; [lra|exact Hb]. }
  rewrite <- sumR_scal.
  replace (2 * INR n * eta)%R with (INR n * (2 * eta))%R by ring.
  unfold n. rewrite <- sumR_plus_const. apply sumR_le.
  intros [a b] Hab. cbn [fst snd].
  assert (Hfin : F64.finite (a * b) = true).
  { rewrite Forall_forall in Hl. apply Hl. apply in_map_iff.
    exists (a, b). auto. }
  pose proof (near_lower _ _ (mul_near _ _ Hfin)) as Hn. nra.
Qed.

(** The exact sum of squares against the computed one. *)
Lemma squares_bound (v : list float) :
  F64.finite (fsum (squares v)) = true ->
  (0 <= B2R (fsum (squares v)))%R /\
  (sumR (map (fun a => B2R a * B2R a) v)
   <= alpha ^ (List.length v + 1)
      * (B2R (fsum (squares v)) + 2 * INR (List.length v) * eta))%R.
Proof.
  intros Hf. unfold fsum in *.
  destruct (sum_abs_upper _ _ Hf) as (_ & Hl & _).
  assert (Hq : Forall (fun x => 0 <= B2R x)%R (squares v)).
  { unfold squares in *. rewrite Forall_forall in Hl |- *. intros q Hq.
    pose proof (Hl q Hq) as Hfin. apply in_map_iff in Hq.
    destruct Hq as (a & <- & _). apply square_nonneg, Hfin. }
  destruct (sum_nonneg_lower _ _ Hf (Rle_refl _) Hq) as [Hs Hb].
  split; [exact Hs|].
  rewrite B2R_zero, Rplus_0_l in Hb.
  assert (El : List.length (squares v) = List.length v)
    by (unfold squares; apply length_map).
  rewrite El in Hb. unfold squares in Hb at 1. rewrite map_map in Hb.
  set (n := List.length v) in *.
  set (s := B2R (fold_left PrimFloat.add (squares v) 0%float)) in *.
  pose proof alpha_ge_1 as Ha1. pose proof eta_pos as Het.
  assert (Hn0 : (0 <= INR n)%R) by apply pos_INR.
  assert (Hak : (1 <= alpha ^ n)%R) by (apply pow_R1_Rle; lra).
  apply Rle_trans with
    (sumR (map (fun a => alpha * B2R (a * a)%float + eta)%R v)).
  { apply sumR_le. intros a Ha.
    assert (Hfin : F64.finite (a * a) = true).
    { rewrite Forall_forall in Hl. apply Hl. unfold squares.
      apply in_map_iff. exists a. auto. }
    apply near_upper_nonneg; [apply square_nonneg, Hfin|].
    apply mul_near, Hfin. }
  rewrite (sumR_plus_const (fun a => alpha * B2R (a * a)%float)%R), sumR_scal.
  fold n. rewrite pow_add. simpl (alpha ^ 1)%R. rewrite Rmult_1_r.
  set (Q := sumR (map (fun x => B2R (x * x)%float) v)) in *.
  set (K := (alpha ^ n)%R) in *.
  assert (H1 : (alpha * Q <= alpha * (K * (s + INR n * eta)))%R)
    by (apply Rmult_le_compat_l; lra).
  assert (H2 : (1 <= K * alpha)%R).
  { rewrite <- (Rmult_1_l 1). apply Rmult_le_compat; lra. }
  assert (H3 : (INR n * eta <= K * alpha * (INR n * eta))%R).
  { rewrite <- (Rmult_1_l (INR n * eta)) at 1.
    apply Rmult_le_compat_r; [|lra]. apply Rmult_le_pos; lra. }
  replace (K * alpha * (s + 2 * INR n * eta))%R
    with (alpha * (K * (s + INR n * eta)) + K * alpha * (INR n * eta))%R by ring.
  lra.
Qed.

(** ** Cauchy-Schwarz *)

Lemma sumR_cons (x : R) (l : list R) : sumR (x :: l) = (x + sumR l)%R.
Proof. reflexivity. Qed.

Lemma cauchy_schwarz (l : list (R * R)) :
  (0 <= sumR (map (fun p => Rabs (fst p * snd p)) l))%R /\
  (0 <= sumR (map (fun p => fst p * fst p) l))%R /\
  (0 <= sumR (map (fun p => snd p * snd p) l))%R /\
  (sumR (map (fun p => Rabs (fst p * snd p)) l)
   * sumR (map (fun p => Rabs (fst p * snd p)) l)
   <= sumR (map (fun p => fst p * fst p) l)
      * sumR (map (fun p => snd p * snd p) l))%R.
Proof.
  induction l as [|[x y] l IH].
  - simpl. lra.
  - rewrite !map_cons, !sumR_cons. cbn [fst snd].
    destruct IH as (Hd & HA & HB & IH).
    set (d := sumR (map (fun p => Rabs (fst p * snd p))%R l)) in *.
    set (A := sumR (map (fun p => fst p * fst p)%R l)) in *.
    set (B := sumR (map (fun p => snd p * snd p)%R l)) in *.
    clearbody d A B.
    rewrite Rabs_mult.
    pose proof (Rabs_pos x) as Hu. pose proof (Rabs_pos y) as Hw.
    assert (Eu : (Rabs x * Rabs x = x * x)%R).
    { rewrite <- Rabs_mult. apply Rabs_pos_eq. apply (Rle_0_sqr x). }
    assert (Ew : (Rabs y * Rabs y = y * y)%R).
    { rewrite <- Rabs_mult. apply Rabs_pos_eq. apply (Rle_0_sqr y). }
    set (u := Rabs x) in *. set (w := Rabs y) in *. clearbody u w.
    rewrite <- Eu, <- Ew.
    assert (Huw : (0 <= u * w)%R) by (apply Rmult_le_pos; assumption).
    assert (Huu : (0 <= u * u)%R) by (apply Rmult_le_pos; assumption).
    assert (Hww : (0 <= w * w)%R) by (apply Rmult_le_pos; assumption).
    split; [lra|]. split; [lra|]. split; [lra|].
    assert (H : (2 * (u * w * d) <= u * u * B + A * (w * w))%R).
    { destruct (Req_dec_T A 0) as [EA|NA].
      - subst A. rewrite Rmult_0_l in IH.
        assert (E : (d * d = 0)%R)
          by (pose proof (Rle_0_sqr d) as Hd2; unfold Rsqr in Hd2; lra).
        assert (d = 0%R) by (destruct (Rmult_integral _ _ E); assumption).
        subst d.
        assert (0 <= u * u * B)%R by (apply Rmult_le_pos; assumption).
        lra.
      - assert (HApos : (0 < A)%R) by lra.
        pose proof (Rle_0_sqr (u * d - A * w)) as Hs. unfold Rsqr in Hs.
        assert (H1 : (0 <= u * u * (A * B - d * d))%R)
          by (apply Rmult_le_pos; lra).
        assert (H2 : (A * (u * u * B + A * (w * w) - 2 * (u * w * d))
                      = u * u * (A * B - d * d)
                        + (u * d - A * w) * (u * d - A * w))%R) by ring.
        destruct (Rle_lt_dec 0 (u * u * B + A * (w * w) - 2 * (u * w * d)))
          as [Hge|Hlt]; [lra|].
        pose proof (Rmult_lt_compat_l A _ 0 HApos Hlt) as Hneg.
        rewrite Rmult_0_r in Hneg. lra. }
    assert (E : ((u * u + A) * (w * w + B) - (u * w + d) * (u * w + d)
                 = (u * u * B + A * (w * w) - 2 * (u * w * d))
                   + (A * B - d * d))%R) by ring.
    lra.
Qed.

Lemma sumR_combine_fst (f : R -> R) (a b : list float) :
  List.length a = List.length b ->
  sumR (map (fun p => f (B2R (fst p))) (combine a b)) = sumR (map (fun x => f (B2R x)) a).
Proof.
  revert b. induction a as [|x a IH]; intros [|y b] H; simpl in *;
    try reflexivity; try discriminate.
  f_equal. apply IH. congruence.
Qed.

Lemma sumR_combine_snd (f : R -> R) (a b : list float) :
  List.length a = List.length b ->
  sumR (map (fun p => f (B2R (snd p))) (combine a b)) = sumR (map (fun x => f (B2R x)) b).
Proof.
  revert b. induction a as [|x a IH]; intros [|y b] H; simpl in *;
    try reflexivity; try discriminate.
  f_equal. apply IH. congruence.
Qed.

Lemma combine_length_eq {A B : Type} (a : list A) (b : list B) :
  List.length a = List.length b -> List.length (combine a b) = List.length a.
Proof. intros H. rewrite length_combine, <- H. apply Nat.min_id. Qed.

(** The exact sum of the [|a b|] is at most the product of the roots of the
    exact sums of squares. *)
Lemma exact_dot_le (v1 v2 : list float) :
  List.length v1 = List.length v2 ->
  let X := sumR (map (fun ab => Rabs (B2R (fst ab) * B2R (snd ab))%R) (combine v1 v2)) in
  let SA := sumR (map (fun a => B2R a * B2R a)%R v1) in
  let SB := sumR (map (fun a => B2R a * B2R a)%R v2) in
  (0 <= X)%R /\ (0 <= SA)%R /\ (0 <= SB)%R /\ (X * X <= SA * SB)%R.
Proof.
  intros Hlen X SA SB.
  pose proof (cauchy_schwarz (map (fun ab => (B2R (fst ab), B2R (snd ab)))
                                  (combine v1 v2))) as H.
  rewrite !map_map in H. cbn [fst snd] in H.
  rewrite (sumR_combine_fst (fun x => x * x)%R v1 v2 Hlen) in H.
  rewrite (sumR_combine_snd (fun x => x * x)%R v1 v2 Hlen) in H.
  exact H.
Qed.

(** ** Cosine similarity in binary64: putting the bounds together *)

Lemma eta_eps_nu : eta = (eps * nu)%R.
Proof. unfold eta, eps, nu. rewrite <- bpow_add. reflexivity. Qed.

Lemma nu_pos : (0 < nu)%R.
Proof. apply bpow_pos. Qed.

Lemma nu_le_1 : (nu <= 1)%R.
Proof. unfold nu. change 1%R with (bpow 0). apply bpow_le. lia. Qed.

Lemma eta_le_eps : (eta <= eps)%R.
Proof.
  rewrite eta_eps_nu. pose proof nu_le_1. pose proof eps_small. nra.
Qed.

Lemma alpha_le_q_beta : (alpha <= qtol * beta)%R.
Proof. unfold alpha, qtol, beta. pose proof eps_small. nra. Qed.

Lemma alpha_le_q_gamma : (alpha <= qtol * (1 - 2 * eps))%R.
Proof. unfold alpha, qtol. pose proof eps_small. nra. Qed.

Lemma qtol_ge_1 : (1 <= qtol)%R.
Proof. unfold qtol. pose proof eps_small. lra. Qed.

Lemma bernoulli (n : nat) : (1 + 4 * INR n * eps <= qtol ^ n)%R.
Proof.
  induction n as [|n IH].
  - simpl. lra.
  - rewrite S_INR. simpl pow. unfold qtol in *. pose proof eps_small.
    pose proof (pos_INR n).
    assert (0 <= 4 * INR n * eps)%R by nra.
    nra.
Qed.

Lemma pow_le_pow (a b : R) (n : nat) :
  (0 <= a <= b)%R -> (a ^ n <= b ^ n)%R.
Proof. intros [H1 H2]. apply pow_incr. lra. Qed.

(** An upper bound of a square root from its square. *)
Lemma le_of_sqr (x y : R) : (0 <= y)%R -> (x * x <= y * y)%R -> (x <= y)%R.
Proof.
  intros Hy H. destruct (Rle_lt_dec x y) as [|Hlt]; [assumption|exfalso].
  assert (y * y < x * x)%R by nra. lra.
Qed.

Lemma omega_sqr : (omega * omega = nu)%R.
Proof. unfold omega, nu. rewrite <- bpow_add. reflexivity. Qed.

Lemma omega_pos : (0 < omega)%R.
Proof. apply bpow_pos. Qed.

Lemma nu_le_omega : (nu <= omega)%R.
Proof. unfold nu, omega. apply bpow_le. lia. Qed.

(** The root of a sum of squares that did not underflow, against its
    computed square root. *)
Lemma root_bounds (s m : R) :
  (nu <= s)%R -> (0 <= m)%R -> near m (sqrt s) ->
  (omega <= sqrt s)%R /\ (sqrt s * sqrt s = s)%R /\
  (sqrt s * beta <= alpha * m)%R /\ (m * beta <= alpha * sqrt s)%R.
Proof.
  intros Hs Hm Hn. pose proof nu_pos as Hnu. pose proof omega_pos as Hom.
  assert (Ht : (sqrt s * sqrt s = s)%R) by (apply sqrt_sqrt; lra).
  assert (Ht0 : (0 <= sqrt s)%R) by apply sqrt_pos.
  assert (Hto : (omega <= sqrt s)%R).
  { apply le_of_sqr; [exact Ht0|]. rewrite omega_sqr, Ht. exact Hs. }
  split; [exact Hto|]. split; [exact Ht|].
  pose proof (near_upper _ _ Hn) as Hu. pose proof (near_lower _ _ Hn) as Hl.
  rewrite (Rabs_pos_eq m Hm), (Rabs_pos_eq _ Ht0) in Hu, Hl.
  assert (He : (eta <= eps * sqrt s)%R).
  { rewrite eta_eps_nu. pose proof nu_le_omega. pose proof eps_small. nra. }
  unfold beta, alpha in *. split; lra.
Qed.

Section Assemble.
Variables (n : nat) (d p r X SA SB s1 s2 m1 m2 : R).
Hypothesis HD : (Rabs d * beta ^ (n + 1) <= X + 2 * INR n * eta)%R.
Hypothesis HX0 : (0 <= X)%R.
Hypothesis HXX : (X * X <= SA * SB)%R.
Hypothesis HSA0 : (0 <= SA)%R.
Hypothesis HSB0 : (0 <= SB)%R.
Hypothesis HSA : (SA <= alpha ^ (n + 1) * (s1 + 2 * INR n * eta))%R.
Hypothesis HSB : (SB <= alpha ^ (n + 1) * (s2 + 2 * INR n * eta))%R.
Hypothesis Hs1 : (nu <= s1)%R.
Hypothesis Hs2 : (nu <= s2)%R.
Hypothesis Hm1 : (0 <= m1)%R.
Hypothesis Hm2 : (0 <= m2)%R.
Hypothesis Hn1 : near m1 (sqrt s1).
Hypothesis Hn2 : near m2 (sqrt s2).
Hypothesis Hp : near p (m1 * m2).

Lemma exact_dot_roots :
  (X + 2 * INR n * eta
   <= alpha ^ (n + 1) * (1 + 4 * INR n * eps) * (sqrt s1 * sqrt s2))%R.
Proof.
  destruct (root_bounds _ _ Hs1 Hm1 Hn1) as (Ho1 & Et1 & _).
  destruct (root_bounds _ _ Hs2 Hm2 Hn2) as (Ho2 & Et2 & _).
  pose proof omega_pos as Hom. pose proof nu_pos as Hnu.
  pose proof eps_small as He. pose proof eta_pos as Het.
  pose proof (pos_INR n) as HN. pose proof alpha_ge_1 as Ha1.
  set (t1 := sqrt s1) in *. set (t2 := sqrt s2) in *.
  set (K := (alpha ^ (n + 1))%R) in *.
  assert (HK : (1 <= K)%R) by (apply pow_R1_Rle; lra).
  set (N := INR n) in *.
  assert (Ht12 : (nu <= t1 * t2)%R).
  { rewrite <- omega_sqr. apply Rmult_le_compat; lra. }
  assert (Hc1 : (s1 + 2 * N * eta <= (1 + 2 * N * eps) * s1)%R).
  { rewrite eta_eps_nu. assert (0 <= 2 * N * eps)%R by nra. nra. }
  assert (Hc2 : (s2 + 2 * N * eta <= (1 + 2 * N * eps) * s2)%R).
  { rewrite eta_eps_nu. assert (0 <= 2 * N * eps)%R by nra. nra. }
  set (c := (1 + 2 * N * eps)%R) in *.
  assert (Hc : (1 <= c)%R) by (unfold c; nra).
  assert (HA : (SA <= K * (c * s1))%R).
  { apply Rle_trans with (1 := HSA). apply Rmult_le_compat_l; lra. }
  assert (HB : (SB <= K * (c * s2))%R).
  { apply Rle_trans with (1 := HSB). apply Rmult_le_compat_l; lra. }
  assert (HXle : (X <= K * c * (t1 * t2))%R).
  { apply le_of_sqr.
    - apply Rmult_le_pos; [nra|]. apply Rmult_le_pos; lra.
    - apply Rle_trans with (1 := HXX).
      replace (K * c * (t1 * t2) * (K * c * (t1 * t2)))%R
        with ((K * (c * (t1 * t1))) * (K * (c * (t2 * t2))))%R by ring.
      rewrite Et1, Et2. apply Rmult_le_compat; lra. }
  assert (Hq : (2 * N * eta <= K * (2 * N * eps) * (t1 * t2))%R).
  { rewrite eta_eps_nu.
    assert (H1 : (0 <= 2 * N * eps)%R) by nra.
    assert (H2 : (2 * N * eps * nu <= 2 * N * eps * (t1 * t2))%R)
      by (apply Rmult_le_compat_l; lra).
    assert (H3 : (2 * N * eps * (t1 * t2) <= K * (2 * N * eps * (t1 * t2)))%R).
    { rewrite <- (Rmult_1_l (2 * N * eps * (t1 * t2))) at 1.
      apply Rmult_le_compat_r; [|lra]. apply Rmult_le_pos; lra. }
    lra. }
  replace (K * (1 + 4 * N * eps) * (t1 * t2))%R
    with (K * c * (t1 * t2) + K * (2 * N * eps) * (t1 * t2))%R
    by (unfold c; ring).
  lra.
Qed.

Lemma magnitudes_product :
  (sqrt s1 * sqrt s2 * (beta * beta) <= alpha * alpha * (m1 * m2))%R /\
  (m1 * m2 * (1 - 2 * eps) <= alpha * Rabs p)%R /\
  (0 < m1 * m2)%R /\ (0 < Rabs p)%R.
Proof.
  destruct (root_bounds _ _ Hs1 Hm1 Hn1) as (Ho1 & Et1 & Hl1 & _).
  destruct (root_bounds _ _ Hs2 Hm2 Hn2) as (Ho2 & Et2 & Hl2 & _).
  pose proof omega_pos as Hom. pose proof nu_pos as Hnu.
  pose proof eps_small as He. pose proof beta_bounds as [Hb0 Hb1].
  pose proof alpha_ge_1 as Ha1.
  set (t1 := sqrt s1) in *. set (t2 := sqrt s2) in *.
  assert (Ht12 : (nu <= t1 * t2)%R).
  { rewrite <- omega_sqr. apply Rmult_le_compat; lra. }
  assert (H1 : (t1 * t2 * (beta * beta) <= alpha * alpha * (m1 * m2))%R).
  { replace (t1 * t2 * (beta * beta))%R with ((t1 * beta) * (t2 * beta))%R by ring.
    replace (alpha * alpha * (m1 * m2))%R with ((alpha * m1) * (alpha * m2))%R by ring.
    apply Rmult_le_compat; try lra; apply Rmult_le_pos; lra. }
  split; [exact H1|].
  assert (Hab : (alpha * alpha <= 2 * (beta * beta))%R)
    by (unfold alpha, beta; nra).
  assert (Hbb : (0 < beta * beta)%R) by nra.
  assert (Hmm : (nu <= 2 * (m1 * m2))%R).
  { assert (H2 : (nu * (beta * beta) <= t1 * t2 * (beta * beta))%R)
      by (apply Rmult_le_compat_r; lra).
    assert (H3 : (0 <= m1 * m2)%R) by (apply Rmult_le_pos; assumption).
    assert (H4 : (alpha * alpha * (m1 * m2) <= 2 * (beta * beta) * (m1 * m2))%R)
      by (apply Rmult_le_compat_r; lra).
    assert (H5 : (nu * (beta * beta) <= 2 * (m1 * m2) * (beta * beta))%R) by lra.
    apply Rmult_le_reg_r with (beta * beta)%R; lra. }
  pose proof (near_upper _ _ Hp) as Hu.
  assert (H0 : (0 <= m1 * m2)%R) by (apply Rmult_le_pos; assumption).
  rewrite (Rabs_pos_eq _ H0) in Hu.
  assert (Het : (eta <= 2 * eps * (m1 * m2))%R).
  { rewrite eta_eps_nu. nra. }
  split; [lra|]. split; [lra|].
  assert (0 < m1 * m2 * (1 - 2 * eps))%R by (apply Rmult_lt_0_compat; lra).
  assert (0 < alpha * Rabs p)%R by lra.
  pose proof (Rabs_pos p). nra.
Qed.

Lemma dot_over_product : (Rabs d <= qtol ^ (2 * n + 4) * Rabs p)%R.
Proof.
  pose proof exact_dot_roots as H1.
  destruct magnitudes_product as (H2 & H3 & Hmm & HP).
  pose proof (Rle_trans _ _ _ HD H1) as H0. clear H1.
  pose proof eps_small as He. pose proof beta_bounds as [Hb0 Hb1].
  pose proof alpha_ge_1 as Ha1. pose proof qtol_ge_1 as Hq1.
  pose proof alpha_le_q_beta as Hqb. pose proof alpha_le_q_gamma as Hqg.
  pose proof (bernoulli n) as Hbn.
  set (t := (sqrt s1 * sqrt s2)%R) in *. set (mm := (m1 * m2)%R) in *.
  set (P := Rabs p) in *. set (D := Rabs d) in *.
  assert (Ht0 : (0 <= t)%R).
  { unfold t. apply Rmult_le_pos; apply sqrt_pos. }
  assert (Hbk : (0 < beta ^ (n + 1))%R) by (apply pow_lt; lra).
  assert (Hak : (alpha ^ (n + 1) <= qtol ^ (n + 1) * beta ^ (n + 1))%R).
  { rewrite <- Rpow_mult_distr. apply pow_le_pow. lra. }
  assert (Hqk : (0 < qtol ^ (n + 1))%R) by (apply pow_lt; lra).
  assert (Hqn : (0 < qtol ^ n)%R) by (apply pow_lt; lra).
  (* D <= q^(n+1) q^n t *)
  assert (S1 : (D <= qtol ^ (n + 1) * qtol ^ n * t)%R).
  { apply Rmult_le_reg_r with (beta ^ (n + 1))%R; [exact Hbk|].
    apply Rle_trans with (1 := H0).
    assert (E1 : (alpha ^ (n + 1) * (1 + 4 * INR n * eps) * t
                  <= qtol ^ (n + 1) * beta ^ (n + 1) * (1 + 4 * INR n * eps) * t)%R).
    { apply Rmult_le_compat_r; [exact Ht0|].
      apply Rmult_le_compat_r; [|exact Hak].
      pose proof (pos_INR n). nra. }
    assert (E2 : (qtol ^ (n + 1) * beta ^ (n + 1) * (1 + 4 * INR n * eps) * t
                  <= qtol ^ (n + 1) * beta ^ (n + 1) * qtol ^ n * t)%R).
    { apply Rmult_le_compat_r; [exact Ht0|].
      apply Rmult_le_compat_l; [|exact Hbn].
      apply Rmult_le_pos; lra. }
    replace (qtol ^ (n + 1) * qtol ^ n * t * beta ^ (n + 1))%R
      with (qtol ^ (n + 1) * beta ^ (n + 1) * qtol ^ n * t)%R by ring.
    lra. }
  (* t <= q^2 mm *)
  assert (S2 : (t <= qtol * qtol * mm)%R).
  { apply Rmult_le_reg_r with (beta * beta)%R; [nra|].
    apply Rle_trans with (1 := H2).
    replace (qtol * qtol * mm * (beta * beta))%R
      with ((qtol * beta) * (qtol * beta) * mm)%R by ring.
    apply Rmult_le_compat_r; [lra|]. apply Rmult_le_compat; lra. }
  (* mm <= q P *)
  assert (S3 : (mm <= qtol * P)%R).
  { apply Rmult_le_reg_r with (1 - 2 * eps)%R; [lra|].
    apply Rle_trans with (1 := H3).
    replace (qtol * P * (1 - 2 * eps))%R with (qtol * (1 - 2 * eps) * P)%R by ring.
    apply Rmult_le_compat_r; lra. }
  assert (E : (qtol ^ (2 * n + 4)
               = qtol ^ (n + 1) * qtol ^ n * (qtol * (qtol * qtol)))%R).
  { replace (2 * n + 4)%nat with ((n + 1) + (n + 3))%nat by lia.
    rewrite (pow_add qtol (n + 1) (n + 3)), (pow_add qtol n 3). simpl. ring. }
  rewrite E.
  set (Q := (qtol ^ (n + 1) * qtol ^ n)%R) in *.
  assert (HQ : (0 < Q)%R) by (unfold Q; apply Rmult_lt_0_compat; lra).
  assert (S4 : (Q * t <= Q * (qtol * qtol * (qtol * P)))%R).
  { apply Rmult_le_compat_l; [lra|]. apply Rle_trans with (1 := S2).
    apply Rmult_le_compat_l; [nra|exact S3]. }
  replace (Q * (qtol * (qtol * qtol)) * P)%R
    with (Q * (qtol * qtol * (qtol * P)))%R by ring.
  lra.
Qed.

Lemma quotient_bound :
  near r (d / p) -> (Rabs r <= qtol ^ (2 * n + 5))%R.
Proof.
  intros Hr. pose proof dot_over_product as H1.
  destruct magnitudes_product as (_ & _ & _ & HP).
  pose proof (near_lower _ _ Hr) as Hl.
  pose proof eps_small as He. pose proof beta_bounds as [Hb0 Hb1].
  pose proof qtol_ge_1 as Hq1. pose proof eta_le_eps as Hee.
  pose proof eta_pos as Het.
  assert (Hdp : (Rabs (d / p) <= qtol ^ (2 * n + 4))%R).
  { unfold Rdiv. rewrite Rabs_mult, Rabs_inv.
    apply Rmult_le_reg_r with (Rabs p); [exact HP|].
    rewrite Rmult_assoc, Rinv_l by lra. lra. }
  set (Y := (qtol ^ (2 * n + 4))%R) in *.
  assert (HY : (1 <= Y)%R) by (apply pow_R1_Rle; lra).
  assert (E : (qtol ^ (2 * n + 5) = qtol * Y)%R).
  { unfold Y. replace (2 * n + 5)%nat with (S (2 * n + 4)) by lia.
    reflexivity. }
  rewrite E.
  apply Rmult_le_reg_l with beta; [lra|].
  apply Rle_trans with (1 := Hl).
  assert (Hc : (0 < 3 * eps - 4 * (eps * eps))%R) by nra.
  assert (H2 : (3 * eps - 4 * (eps * eps)
                <= (3 * eps - 4 * (eps * eps)) * Y)%R).
  { rewrite <- (Rmult_1_r (3 * eps - 4 * (eps * eps))) at 1.
    apply Rmult_le_compat_l; lra. }
  assert (H3 : (eta <= 3 * eps - 4 * (eps * eps))%R) by nra.
  replace (beta * (qtol * Y))%R
    with (Y + (3 * eps - 4 * (eps * eps)) * Y)%R by (unfold beta, qtol; ring).
  lra.
Qed.

End Assemble.

(** ** Cosine similarity in binary64: the bound *)

Lemma SFdiv_finite_cases (fx fy : spec_float) :
  SFfinite (SFdiv prec emax fx fy) = true ->
  SFfinite fx = true /\
  ((SFfinite fy = true /\ SF2R fy <> 0%R) \/ SF2R (SFdiv prec emax fx fy) = 0%R).
Proof.
  destruct fx as [sx|sx| |sx mx ex], fy as [sy|sy| |sy my ey];
    cbn [SFdiv SFfinite]; try discriminate; intros H;
    (split; [reflexivity|]);
    first [ left; split; [reflexivity|]; cbn [SF2R];
            pose proof (F2R_pos my ey); destruct sy; lra
          | right; reflexivity ].
Qed.

Lemma div_finite_cases (x y : float) :
  F64.finite (x / y) = true ->
  F64.finite x = true /\
  ((F64.finite y = true /\ B2R y <> 0%R) \/ B2R (x / y) = 0%R).
Proof. rewrite ?F64_finite_SF; unfold B2R. rewrite div_spec. apply SFdiv_finite_cases. Qed.

Lemma qtol_pow_ge_1 (k : nat) : (1 <= qtol ^ k)%R.
Proof. apply pow_R1_Rle, qtol_ge_1. Qed.

Lemma cosine_similarity_bound (vec1 vec2 : list float) :
  List.length vec1 = List.length vec2 ->
  (0x1p-1022 <=? sum_of_squares vec1)%float = true ->
  (0x1p-1022 <=? sum_of_squares vec2)%float = true ->
  F64.finite (cosine_similarity binary64 vec1 vec2) = true ->
  (Rabs (B2R (cosine_similarity binary64 vec1 vec2))
   <= qtol ^ (2 * List.length vec1 + 5))%R.
Proof.
  intros Hlen H1 H2. unfold cosine_similarity.
  rewrite Hlen, Nat.eqb_refl. cbn [negb].
  cbn [a_is_zero a_sqrt a_div a_mul a_zero binary64].
  change (py_sum binary64 (map (fun ab => (fst ab * snd ab)%float) (combine vec1 vec2)))
    with (fsum (products vec1 vec2)).
  change (py_sum binary64 (map (fun a => (a * a)%float) vec1))
    with (fsum (squares vec1)).
  change (py_sum binary64 (map (fun b => (b * b)%float) vec2))
    with (fsum (squares vec2)).
  change (sum_of_squares vec1) with (fsum (squares vec1)) in H1.
  change (sum_of_squares vec2) with (fsum (squares vec2)) in H2.
  set (s1 := fsum (squares vec1)) in *. set (s2 := fsum (squares vec2)) in *.
  set (d := fsum (products vec1 vec2)).
  set (m1 := PrimFloat.sqrt s1). set (m2 := PrimFloat.sqrt s2).
  pose proof (qtol_pow_ge_1 (2 * List.length vec2 + 5)) as Hq.
  destruct ((m1 =? 0)%float || (m2 =? 0)%float).
  { intros _. rewrite B2R_zero, Rabs_R0. lra. }
  intros Hf. destruct (div_finite_cases _ _ Hf) as [Hd [[Hp Hp0]|Hz]].
  2:{ rewrite Hz, Rabs_R0. lra. }
  destruct (mul_finite _ _ Hp) as [Hm1 Hm2].
  pose proof (sqrt_finite _ Hm1) as Hs1.
  pose proof (sqrt_finite _ Hm2) as Hs2.
  destruct (sqrt_near _ Hm1) as (_ & Hm1' & Hn1).
  destruct (sqrt_near _ Hm2) as (_ & Hm2' & Hn2).
  pose proof (normal_ge _ Hs1 H1) as Hnu1. pose proof (normal_ge _ Hs2 H2) as Hnu2.
  destruct (squares_bound vec1 Hs1) as [_ HSA].
  destruct (squares_bound vec2 Hs2) as [_ HSB].
  destruct (exact_dot_le vec1 vec2 Hlen) as (HX0 & HSA0 & HSB0 & HXX).
  pose proof (dot_bound vec1 vec2 Hd) as HD.
  rewrite (combine_length_eq _ _ Hlen) in HD. rewrite <- Hlen in HSB.
  rewrite <- Hlen.
  match type of HX0 with (0 <= ?x)%R => set (X := x) in * end.
  match type of HSA0 with (0 <= ?x)%R => set (SA := x) in * end.
  match type of HSB0 with (0 <= ?x)%R => set (SB := x) in * end.
  apply (quotient_bound (List.length vec1) (B2R d) (B2R (m1 * m2)) _ X SA SB
           (B2R s1) (B2R s2) (B2R m1) (B2R m2));
    first [ exact HD | exact HX0 | exact HXX | exact HSA0 | exact HSB0
          | exact HSA | exact HSB | exact Hnu1 | exact Hnu2
          | exact Hm1' | exact Hm2' | exact Hn1 | exact Hn2
          | apply mul_near, Hp | apply div_near; assumption ].
Qed.

(** ** Cosine similarity in binary64: a vector with itself *)

Lemma self_bound (s m p r : R) :
  (nu <= s)%R -> (0 <= m)%R -> near m (sqrt s) ->
  (0 <= p)%R -> near p (m * m) ->
  (0 < m)%R /\ (0 < p)%R /\
  (near r (s / p) -> (Rabs (r - 1) <= 16 * eps)%R).
Proof.
  intros Hs Hm Hn Hp0 Hp.
  destruct (root_bounds _ _ Hs Hm Hn) as (Ho & Et & Hl & Hu).
  pose proof omega_pos as Hom. pose proof nu_pos as Hnu.
  pose proof eps_small as He. pose proof beta_bounds as [Hb0 Hb1].
  pose proof alpha_ge_1 as Ha1. pose proof eta_pos as Het.
  set (t := sqrt s) in *.
  assert (Hmpos : (0 < m)%R).
  { assert (0 < t * beta)%R by (apply Rmult_lt_0_compat; lra).
    assert (0 < alpha * m)%R by lra. nra. }
  split; [exact Hmpos|].
  assert (Hbb : (0 < beta * beta)%R) by nra.
  assert (Hab : (alpha * alpha <= 2 * (beta * beta))%R)
    by (unfold alpha, beta; nra).
  assert (U1 : (s * (beta * beta) <= alpha * alpha * (m * m))%R).
  { rewrite <- Et.
    replace (t * t * (beta * beta))%R with ((t * beta) * (t * beta))%R by ring.
    replace (alpha * alpha * (m * m))%R with ((alpha * m) * (alpha * m))%R by ring.
    apply Rmult_le_compat; try lra; apply Rmult_le_pos; lra. }
  assert (L1 : (m * m * (beta * beta) <= alpha * alpha * s)%R).
  { rewrite <- Et.
    replace (m * m * (beta * beta))%R with ((m * beta) * (m * beta))%R by ring.
    replace (alpha * alpha * (t * t))%R with ((alpha * t) * (alpha * t))%R by ring.
    apply Rmult_le_compat; try lra; apply Rmult_le_pos; lra. }
  assert (Hmm : (0 < m * m)%R) by nra.
  assert (Hs2m : (s <= 2 * (m * m))%R).
  { apply Rmult_le_reg_r with (beta * beta)%R; [exact Hbb|].
    apply Rle_trans with (1 := U1).
    replace (2 * (m * m) * (beta * beta))%R with (2 * (beta * beta) * (m * m))%R by ring.
    apply Rmult_le_compat_r; lra. }
  assert (Heta : (eta <= 2 * eps * (m * m))%R).
  { rewrite eta_eps_nu. nra. }
  pose proof (near_upper _ _ Hp) as Pu. pose proof (near_lower _ _ Hp) as Pl.
  rewrite (Rabs_pos_eq p Hp0), (Rabs_pos_eq (m * m)) in Pu, Pl by lra.
  assert (P1 : (m * m * (1 - 2 * eps) <= alpha * p)%R) by lra.
  assert (P2 : (beta * p <= m * m * (1 + 2 * eps))%R) by lra.
  assert (Hppos : (0 < p)%R).
  { assert (0 < m * m * (1 - 2 * eps))%R by (apply Rmult_lt_0_compat; lra). nra. }
  split; [exact Hppos|]. intros Hr.
  set (x := (s / p)%R) in *.
  assert (Ex : (x * p = s)%R) by (unfold x; field; lra).
  assert (Hspos : (0 < s)%R) by lra.
  assert (Hxpos : (0 < x)%R) by (unfold x; apply Rdiv_lt_0_compat; lra).
  (* upper bound of x *)
  assert (Xu : (x <= 1 + 8 * eps)%R).
  { assert (C : (alpha * alpha * alpha
                 <= (1 + 8 * eps) * (beta * beta * (1 - 2 * eps)))%R)
      by (unfold alpha, beta; nra).
    assert (A1 : (s * (beta * beta) * (1 - 2 * eps)
                  <= alpha * alpha * (m * m) * (1 - 2 * eps))%R)
      by (apply Rmult_le_compat_r; lra).
    assert (A2 : (alpha * alpha * (m * m * (1 - 2 * eps))
                  <= alpha * alpha * (alpha * p))%R)
      by (apply Rmult_le_compat_l; [nra|exact P1]).
    assert (A3 : (x * (beta * beta * (1 - 2 * eps)) * p
                  <= alpha * alpha * alpha * p)%R).
    { replace (x * (beta * beta * (1 - 2 * eps)) * p)%R
        with (x * p * (beta * beta) * (1 - 2 * eps))%R by ring.
      rewrite Ex. lra. }
    assert (A4 : (x * (beta * beta * (1 - 2 * eps)) <= alpha * alpha * alpha)%R)
      by (apply Rmult_le_reg_r with p; lra).
    assert (A5 : (0 < beta * beta * (1 - 2 * eps))%R)
      by (apply Rmult_lt_0_compat; lra).
    apply Rmult_le_reg_r with (beta * beta * (1 - 2 * eps))%R; lra. }
  (* lower bound of x *)
  assert (Xl : (1 - 8 * eps <= x)%R).
  { assert (C : ((1 - 8 * eps) * (alpha * alpha * (1 + 2 * eps))
                 <= beta * beta * beta)%R)
      by (unfold alpha, beta; nra).
    assert (A1 : (beta * beta * (beta * p)
                  <= beta * beta * (m * m * (1 + 2 * eps)))%R)
      by (apply Rmult_le_compat_l; lra).
    assert (A2 : (m * m * (beta * beta) * (1 + 2 * eps)
                  <= alpha * alpha * s * (1 + 2 * eps))%R)
      by (apply Rmult_le_compat_r; lra).
    assert (A3 : (beta * beta * beta * p
                  <= x * (alpha * alpha * (1 + 2 * eps)) * p)%R).
    { replace (x * (alpha * alpha * (1 + 2 * eps)) * p)%R
        with (alpha * alpha * (x * p) * (1 + 2 * eps))%R by ring.
      rewrite Ex. lra. }
    assert (A4 : (beta * beta * beta <= x * (alpha * alpha * (1 + 2 * eps)))%R)
      by (apply Rmult_le_reg_r with p; lra).
    assert (A5 : (0 < alpha * alpha * (1 + 2 * eps))%R)
      by (apply Rmult_lt_0_compat; nra).
    apply Rmult_le_reg_r with (alpha * alpha * (1 + 2 * eps))%R; lra. }
  pose proof (near_lower _ _ Hr) as Rl.
  rewrite (Rabs_pos_eq x) in Rl by lra.
  pose proof eta_le_eps as Hee.
  assert (Hr2 : (Rabs r <= 2)%R).
  { apply Rmult_le_reg_l with beta; [lra|]. unfold beta in *. lra. }
  unfold near in Hr.
  assert (Hrx : (Rabs (r - x) <= 3 * eps)%R) by nra.
  replace (r - 1)%R with ((r - x) + (x - 1))%R by ring.
  apply Rle_trans with (1 := Rabs_triang _ _).
  assert (Rabs (x - 1) <= 8 * eps)%R by (apply Rabs_le; lra).
  lra.
Qed.

Lemma products_self (v : list float) : products v v = squares v.
Proof.
  unfold products, squares. induction v as [|x v IH]; simpl; [reflexivity|].
  now rewrite IH.
Qed.

Lemma eqb_zero_B2R (x : float) : (x =? 0)%float = true -> B2R x = 0%R.
Proof.
  rewrite eqb_spec. unfold B2R. change (Prim2SF 0) with (S754_zero false).
  destruct (Prim2SF x) as [s|s| |s m e]; try reflexivity.
  unfold SFeqb, SFcompare. destruct s; discriminate.
Qed.

Lemma cosine_similarity_self (vec : list float) :
  (0x1p-1022 <=? sum_of_squares vec)%float = true ->
  F64.finite (magnitude binary64 vec * magnitude binary64 vec) = true ->
  F64.finite (cosine_similarity binary64 vec vec) = true ->
  (Rabs (B2R (cosine_similarity binary64 vec vec) - 1) <= 16 * eps)%R.
Proof.
  intros H1 Hp. unfold cosine_similarity. rewrite Nat.eqb_refl. cbn [negb].
  unfold magnitude in Hp.
  cbn [a_is_zero a_sqrt a_div a_mul a_zero binary64] in *.
  change (py_sum binary64 (map (fun ab => (fst ab * snd ab)%float) (combine vec vec)))
    with (fsum (products vec vec)).
  change (py_sum binary64 (map (fun a => (a * a)%float) vec))
    with (fsum (squares vec)) in *.
  change (py_sum binary64 (map (fun b => (b * b)%float) vec))
    with (fsum (squares vec)).
  change (sum_of_squares vec) with (fsum (squares vec)) in H1.
  rewrite products_self.
  set (s := fsum (squares vec)) in *. set (m := PrimFloat.sqrt s) in *.
  destruct (mul_finite _ _ Hp) as [Hm _].
  pose proof (sqrt_finite _ Hm) as Hs.
  destruct (sqrt_near _ Hm) as (_ & Hm' & Hn).
  pose proof (normal_ge _ Hs H1) as Hnu.
  pose proof (square_nonneg _ Hp) as Hp0.
  pose proof (mul_near _ _ Hp) as Hpn.
  destruct (self_bound (B2R s) (B2R m) (B2R (m * m))
              (B2R (fsum (squares vec) / (m * m))) Hnu Hm' Hn Hp0 Hpn)
    as (Hmpos & Hppos & Hb).
  destruct (m =? 0)%float eqn:Ez.
  { apply eqb_zero_B2R in Ez. lra. }
  cbn [orb]. intros Hf. apply Hb. apply div_near; [lra|exact Hf].
Qed.

Lemma qtol_val : qtol = (1 + / 1125899906842624)%R.
Proof. unfold qtol. rewrite eps_val. lra. Qed.

(** C9 (in binary64, with a tolerance): take two vectors of equal length
    [n] whose sums of squares, as computed, are at least [2^-1022], the
    least normal float (the squares did not underflow; such vectors are
    not zero).  If the similarity returned is a finite float (nothing
    overflowed), the number it denotes lies between [-T] and [T], where
    [T = (1 + 2^-50)^(2n+5)].  And the similarity of such a vector with
    itself, when the product of its magnitude with itself is finite and
    so is the result, is within [2^-48] of 1. *)
Theorem cosine_similarity_tolerance (vec1 vec2 : list float) :
  List.length vec1 = List.length vec2 ->
  (0x1p-1022 <=? sum_of_squares vec1)%float = true ->
  (0x1p-1022 <=? sum_of_squares vec2)%float = true ->
  (F64.finite (cosine_similarity binary64 vec1 vec2) = true ->
   (Rabs (B2R (cosine_similarity binary64 vec1 vec2))
    <= (1 + / 2 ^ 50) ^ (2 * List.length vec1 + 5))%R) /\
  (F64.finite (magnitude binary64 vec1 * magnitude binary64 vec1) = true ->
   F64.finite (cosine_similarity binary64 vec1 vec1) = true ->
   (Rabs (B2R (cosine_similarity binary64 vec1 vec1) - 1) <= / 2 ^ 48)%R).
Proof.
  intros Hlen H1 H2. split.
  - intros Hf.
    replace (1 + / 2 ^ 50)%R with qtol by (rewrite qtol_val; lra).
    apply cosine_similarity_bound; assumption.
  - intros Hp Hf.
    replace (/ 2 ^ 48)%R with (16 * eps)%R by (rewrite eps_val; lra).
    apply cosine_similarity_self; assumption.
Qed.

Lemma cosine_similarity_tolerance_witness :
  (Rabs (B2R (cosine_similarity binary64 tenth_and_seven_tenths [1; 2]%float))
   <= (1 + / 2 ^ 50) ^ (2 * 2 + 5))%R /\
  (Rabs (B2R (cosine_similarity binary64 tenth_and_seven_tenths
                tenth_and_seven_tenths) - 1) <= / 2 ^ 48)%R.
Proof.
  destruct (cosine_similarity_tolerance tenth_and_seven_tenths [1; 2]%float)
    as [Hb Hs]; try (vm_compute; reflexivity).
  split; [apply Hb|apply Hs]; vm_compute; reflexivity.
Defined.

(** * Further properties *)

(** ** Filtering a sorted list *)

Section StableSortFilter.
Context {A : Type} (le : A -> A -> bool) (ok : A -> Prop).
Hypothesis le_total :
  forall x y, ok x -> ok y -> le x y = false -> le y x = true.
Hypothesis le_trans :
  forall x y z, ok x -> ok y -> ok z ->
                le x y = true -> le y z = true -> le x z = true.

Lemma insert_sorted_head (x : A) (l : list A) :
  (forall z, In z l -> le x z = true) -> insert_sorted le x l = x :: l.
Proof.
  destruct l as [|y l]; simpl; [reflexivity|].
  intros H. now rewrite (H y (or_introl eq_refl)).
Qed.

Lemma insert_sorted_filter (p : A -> bool) (x : A) (l : list A) :
  ok x -> Forall ok l -> StronglySorted (fun a b => le a b = true) l ->
  filter p (insert_sorted le x l) =
  if p x then insert_sorted le x (filter p l) else filter p l.
Proof.
  intros Hx Hok Hs. induction Hs as [|y l Hs IH Hy]; simpl.
  - destruct (p x); reflexivity.
  - inversion Hok as [|? ? Hoky Hokl]; subst.
    destruct (le x y) eqn:E; simpl.
    + destruct (p x) eqn:Px; [|reflexivity].
      destruct (p y) eqn:Py; simpl; [now rewrite E|].
      rewrite insert_sorted_head; [reflexivity|].
      intros z Hz. apply filter_In in Hz. destruct Hz as [Hz _].
      rewrite Forall_forall in Hy, Hokl.
      exact (le_trans x y z Hx Hoky (Hokl z Hz) E (Hy z Hz)).
    + rewrite (IH Hokl).
      destruct (p y) eqn:Py, (p x) eqn:Px; simpl; rewrite ?E; reflexivity.
Qed.

(** Filtering the sorted list gives the sorted filtered list. *)
Lemma stable_sort_filter (p : A -> bool) (l : list A) :
  Forall ok l ->
  filter p (stable_sort le l) = stable_sort le (filter p l).
Proof.
  induction l as [|x l IH]; simpl; intros Hok; [reflexivity|].
  inversion Hok as [|? ? Hx Hl]; subst.
  rewrite insert_sorted_filter.
  - destruct (p x); simpl; now rewrite (IH Hl).
  - exact Hx.
  - rewrite Forall_forall in Hl |- *. intros z Hz.
    apply Hl, (proj1 (stable_sort_In le z l)), Hz.
  - apply (stable_sort_sorted le ok le_total le_trans), Hl.
Qed.
End StableSortFilter.

Lemma filter_map_comm {A B : Type} (f : A -> B) (p : B -> bool) (l : list A) :
  filter p (map f l) = map f (filter (fun a => p (f a)) l).
Proof.
  induction l as [|a l IH]; simpl; [reflexivity|].
  destruct (p (f a)); simpl; now rewrite IH.
Qed.

Lemma filter_filter {A : Type} (f g : A -> bool) (l : list A) :
  filter f (filter g l) = filter (fun a => g a && f a) l.
Proof.
  induction l as [|a l IH]; simpl; [reflexivity|].
  destruct (g a); simpl; [destruct (f a); simpl|]; now rewrite IH.
Qed.

(** [ORDER BY timestamp] and a further selection can be exchanged on rows
    that passed a range test. *)
Lemma order_by_timestamp_filter (p : row -> bool) (rows : list row) :
  Forall (fun r => F64.ordered (row_timestamp r) = true) rows ->
  filter p (order_by_timestamp rows) = order_by_timestamp (filter p rows).
Proof.
  intros H. unfold order_by_timestamp.
  apply (stable_sort_filter
           (fun a b => (row_timestamp a <=? row_timestamp b)%float)
           (fun r => F64.ordered (row_timestamp r) = true)).
  - intros x y Hx Hy E. apply F64_ltb_leb, F64_leb_total; assumption.
  - intros x y z _ _ _. apply F64_leb_trans.
  - exact H.
Qed.

Lemma selected_ordered (start_time end_time : float) (src_type : option string)
    (db : database) :
  Forall (fun r => F64.ordered (row_timestamp r) = true)
         (selected start_time end_time src_type db).
Proof.
  unfold selected. rewrite Forall_forall. intros r Hr.
  apply filter_In in Hr. destruct Hr as [_ Hr].
  apply andb_true_iff in Hr. destruct Hr as [Hr _].
  exact (in_range_ordered _ _ _ Hr).
Qed.

(** A selection of the records of a query is the query of the selected
    rows. *)
Lemma filter_query_by_timerange (p : vector_record -> bool) (db : database)
    (start_time end_time : float) (src_type : option string) :
  filter p (query_by_timerange db start_time end_time src_type) =
  map record_of_row
      (order_by_timestamp
         (filter (fun r => p (record_of_row r))
                 (selected start_time end_time src_type db))).
Proof.
  rewrite query_by_timerange_rows, filter_map_comm. f_equal.
  apply order_by_timestamp_filter, selected_ordered.
Qed.

(** X10: a query with a non-empty [source_type] returns the records of that
    type of the query without filter, in the same order. *)
Theorem query_by_timerange_filter_commutes (db : database)
    (start_time end_time : float) (c : ascii) (s : string) :
  query_by_timerange db start_time end_time (Some (String c s)) =
  filter (fun rec => String.eqb (source_type rec) (String c s))
         (query_by_timerange db start_time end_time None).
Proof.
  rewrite filter_query_by_timerange, query_by_timerange_rows.
  unfold selected. rewrite filter_filter. do 2 f_equal.
  apply filter_ext. intros r. unfold matches_filter. simpl.
  now rewrite andb_true_r.
Qed.

(** X11: narrowing the range selects from the result: the query over
    [[start', end']] inside [[start_time, end_time]] returns the records of
    the wider query whose timestamp lies in the narrower range, in the
    same order. *)
Theorem query_by_timerange_narrow (db : database)
    (start_time end_time start' end' : float) (src_type : option string) :
  (start_time <=? start')%float = true ->
  (end' <=? end_time)%float = true ->
  query_by_timerange db start' end' src_type =
  filter (fun rec => ((start' <=? timestamp rec) && (timestamp rec <=? end'))%float)
         (query_by_timerange db start_time end_time src_type).
Proof.
  intros Hs He. rewrite filter_query_by_timerange, query_by_timerange_rows.
  unfold selected. rewrite filter_filter. do 2 f_equal.
  apply filter_ext. intros r. unfold in_range. simpl.
  destruct (start' <=? row_timestamp r)%float eqn:E1;
    destruct (row_timestamp r <=? end')%float eqn:E2; simpl;
    rewrite ?andb_false_r; try reflexivity.
  rewrite (F64_leb_trans _ _ _ Hs E1), (F64_leb_trans _ _ _ E2 He). simpl.
  now rewrite andb_true_r.
Qed.

Lemma query_by_timerange_narrow_witness :
  query_by_timerange scenario_db 15 25 None =
  filter (fun rec => ((15 <=? timestamp rec) && (timestamp rec <=? 25))%float)
         (query_by_timerange scenario_db 0 infinity None).
Proof.
  apply (query_by_timerange_narrow scenario_db 0 infinity 15 25 None);
    vm_compute; reflexivity.
Defined.

(** ** Storing: what a batch leaves behind *)

Lemma appended_cons (src_type : string) (db : database) (v : feature_vector)
    (vectors : list feature_vector) (src_file : string) :
  appended src_type (appended src_type db [v] src_file) vectors src_file
  = appended src_type db (v :: vectors) src_file.
Proof.
  unfold appended. cbn [table sequence new_rows List.length].
  rewrite <- app_assoc. cbn [app]. f_equal. lia.
Qed.

Lemma appended_nil (src_type : string) (db : database) (src_file : string) :
  appended src_type db [] src_file = db.
Proof.
  unfold appended. simpl. rewrite app_nil_r, Z.add_0_r. now destruct db.
Qed.

Lemma execute_insert_refused (src_type src_file : string) (v : feature_vector)
    (db : database) :
  F64.ordered (fv_timestamp v) = false ->
  execute_insert src_type src_file v db = (db, Raised IntegrityError).
Proof. intros H. unfold execute_insert. now rewrite H. Qed.

Lemma execute_insert_appended (src_type src_file : string) (v : feature_vector)
    (db : database) :
  F64.ordered (fv_timestamp v) = true ->
  execute_insert src_type src_file v db
  = (appended src_type db [v] src_file, Returned tt).
Proof. intros H. rewrite (execute_insert_accepts _ _ _ _ H). reflexivity. Qed.

(** The loop stops at the first record whose timestamp is NaN, with the
    records before it inserted. *)
Lemma insert_vectors_first_refused (src_type : string)
    (good : list feature_vector) (bad : feature_vector)
    (rest : list feature_vector) (src_file : string) (db : database) :
  Forall (fun v => F64.ordered (fv_timestamp v) = true) good ->
  F64.ordered (fv_timestamp bad) = false ->
  insert_vectors src_type (good ++ bad :: rest) src_file db
  = (appended src_type db good src_file, Raised IntegrityError).
Proof.
  intros Hg Hb. revert db. induction Hg as [|v good Hv _ IH]; intros db.
  - cbn [app insert_vectors]. rewrite (execute_insert_refused _ _ _ _ Hb).
    now rewrite appended_nil.
  - cbn [app insert_vectors]. rewrite (execute_insert_appended _ _ _ _ Hv).
    rewrite IH. now rewrite appended_cons.
Qed.

(** Whatever happens, the loop leaves the table it found followed by the
    rows of a prefix of the batch. *)
Lemma insert_vectors_prefix (src_type : string) (vectors : list feature_vector)
    (src_file : string) (db : database) :
  exists k,
    fst (insert_vectors src_type vectors src_file db)
    = appended src_type db (firstn k vectors) src_file.
Proof.
  revert db. induction vectors as [|v vectors IH]; intros db.
  - exists 0. simpl. now rewrite appended_nil.
  - cbn [insert_vectors].
    destruct (F64.ordered (fv_timestamp v)) eqn:Hv.
    + rewrite (execute_insert_appended _ _ _ _ Hv).
      destruct (IH (appended src_type db [v] src_file)) as [k Hk].
      exists (S k). rewrite Hk. cbn [firstn]. apply appended_cons.
    + rewrite (execute_insert_refused _ _ _ _ Hv). exists 0. simpl.
      now rewrite appended_nil.
Qed.

Lemma store_vectors_append_only_rows
    (store_vectors : database -> list feature_vector -> string
                     -> database * outcome unit)
    (db : database) (vectors : list feature_vector) (src_file : string) :
  In store_vectors loaders ->
  exists added,
    table (fst (store_vectors db vectors src_file)) = table db ++ added /\
    Forall (fun r => (sequence db < row_id r)%Z) added.
Proof.
  intros Hin.
  assert (H : exists st k,
             fst (store_vectors db vectors src_file)
             = appended st db (firstn k vectors) src_file).
  { destruct Hin as [<-|[<-|[<-|[]]]];
      unfold store_audio_vectors, store_visual_vectors, store_semantic_vectors;
      eexists; apply insert_vectors_prefix. }
  destruct H as (st & k & ->).
  exists (new_rows st src_file (sequence db) (firstn k vectors)).
  split; [reflexivity|].
  eapply Forall_impl; [|apply new_rows_ids]. simpl. intros r. lia.
Qed.

(** X1: a loader only appends.  After the call, successful or not, the
    table is the table before followed by at most one new row per record,
    and every new row has an id above the counter the call found. *)
Theorem store_vectors_append_only
    (store_vectors : database -> list feature_vector -> string
                     -> database * outcome unit)
    (db : database) (vectors : list feature_vector) (src_file : string) :
  In store_vectors loaders ->
  exists added,
    table (fst (store_vectors db vectors src_file)) = table db ++ added /\
    List.length added <= List.length vectors /\
    Forall (fun r => (sequence db < row_id r)%Z) added.
Proof.
  intros Hin.
  assert (H : exists st k,
             fst (store_vectors db vectors src_file)
             = appended st db (firstn k vectors) src_file).
  { destruct Hin as [<-|[<-|[<-|[]]]];
      unfold store_audio_vectors, store_visual_vectors, store_semantic_vectors;
      eexists; apply insert_vectors_prefix. }
  destruct H as (st & k & ->).
  exists (new_rows st src_file (sequence db) (firstn k vectors)).
  split; [reflexivity|]. split.
  - rewrite new_rows_length, length_firstn. lia.
  - eapply Forall_impl; [|apply new_rows_ids]. simpl. intros r. lia.
Qed.

Lemma store_vectors_append_only_witness :
  exists added,
    table (fst (store_audio_vectors scenario_db nan_batch "noise.wav"))
    = table scenario_db ++ added /\
    List.length added <= List.length nan_batch /\
    Forall (fun r => (sequence scenario_db < row_id r)%Z) added.
Proof.
  apply (store_vectors_append_only store_audio_vectors scenario_db nan_batch
           "noise.wav").
  left. reflexivity.
Defined.

(** X2: a batch is refused at its first record whose timestamp is NaN: the
    call raises [IntegrityError], the records before that one are in the
    table, that record and those after it are not. *)
Theorem store_vectors_first_refused (db : database)
    (good : list feature_vector) (bad : feature_vector)
    (rest : list feature_vector) (src_file : string) :
  Forall (fun v => F64.ordered (fv_timestamp v) = true) good ->
  F64.ordered (fv_timestamp bad) = false ->
  store_audio_vectors db (good ++ bad :: rest) src_file
    = (appended "audio" db good src_file, Raised IntegrityError) /\
  store_visual_vectors db (good ++ bad :: rest) src_file
    = (appended "visual" db good src_file, Raised IntegrityError) /\
  store_semantic_vectors db (good ++ bad :: rest) src_file
    = (appended "semantic" db good src_file, Raised IntegrityError).
Proof.
  intros Hg Hb. repeat split; apply insert_vectors_first_refused; assumption.
Qed.

Lemma store_vectors_first_refused_witness :
  store_audio_vectors scenario_db nan_batch "noise.wav"
  = (appended "audio" scenario_db (firstn 1 nan_batch) "noise.wav",
     Raised IntegrityError).
Proof.
  apply (store_vectors_first_refused scenario_db (firstn 1 nan_batch)
           (mkFeature nan (JList [JNum 1; JNum 0]) (JObj []))
           (skipn 2 nan_batch) "noise.wav").
  - repeat constructor.
  - reflexivity.
Defined.

Lemma insert_vectors_returns_ordered (src_type : string)
    (vectors : list feature_vector) (src_file : string) (db : database) :
  snd (insert_vectors src_type vectors src_file db) = Returned tt ->
  Forall (fun v => F64.ordered (fv_timestamp v) = true) vectors.
Proof.
  revert db. induction vectors as [|v vectors IH]; intros db; [constructor|].
  cbn [insert_vectors]. destruct (F64.ordered (fv_timestamp v)) eqn:Hv.
  - rewrite (execute_insert_accepts _ _ _ _ Hv). intros H.
    constructor; [exact Hv|exact (IH _ H)].
  - rewrite (execute_insert_refused _ _ _ _ Hv). discriminate.
Qed.

(** X3: a loader returns normally exactly when no timestamp of the batch is
    NaN; nothing else about the records is looked at. *)
Theorem store_vectors_returns_iff
    (store_vectors : database -> list feature_vector -> string
                     -> database * outcome unit)
    (db : database) (vectors : list feature_vector) (src_file : string) :
  In store_vectors loaders ->
  (snd (store_vectors db vectors src_file) = Returned tt <->
   Forall (fun v => F64.ordered (fv_timestamp v) = true) vectors).
Proof.
  intros [<-|[<-|[<-|[]]]];
    unfold store_audio_vectors, store_visual_vectors, store_semantic_vectors;
    (split; [apply insert_vectors_returns_ordered|]);
    intros H; now rewrite (insert_vectors_accepts _ _ _ _ H).
Qed.

Lemma store_vectors_returns_iff_witness :
  snd (store_visual_vectors scenario_db malformed_batch "noise.wav") = Returned tt <->
  Forall (fun v => F64.ordered (fv_timestamp v) = true) malformed_batch.
Proof.
  apply (store_vectors_returns_iff store_visual_vectors scenario_db
           malformed_batch "noise.wav").
  right. left. reflexivity.
Defined.




(** ** Queries: order, multiplicity, stability under further stores *)

Lemma order_by_timestamp_ties (rows l1 : list row) (a : row) (l2 : list row)
    (b : row) (l3 : list row) :
  StronglySorted (fun x y => (row_id x < row_id y)%Z) rows ->
  order_by_timestamp rows = l1 ++ a :: l2 ++ b :: l3 ->
  (row_timestamp a =? row_timestamp b)%float = true ->
  (row_id a < row_id b)%Z.
Proof.
  intros Hs Hsort Hab.
  set (p := fun r => (row_timestamp r =? row_timestamp b)%float).
  assert (Hpb : p b = true).
  { unfold p. rewrite F64_eqb_sym in Hab. rewrite F64_eqb_leb in Hab |- *.
    apply andb_true_iff in Hab. destruct Hab as [H _].
    apply F64_leb_ordered in H. destruct H as [H _]. unfold F64.ordered in H.
    now rewrite H. }
  pose proof (order_by_timestamp_same_second (row_timestamp b) rows) as Hst.
  fold p in Hst. rewrite Hsort in Hst.
  rewrite filter_app in Hst. simpl in Hst. rewrite filter_app in Hst.
  simpl in Hst. unfold p at 2 in Hst. rewrite Hab in Hst. rewrite Hpb in Hst.
  apply (StronglySorted_filter _ p) in Hs. rewrite <- Hst in Hs.
  exact (StronglySorted_split _ _ _ _ _ _ Hs).
Qed.

(** X9: the records of a query are the admitted rows, each once, by
    ascending timestamp; on a well-formed store no id occurs twice. *)
Theorem query_by_timerange_each_once (db : database)
    (start_time end_time : float) (src_type : option string) :
  Permutation (query_by_timerange db start_time end_time src_type)
              (map record_of_row
                   (filter (fun r => in_range start_time end_time r &&
                                     matches_filter src_type r)
                           (table db))) /\
  StronglySorted (fun a b => (timestamp a <=? timestamp b)%float = true)
                 (query_by_timerange db start_time end_time src_type) /\
  (well_formed db ->
   NoDup (map id (query_by_timerange db start_time end_time src_type))).
Proof.
  assert (Hperm : Permutation
                    (query_by_timerange db start_time end_time src_type)
                    (map record_of_row
                         (selected start_time end_time src_type db))).
  { rewrite query_by_timerange_rows. apply Permutation_map, Permutation_sym.
    apply stable_sort_perm. }
  split; [exact Hperm|]. split; [apply query_by_timerange_sorted|].
  intros [Hs _].
  apply (Permutation_NoDup (Permutation_sym (Permutation_map id Hperm))).
  rewrite map_map. change (fun x => id (record_of_row x)) with row_id.
  apply StronglySorted_lt_NoDup, StronglySorted_map.
  unfold selected. apply StronglySorted_filter, Hs.
Qed.

(** X13: the first record of a query is the earliest one, and among the
    records at that same timestamp the one with the smallest id.  This is
    the record [find_similar_moments] takes as reference. *)
Theorem query_by_timerange_head (db : database) (start_time end_time : float)
    (src_type : option string) (first : vector_record)
    (others : list vector_record) :
  well_formed db ->
  query_by_timerange db start_time end_time src_type = first :: others ->
  Forall (fun r => (timestamp first <=? timestamp r)%float = true /\
                   ((timestamp r =? timestamp first)%float = true ->
                    (id first < id r)%Z))
         others.
Proof.
  intros [Hwf _] Hq.
  pose proof (query_by_timerange_sorted db start_time end_time src_type) as Hs.
  rewrite Hq in Hs. inversion Hs as [|? ? _ Hle]; subst.
  rewrite Forall_forall in Hle |- *. intros r Hr. split; [apply Hle, Hr|].
  intros Heq. rewrite query_by_timerange_rows in Hq.
  destruct (in_split _ _ Hr) as (l2 & l3 & ->).
  apply map_eq_cons in Hq. destruct Hq as (ra & rest & Hsort & <- & Hrest).
  apply map_eq_app in Hrest. destruct Hrest as (r2 & rest' & -> & _ & Hrest).
  apply map_eq_cons in Hrest. destruct Hrest as (rb & r3 & -> & <- & _).
  simpl in Heq |- *. rewrite F64_eqb_sym in Heq.
  apply (order_by_timestamp_ties
           (selected start_time end_time src_type db) [] ra r2 rb r3);
    [|exact Hsort|exact Heq].
  unfold selected. apply StronglySorted_filter, Hwf.
Qed.

Lemma query_by_timerange_head_witness :
  Forall (fun r => (10 <=? timestamp r)%float = true /\
                   ((timestamp r =? 10)%float = true -> (1 < id r)%Z))
         (tl (query_by_timerange tie_db 0 infinity None)).
Proof.
  apply (query_by_timerange_head tie_db 0 infinity None
           (mkRecord 1 "audio" "conversation_audio.wav" 10
                     (JList [JNum 1; JNum 0]) (JObj []))).
  - unfold tie_db, scenario_db, store_visual_vectors, store_audio_vectors.
    apply insert_vectors_well_formed, insert_vectors_well_formed,
          create_tables_well_formed.
  - vm_compute. reflexivity.
Defined.

(** X8: a later store does not disturb earlier results: on a well-formed
    store, the records with an id the store already had, among those the
    same query returns after a loader ran, are the records it returned
    before, in the same order. *)
Theorem query_by_timerange_after_store
    (store_vectors : database -> list feature_vector -> string
                     -> database * outcome unit)
    (db : database) (vectors : list feature_vector) (src_file : string)
    (start_time end_time : float) (src_type : option string) :
  In store_vectors loaders ->
  well_formed db ->
  filter (fun rec => (id rec <=? sequence db)%Z)
         (query_by_timerange (fst (store_vectors db vectors src_file))
                             start_time end_time src_type)
  = query_by_timerange db start_time end_time src_type.
Proof.
  intros Hin [_ Hb].
  destruct (store_vectors_append_only_rows store_vectors db vectors src_file Hin)
    as (added & Ht & Hadded).
  rewrite filter_query_by_timerange, query_by_timerange_rows.
  do 2 f_equal. unfold selected. rewrite Ht, filter_filter, !filter_app.
  rewrite (filter_none _ added), app_nil_r.
  - apply filter_ext_in. intros r Hr. rewrite Forall_forall in Hb.
    specialize (Hb r Hr). simpl.
    replace (row_id r <=? sequence db)%Z with true
      by (symmetry; apply Z.leb_le; exact Hb).
    now rewrite andb_true_r.
  - intros r Hr. rewrite Forall_forall in Hadded. specialize (Hadded r Hr).
    simpl. replace (row_id r <=? sequence db)%Z with false
      by (symmetry; apply Z.leb_gt; exact Hadded).
    now rewrite andb_false_r.
Qed.

Lemma query_by_timerange_after_store_witness :
  filter (fun rec => (id rec <=? sequence scenario_db)%Z)
         (query_by_timerange tie_db 0 infinity (Some "audio"%string))
  = query_by_timerange scenario_db 0 infinity (Some "audio"%string).
Proof.
  apply (query_by_timerange_after_store store_visual_vectors scenario_db).
  - right. left. reflexivity.
  - unfold scenario_db, store_audio_vectors.
    apply insert_vectors_well_formed, create_tables_well_formed.
Defined.

(** X12: a NaN bound selects nothing: the query returns the empty list. *)
Theorem query_by_timerange_nan_bound (db : database)
    (start_time end_time : float) (src_type : option string) :
  F64.ordered start_time = false \/ F64.ordered end_time = false ->
  query_by_timerange db start_time end_time src_type = [].
Proof.
  intros H. rewrite query_by_timerange_rows. unfold selected.
  rewrite filter_none; [reflexivity|].
  intros r _. unfold in_range.
  destruct (start_time <=? row_timestamp r)%float eqn:E1; [|reflexivity].
  destruct (row_timestamp r <=? end_time)%float eqn:E2; [|reflexivity].
  apply F64_leb_ordered in E1, E2. destruct E1 as [E1 _], E2 as [_ E2].
  destruct H as [H|H]; congruence.
Qed.

Lemma query_by_timerange_nan_bound_witness :
  query_by_timerange scenario_db 0 nan None = [].
Proof.
  apply (query_by_timerange_nan_bound scenario_db 0 nan None).
  right. reflexivity.
Defined.

(** ** Similar moments: candidates, window, errors *)


(** X14: only records with a timestamp of 0 or more are ever returned: the
    candidates come from the query over [0, +infinity), so a record stored
    with a negative timestamp is never a similar moment. *)
Theorem find_similar_moments_nonnegative (db : database)
    (target_timestamp window_size : float) (src_type : option string)
    (result : list moment) :
  find_similar_moments db target_timestamp window_size src_type
    = Returned result ->
  Forall (fun m => (0 <=? m_timestamp m)%float = true) result.
Proof.
  intros Hres.
  destruct (query_by_timerange db (target_timestamp - 5) (target_timestamp + 5)
              src_type) as [|first others] eqn:Href.
  - unfold find_similar_moments in Hres. rewrite Href in Hres.
    assert (result = []) by congruence. subst. constructor.
  - destruct (find_similar_moments_candidates _ _ _ _ _ _ _ Href Hres)
      as (sims & Hs & ->).
    rewrite Forall_forall. intros m Hm. apply In_firstn in Hm.
    apply (Permutation_in _ (Permutation_sym (sort_by_similarity_perm sims)))
      in Hm.
    destruct (Forall2_In_r _ _ _ _ Hs Hm) as (r & Hr & Ht & _).
    apply filter_In in Hr. destruct Hr as [Hr _].
    apply in_query_by_timerange in Hr. destruct Hr as (r0 & _ & -> & Hin & _).
    rewrite Ht. unfold in_range in Hin. apply andb_true_iff in Hin.
    exact (proj1 Hin).
Qed.

Lemma find_similar_moments_nonnegative_witness :
  Forall (fun m => (0 <=? m_timestamp m)%float = true)
         [ mkMoment 80 0 (JObj []) ].
Proof.
  apply (find_similar_moments_nonnegative scenario_db 10 30
           (Some "audio"%string)).
  vm_compute. reflexivity.
Defined.



Lemma call_cosine_similarity_type_error (vec1 vec2 : json) (e : pyerror) :
  call_cosine_similarity vec1 vec2 = Raised e -> e = TypeError.
Proof.
  unfold call_cosine_similarity.
  destruct (py_len vec1) as [n1|e1] eqn:E1; cbn [bind].
  - destruct (py_len vec2) as [n2|e2] eqn:E2; cbn [bind].
    + destruct (negb (n1 =? n2)%nat); [discriminate|].
      destruct (py_numbers (py_iter vec1)), (py_numbers (py_iter vec2));
        congruence.
    + destruct vec2; simpl in E2; congruence.
  - destruct vec1; simpl in E1; congruence.
Qed.

Lemma collect_similarities_raises (target_timestamp window_size : float)
    (target_vector : json) (all_vectors : list vector_record) (e : pyerror) :
  collect_similarities target_timestamp window_size target_vector all_vectors
    = Raised e <->
  e = TypeError /\
  exists r, In r all_vectors /\ kept target_timestamp window_size r = true /\
            call_cosine_similarity target_vector (vector r) = Raised TypeError.
Proof.
  revert e. induction all_vectors as [|r l IH]; intros e; simpl.
  - split; [discriminate|]. intros (_ & r & [] & _).
  - unfold kept at 1.
    destruct (abs (timestamp r - target_timestamp) <? window_size)%float eqn:Ek;
      simpl.
    + rewrite IH. split.
      * intros (-> & r' & Hr' & H). split; [reflexivity|]. exists r'. tauto.
      * intros (-> & r' & [<-|Hr'] & Hk & H).
        -- unfold kept in Hk. rewrite Ek in Hk. discriminate.
        -- split; [reflexivity|]. exists r'. tauto.
    + destruct (call_cosine_similarity target_vector (vector r)) as [s|e'] eqn:Es;
        cbn [bind].
      * destruct (collect_similarities target_timestamp window_size
                    target_vector l) as [sims|e''] eqn:Ec; cbn [bind].
        -- split; [discriminate|].
           intros (-> & r' & [<-|Hr'] & Hk & H); [congruence|].
           assert (Hx : Returned sims = Raised TypeError :> outcome (list moment)).
           { apply IH. split; [reflexivity|]. exists r'. tauto. }
           discriminate.
        -- destruct (proj1 (IH e'') eq_refl) as (-> & r' & Hr' & H).
           split.
           ++ intros [= <-]. split; [reflexivity|]. exists r'. tauto.
           ++ intros (-> & _). reflexivity.
      * pose proof (call_cosine_similarity_type_error _ _ _ Es) as ->.
        split.
        -- intros [= <-]. split; [reflexivity|]. exists r.
           unfold kept. rewrite Ek. auto.
        -- intros (-> & _). reflexivity.
Qed.

(** X16: a stored vector whose similarity to the reference cannot be
    computed is not skipped: when it belongs to a candidate outside the
    window, the whole call raises and no moment is returned. *)
Theorem find_similar_moments_malformed_candidate (db : database)
    (target_timestamp window_size : float) (src_type : option string)
    (first : vector_record) (others : list vector_record)
    (r : vector_record) (e : pyerror) :
  query_by_timerange db (target_timestamp - 5) (target_timestamp + 5) src_type
    = first :: others ->
  In r (query_by_timerange db 0 infinity src_type) ->
  kept target_timestamp window_size r = true ->
  call_cosine_similarity (vector first) (vector r) = Raised e ->
  exists e',
    find_similar_moments db target_timestamp window_size src_type = Raised e'.
Proof.
  intros Href Hr Hk He. unfold find_similar_moments. rewrite Href.
  pose proof (call_cosine_similarity_type_error _ _ _ He) as ->.
  assert (H : collect_similarities target_timestamp window_size (vector first)
                (query_by_timerange db 0 infinity src_type) = Raised TypeError).
  { apply collect_similarities_raises. split; [reflexivity|].
    exists r. auto. }
  rewrite H. cbn [bind]. eexists. reflexivity.
Qed.

Lemma find_similar_moments_malformed_candidate_witness :
  exists e', find_similar_moments malformed_db 80 30 (Some "audio"%string)
             = Raised e'.
Proof.
  apply (find_similar_moments_malformed_candidate malformed_db 80 30
           (Some "audio"%string)
           (mkRecord 3 "audio" "conversation_audio.wav" 80
                     (JList [JNum 0; JNum 1]) (JObj []))
           []
           (mkRecord 4 "audio" "noise.wav" 30
                     (JList [JNum 1; JStr "loud"]) (JObj []))
           TypeError).
  - vm_compute. reflexivity.
  - vm_compute. auto.
  - vm_compute. reflexivity.
  - vm_compute. reflexivity.
Defined.

(** ** Cosine similarity: symmetry, zero vectors, malformed items *)

Lemma F64_mul_comm (x y : float) : (x * y)%float = (y * x)%float.
Proof.
  apply Prim2SF_inj. rewrite !mul_spec. unfold SF64mul, SFmul.
  destruct (Prim2SF x) as [sx|sx| |sx mx ex],
           (Prim2SF y) as [sy|sy| |sy my ey];
    try reflexivity; try (now rewrite (xorb_comm sx sy)).
  now rewrite (xorb_comm sx sy), (Pos.mul_comm mx my), (Z.add_comm ex ey).
Qed.

Lemma products_comm (vec1 vec2 : list float) :
  map (fun ab => (fst ab * snd ab)%float) (combine vec1 vec2)
  = map (fun ab => (fst ab * snd ab)%float) (combine vec2 vec1).
Proof.
  revert vec2. induction vec1 as [|a vec1 IH]; intros [|b vec2]; simpl;
    try reflexivity.
  now rewrite IH, F64_mul_comm.
Qed.

(** X17: in binary64 too the similarity does not depend on the order of its
    two arguments. *)
Theorem cosine_similarity_symmetric (vec1 vec2 : list float) :
  cosine_similarity binary64 vec1 vec2 = cosine_similarity binary64 vec2 vec1.
Proof.
  unfold cosine_similarity. rewrite (Nat.eqb_sym (List.length vec1)).
  destruct (negb (List.length vec2 =? List.length vec1)%nat); [reflexivity|].
  cbn [a_mul a_is_zero a_div a_sqrt binary64].
  rewrite (products_comm vec1 vec2).
  rewrite (orb_comm (_ =? 0)%float).
  destruct (_ || _); [reflexivity|].
  now rewrite F64_mul_comm.
Qed.

Lemma F64_square_zero (x : float) :
  (x =? 0)%float = true -> (x * x)%float = 0%float.
Proof.
  rewrite eqb_spec. unfold SFeqb. intros H. apply Prim2SF_inj.
  rewrite mul_spec. change (Prim2SF 0) with (S754_zero false) in *.
  destruct (SFcompare (Prim2SF x) (S754_zero false)) as [[ | | ]|] eqn:E;
    try discriminate.
  apply SFcompare_eq in E.
  destruct (Prim2SF x) as [s|s| |s m e]; try discriminate.
  destruct s; reflexivity.
Qed.

Lemma squares_of_zeros (vec : list float) :
  Forall (fun x => (x =? 0)%float = true) vec ->
  magnitude binary64 vec = 0%float.
Proof.
  intros H. unfold magnitude, py_sum. cbn [a_sqrt a_mul a_add a_zero binary64].
  assert (E : fold_left PrimFloat.add (map (fun a => (a * a)%float) vec) 0%float
              = 0%float).
  { induction H as [|x vec Hx _ IH]; simpl; [reflexivity|].
    rewrite (F64_square_zero x Hx). exact IH. }
  rewrite E. reflexivity.
Qed.

(** X18: a vector of zeros (of either sign, the empty vector included) has
    similarity 0.0 with every vector, whichever side it is on; nothing is
    divided by zero. *)
Theorem cosine_similarity_zero_vector (zeros vec : list float) :
  Forall (fun x => (x =? 0)%float = true) zeros ->
  cosine_similarity binary64 zeros vec = 0%float /\
  cosine_similarity binary64 vec zeros = 0%float.
Proof.
  intros H. pose proof (squares_of_zeros zeros H) as Hm.
  unfold magnitude in Hm. unfold cosine_similarity.
  rewrite (Nat.eqb_sym (List.length vec)).
  destruct (negb (List.length zeros =? List.length vec)%nat);
    [split; reflexivity|].
  rewrite Hm. cbn [a_is_zero a_zero binary64].
  change (0 =? 0)%float with true. rewrite orb_true_r. split; reflexivity.
Qed.

Lemma cosine_similarity_zero_vector_witness :
  cosine_similarity binary64 [0; -0]%float [3; 4]%float = 0%float /\
  cosine_similarity binary64 [3; 4]%float [0; -0]%float = 0%float.
Proof.
  apply (cosine_similarity_zero_vector [0; -0]%float [3; 4]%float).
  repeat constructor.
Defined.

Lemma py_numbers_app (l1 l2 : list json) :
  py_numbers (l1 ++ l2) =
  match py_numbers l1, py_numbers l2 with
  | Some a, Some b => Some (a ++ b)
  | _, _ => None
  end.
Proof.
  induction l1 as [|x l1 IH]; simpl.
  - destruct (py_numbers l2); reflexivity.
  - rewrite IH. destruct (py_number x), (py_numbers l1), (py_numbers l2);
      reflexivity.
Qed.

Lemma py_numbers_none (l : list json) :
  py_numbers l = None <-> Exists (fun x => py_number x = None) l.
Proof.
  induction l as [|x l IH]; simpl.
  - split; [discriminate|]. intros H. inversion H.
  - destruct (py_number x) eqn:Ex.
    + destruct (py_numbers l) eqn:El.
      * split; [discriminate|]. intros H. inversion H; subst; [congruence|].
        apply IH in H1. discriminate.
      * split; [|reflexivity]. intros _. right. now apply IH.
    + split; [|reflexivity]. intros _. now left.
Qed.

(** X19: the lengths are compared before anything is multiplied.  Called on
    two lists, [cosine_similarity] raises [TypeError] exactly when the
    lists are equally long and one of them holds an item that is not a
    number; lists of different lengths give 0.0 whatever they hold. *)
Theorem call_cosine_similarity_lists (items1 items2 : list json) :
  (call_cosine_similarity (JList items1) (JList items2) = Raised TypeError <->
   List.length items1 = List.length items2 /\
   Exists (fun x => py_number x = None) (items1 ++ items2)) /\
  (List.length items1 <> List.length items2 ->
   call_cosine_similarity (JList items1) (JList items2) = Returned 0%float).
Proof.
  unfold call_cosine_similarity. cbn [py_len py_iter bind].
  rewrite <- py_numbers_none, py_numbers_app.
  destruct (Nat.eqb_spec (List.length items1) (List.length items2)) as [E|E];
    cbn [negb].
  - split; [|contradiction].
    destruct (py_numbers items1), (py_numbers items2); split;
      try discriminate; try tauto; intros [_ H]; discriminate.
  - split; [|reflexivity]. split; [discriminate|]. intros [H _]. contradiction.
Qed.

Lemma call_cosine_similarity_lists_witness :
  call_cosine_similarity (JList [JNum 1; JStr "loud"]) (JList [JNum 1])
  = Returned 0%float.
Proof.
  apply (proj2 (call_cosine_similarity_lists [JNum 1; JStr "loud"] [JNum 1])).
  simpl. discriminate.
Defined.

(** ** Summary: counts, keys, bounds *)

Lemma get_conversation_summary_fold (db : database) :
  get_conversation_summary db =
  fold_left summary_step (select_groups db)
            {| total_vectors := 0; duration := 0%float; sources := [] |}.
Proof. reflexivity. Qed.

Lemma select_groups_rows (db : database) :
  select_groups db =
  map (fun s => (s, List.length (rows_of_type s (table db)),
                 sql_min (map row_timestamp (rows_of_type s (table db))),
                 sql_max (map row_timestamp (rows_of_type s (table db)))))
      (group_keys (table db)).
Proof. reflexivity. Qed.

Lemma distinct_source_types_In (s : string) (rows : list row) :
  In s (distinct_source_types rows) <->
  exists r, In r rows /\ row_source_type r = s.
Proof.
  induction rows as [|r rows IH]; simpl.
  - split; [tauto|]. intros (r & [] & _).
  - rewrite filter_In, IH. split.
    + intros [E|[(r' & Hr' & E) _]]; [exists r|exists r']; auto.
    + intros (r' & [E|Hr'] & Hs).
      * left. congruence.
      * destruct (String.eqb_spec s (row_source_type r)) as [E|E];
          [left; congruence|].
        right. split; [exists r'; auto|reflexivity].
Qed.

Lemma distinct_source_types_NoDup (rows : list row) :
  NoDup (distinct_source_types rows).
Proof.
  induction rows as [|r rows IH]; simpl; constructor.
  - rewrite filter_In. intros [_ H]. now rewrite String.eqb_refl in H.
  - apply NoDup_filter, IH.
Qed.

Lemma group_keys_perm (rows : list row) :
  Permutation (distinct_source_types rows) (group_keys rows).
Proof. apply stable_sort_perm. Qed.

Lemma group_keys_In (s : string) (rows : list row) :
  In s (group_keys rows) <-> exists r, In r rows /\ row_source_type r = s.
Proof.
  rewrite <- distinct_source_types_In. unfold group_keys.
  apply stable_sort_In.
Qed.

Lemma group_keys_NoDup (rows : list row) : NoDup (group_keys rows).
Proof.
  apply (Permutation_NoDup (group_keys_perm rows)),
        distinct_source_types_NoDup.
Qed.

Lemma list_sum_perm (l1 l2 : list nat) :
  Permutation l1 l2 -> list_sum l1 = list_sum l2.
Proof. induction 1; simpl; lia. Qed.

Lemma list_sum_split (f : string -> nat) (k : string) (keys : list string) :
  NoDup keys ->
  list_sum (map f keys) =
  (if in_dec string_dec k keys then f k else 0) +
  list_sum (map f (filter (fun s => negb (String.eqb s k)) keys)).
Proof.
  induction 1 as [|s keys Hs Hnd IH]; simpl; [reflexivity|].
  rewrite IH. destruct (String.eqb_spec s k) as [E|E]; simpl.
  - destruct (string_dec s k) as [E1|N]; [|contradiction].
    destruct (in_dec string_dec k keys) as [Hin|_]; [|rewrite E; lia].
    elim Hs. now rewrite E.
  - destruct (string_dec s k) as [E1|N]; [contradiction|].
    destruct (in_dec string_dec k keys); lia.
Qed.

Lemma rows_of_type_cons_other (s : string) (r : row) (rows : list row) :
  String.eqb s (row_source_type r) = false ->
  rows_of_type s (r :: rows) = rows_of_type s rows.
Proof.
  intros H. unfold rows_of_type. simpl.
  now rewrite String.eqb_sym, H.
Qed.

(** The groups partition the table. *)
Lemma distinct_source_types_count (rows : list row) :
  list_sum (map (fun s => List.length (rows_of_type s rows))
                (distinct_source_types rows))
  = List.length rows.
Proof.
  induction rows as [|r rows IH]; [reflexivity|].
  cbn [distinct_source_types map list_sum List.length].
  set (k := row_source_type r).
  rewrite (list_sum_split (fun s => List.length (rows_of_type s rows)) k
             (distinct_source_types rows) (distinct_source_types_NoDup rows))
    in IH.
  assert (Hk : List.length (rows_of_type k (r :: rows))
               = S (List.length (rows_of_type k rows))).
  { unfold rows_of_type. simpl. fold k. now rewrite String.eqb_refl. }
  assert (Hrest : map (fun s => List.length (rows_of_type s (r :: rows)))
                      (filter (fun s => negb (String.eqb s k))
                              (distinct_source_types rows))
                  = map (fun s => List.length (rows_of_type s rows))
                        (filter (fun s => negb (String.eqb s k))
                                (distinct_source_types rows))).
  { apply map_ext_in. intros s Hs. apply filter_In in Hs. destruct Hs as [_ Hs].
    apply negb_true_iff in Hs. now rewrite (rows_of_type_cons_other s r rows Hs). }
  rewrite Hk, Hrest. unfold list_sum in *. cbn [fold_right].
  destruct (in_dec string_dec k (distinct_source_types rows)) as [Hin|Hout].
  - lia.
  - assert (H0 : List.length (rows_of_type k rows) = 0).
    { unfold rows_of_type. rewrite filter_none; [reflexivity|].
      intros r' Hr'. destruct (String.eqb_spec (row_source_type r') k) as [E|E];
        [|reflexivity].
      elim Hout. apply distinct_source_types_In. exists r'. auto. }
    lia.
Qed.

Lemma summary_fold_total (groups : list (string * nat * option float * option float))
    (acc : summary) :
  total_vectors (fold_left summary_step groups acc)
  = total_vectors acc + list_sum (map (fun g => snd (fst (fst g))) groups).
Proof.
  revert acc. induction groups as [|[[[s c] lo] hi] groups IH]; intros acc;
    simpl; [lia|]. rewrite IH. simpl. lia.
Qed.

Lemma summary_fold_sources (groups : list (string * nat * option float * option float))
    (acc : summary) :
  sources (fold_left summary_step groups acc)
  = sources acc ++
    map (fun g => match sources (summary_step
                    {| total_vectors := 0; duration := 0%float; sources := [] |} g)
                  with
                  | e :: _ => e
                  | [] => (EmptyString, mkSource 0 None None 0%float)
                  end) groups.
Proof.
  revert acc. induction groups as [|[[[s c] lo] hi] groups IH]; intros acc;
    simpl; [now rewrite app_nil_r|].
  rewrite IH. simpl. now rewrite <- app_assoc.
Qed.

(** X20: the summary counts every row once: [total_vectors] is the number of
    rows of the table, the keys of [sources] are the source types present,
    each once, and the count under a key is the number of rows of that
    type. *)
Theorem get_conversation_summary_counts (db : database) :
  total_vectors (get_conversation_summary db) = List.length (table db) /\
  NoDup (map fst (sources (get_conversation_summary db))) /\
  (forall s, In s (map fst (sources (get_conversation_summary db))) <->
             exists r, In r (table db) /\ row_source_type r = s) /\
  (forall s e, In (s, e) (sources (get_conversation_summary db)) ->
               count e = List.length (rows_of_type s (table db)) /\
               1 <= count e).
Proof.
  rewrite get_conversation_summary_fold, select_groups_rows.
  assert (Hkeys : map fst (sources (fold_left summary_step
                   (map (fun s => (s, List.length (rows_of_type s (table db)),
                      sql_min (map row_timestamp (rows_of_type s (table db))),
                      sql_max (map row_timestamp (rows_of_type s (table db)))))
                        (group_keys (table db)))
                   {| total_vectors := 0; duration := 0%float; sources := [] |}))
                  = group_keys (table db)).
  { rewrite summary_fold_sources. simpl. rewrite !map_map. simpl.
    apply map_id. }
  split; [|split; [|split]].
  - rewrite summary_fold_total. simpl. rewrite map_map. simpl.
    rewrite <- (list_sum_perm _ _
                  (Permutation_map _ (group_keys_perm (table db)))).
    apply distinct_source_types_count.
  - rewrite Hkeys. apply group_keys_NoDup.
  - intros s. rewrite Hkeys. apply group_keys_In.
  - intros s e. rewrite summary_fold_sources. simpl. rewrite map_map.
    intros H. apply in_map_iff in H. destruct H as (k & H & Hk).
    simpl in H. injection H as <- <-. simpl. split; [reflexivity|].
    apply group_keys_In in Hk. destruct Hk as (r & Hr & Hs).
    assert (Hin : In r (rows_of_type k (table db))).
    { unfold rows_of_type. apply filter_In. split; [exact Hr|].
      rewrite Hs. apply String.eqb_refl. }
    destruct (rows_of_type k (table db)); [destruct Hin|simpl; lia].
Qed.

Lemma sql_min_spec (x : float) (l : list float) :
  F64.ordered x = true -> Forall (fun y => F64.ordered y = true) l ->
  exists lo, sql_min (x :: l) = Some lo /\ In lo (x :: l) /\
             Forall (fun y => (lo <=? y)%float = true) (x :: l).
Proof.
  intros Hx Hl. simpl. eexists. split; [reflexivity|].
  revert x Hx. induction Hl as [|y l Hy _ IH]; intros x Hx.
  - simpl. split; [now left|]. constructor; [exact Hx|constructor].
  - cbn [fold_left].
    set (x' := if (y <? x)%float then y else x).
    assert (Hx' : F64.ordered x' = true) by (unfold x'; destruct (y <? x)%float; assumption).
    assert (Hle : (x' <=? x)%float = true /\ (x' <=? y)%float = true).
    { unfold x'. destruct (y <? x)%float eqn:E.
      - split; [apply F64_ltb_leb, E|exact Hy].
      - split; [exact Hx|apply F64_not_ltb; assumption]. }
    destruct (IH x' Hx') as [Hin Hall].
    inversion Hall as [|? ? Hm Hrest]; subst. split.
    + destruct Hin as [Hin|Hin]; [|right; right; exact Hin].
      rewrite <- Hin. unfold x'. destruct (y <? x)%float; [right|]; now left.
    + constructor; [exact (F64_leb_trans _ _ _ Hm (proj1 Hle))|].
      constructor; [exact (F64_leb_trans _ _ _ Hm (proj2 Hle))|exact Hrest].
Qed.

Lemma sql_max_spec (x : float) (l : list float) :
  F64.ordered x = true -> Forall (fun y => F64.ordered y = true) l ->
  exists hi, sql_max (x :: l) = Some hi /\ In hi (x :: l) /\
             Forall (fun y => (y <=? hi)%float = true) (x :: l).
Proof.
  intros Hx Hl. simpl. eexists. split; [reflexivity|].
  revert x Hx. induction Hl as [|y l Hy _ IH]; intros x Hx.
  - simpl. split; [now left|]. constructor; [exact Hx|constructor].
  - cbn [fold_left].
    set (x' := if (x <? y)%float then y else x).
    assert (Hx' : F64.ordered x' = true) by (unfold x'; destruct (x <? y)%float; assumption).
    assert (Hle : (x <=? x')%float = true /\ (y <=? x')%float = true).
    { unfold x'. destruct (x <? y)%float eqn:E.
      - split; [apply F64_ltb_leb, E|exact Hy].
      - split; [exact Hx|apply F64_not_ltb; assumption]. }
    destruct (IH x' Hx') as [Hin Hall].
    inversion Hall as [|? ? Hm Hrest]; subst. split.
    + destruct Hin as [Hin|Hin]; [|right; right; exact Hin].
      rewrite <- Hin. unfold x'. destruct (x <? y)%float; [right|]; now left.
    + constructor; [exact (F64_leb_trans _ _ _ (proj1 Hle) Hm)|].
      constructor; [exact (F64_leb_trans _ _ _ (proj2 Hle) Hm)|exact Hrest].
Qed.

Lemma fold_py_max_spec (values : list float) (a : float) :
  F64.ordered a = true -> Forall (fun v => F64.ordered v = true) values ->
  (a <=? fold_left py_max values a)%float = true /\
  Forall (fun v => (v <=? fold_left py_max values a)%float = true) values /\
  (fold_left py_max values a = a \/ In (fold_left py_max values a) values).
Proof.
  intros Ha Hv. revert a Ha. induction Hv as [|v values Hv _ IH]; intros a Ha.
  - simpl. split; [exact Ha|]. split; [constructor|now left].
  - cbn [fold_left].
    assert (Ha' : F64.ordered (py_max a v) = true)
      by (unfold py_max; destruct (a <? v)%float; assumption).
    assert (Hle : (a <=? py_max a v)%float = true /\ (v <=? py_max a v)%float = true).
    { unfold py_max. destruct (a <? v)%float eqn:E.
      - split; [apply F64_ltb_leb, E|exact Hv].
      - split; [exact Ha|apply F64_not_ltb; assumption]. }
    destruct (IH _ Ha') as (H1 & H2 & H3). split; [|split].
    + exact (F64_leb_trans _ _ _ (proj1 Hle) H1).
    + constructor; [exact (F64_leb_trans _ _ _ (proj2 Hle) H1)|exact H2].
    + destruct H3 as [H3|H3]; [|right; right; exact H3].
      rewrite H3. unfold py_max. destruct (a <? v)%float; [right|]; now left.
Qed.

Lemma summary_fold_duration
    (groups : list (string * nat * option float * option float))
    (acc : summary) :
  duration (fold_left summary_step groups acc)
  = fold_left py_max (map group_latest groups) (duration acc).
Proof.
  revert acc. induction groups as [|[[[s c] lo] hi] groups IH]; intros acc;
    simpl; [reflexivity|]. now rewrite IH.
Qed.

Lemma rows_of_type_ordered (db : database) (s : string) :
  timestamps_stored db ->
  Forall (fun y => F64.ordered y = true)
         (map row_timestamp (rows_of_type s (table db))).
Proof.
  intros H. unfold timestamps_stored in H. rewrite Forall_forall in H |- *.
  intros y Hy. apply in_map_iff in Hy. destruct Hy as (r & <- & Hr).
  apply filter_In in Hr. apply H, Hr.
Qed.

(** The minimum and maximum of a source type that has rows. *)
Lemma group_bounds (db : database) (s : string) :
  timestamps_stored db -> In s (group_keys (table db)) ->
  exists lo hi,
    sql_min (map row_timestamp (rows_of_type s (table db))) = Some lo /\
    sql_max (map row_timestamp (rows_of_type s (table db))) = Some hi /\
    In lo (map row_timestamp (rows_of_type s (table db))) /\
    In hi (map row_timestamp (rows_of_type s (table db))) /\
    Forall (fun y => (lo <=? y)%float = true /\ (y <=? hi)%float = true)
           (map row_timestamp (rows_of_type s (table db))).
Proof.
  intros Hst Hs. apply group_keys_In in Hs. destruct Hs as (r & Hr & Hs).
  pose proof (rows_of_type_ordered db s Hst) as Hord.
  assert (Hin : In r (rows_of_type s (table db))).
  { unfold rows_of_type. apply filter_In. split; [exact Hr|].
    rewrite Hs. apply String.eqb_refl. }
  destruct (map row_timestamp (rows_of_type s (table db))) as [|x l] eqn:E.
  - apply (in_map row_timestamp) in Hin. rewrite E in Hin. destruct Hin.
  - inversion Hord as [|? ? Hx Hl]; subst.
    destruct (sql_min_spec x l Hx Hl) as (lo & E1 & I1 & A1).
    destruct (sql_max_spec x l Hx Hl) as (hi & E2 & I2 & A2).
    exists lo, hi. repeat split; try assumption.
    rewrite Forall_forall in A1, A2 |- *. intros y Hy. split; auto.
Qed.

(** X21: for each source type the summary gives the earliest and the latest
    timestamp of its rows: both are timestamps of rows of the type and
    every row of the type lies between them; the duration of the type is
    their difference when neither of them is zero, and 0 otherwise. *)
Theorem get_conversation_summary_bounds (db : database) (s : string)
    (e : source_summary) :
  timestamps_stored db ->
  In (s, e) (sources (get_conversation_summary db)) ->
  exists lo hi,
    min_timestamp e = Some lo /\ max_timestamp e = Some hi /\
    (exists r, In r (table db) /\ row_source_type r = s /\ row_timestamp r = lo) /\
    (exists r, In r (table db) /\ row_source_type r = s /\ row_timestamp r = hi) /\
    (forall r, In r (table db) -> row_source_type r = s ->
               (lo <=? row_timestamp r)%float = true /\
               (row_timestamp r <=? hi)%float = true) /\
    src_duration e
    = if truthy_float hi && truthy_float lo then (hi - lo)%float else 0%float.
Proof.
  intros Hst. rewrite get_conversation_summary_fold, select_groups_rows.
  rewrite summary_fold_sources. simpl. rewrite map_map.
  intros H. apply in_map_iff in H. destruct H as (k & H & Hk).
  simpl in H. injection H as <- <-.
  destruct (group_bounds db k Hst Hk) as (lo & hi & E1 & E2 & I1 & I2 & A).
  exists lo, hi. cbn [min_timestamp max_timestamp src_duration].
  rewrite E1, E2.
  assert (Hrow : forall t, In t (map row_timestamp (rows_of_type k (table db))) ->
                 exists r, In r (table db) /\ row_source_type r = k /\
                           row_timestamp r = t).
  { intros t Ht. apply in_map_iff in Ht. destruct Ht as (r & <- & Hr).
    apply filter_In in Hr. destruct Hr as [Hr Hs].
    apply String.eqb_eq in Hs. exists r. auto. }
  repeat split; auto.
  - rewrite Forall_forall in A. apply A, in_map, filter_In. split; [assumption|].
    subst k. apply String.eqb_refl.
  - rewrite Forall_forall in A. apply A, in_map, filter_In. split; [assumption|].
    subst k. apply String.eqb_refl.
Qed.

Lemma get_conversation_summary_bounds_witness :
  exists lo hi,
    Some 10%float = Some lo /\ Some 80%float = Some hi /\
    (exists r, In r (table scenario_db) /\ row_source_type r = "audio"%string /\
               row_timestamp r = lo) /\
    (exists r, In r (table scenario_db) /\ row_source_type r = "audio"%string /\
               row_timestamp r = hi) /\
    (forall r, In r (table scenario_db) -> row_source_type r = "audio"%string ->
               (lo <=? row_timestamp r)%float = true /\
               (row_timestamp r <=? hi)%float = true) /\
    70%float = if truthy_float hi && truthy_float lo then (hi - lo)%float else 0%float.
Proof.
  apply (get_conversation_summary_bounds scenario_db "audio"
           (mkSource 3 (Some 10%float) (Some 80%float) 70)).
  - repeat constructor.
  - vm_compute. left. reflexivity.
Defined.

Lemma group_latest_spec (db : database) (s : string) :
  timestamps_stored db -> In s (group_keys (table db)) ->
  let latest :=
    group_latest (s, List.length (rows_of_type s (table db)),
                  sql_min (map row_timestamp (rows_of_type s (table db))),
                  sql_max (map row_timestamp (rows_of_type s (table db)))) in
  F64.ordered latest = true /\
  (forall r, In r (table db) -> row_source_type r = s ->
             (row_timestamp r <=? latest)%float = true) /\
  (latest = 0%float \/ exists r, In r (table db) /\ latest = row_timestamp r).
Proof.
  intros Hst Hs.
  destruct (group_bounds db s Hst Hs) as (lo & hi & _ & E2 & _ & I2 & A).
  unfold group_latest. cbn [snd]. rewrite E2.
  assert (Hhi : F64.ordered hi = true).
  { pose proof (rows_of_type_ordered db s Hst) as Hord.
    rewrite Forall_forall in Hord. apply Hord, I2. }
  assert (Hle : forall r, In r (table db) -> row_source_type r = s ->
                (row_timestamp r <=? hi)%float = true).
  { intros r Hr Hrs. rewrite Forall_forall in A.
    apply A, in_map, filter_In. split; [exact Hr|].
    rewrite Hrs. apply String.eqb_refl. }
  unfold truthy_float. destruct (hi =? 0)%float eqn:E; cbn [negb].
  - split; [reflexivity|]. split; [|now left].
    intros r Hr Hrs. rewrite F64_eqb_leb in E. apply andb_true_iff in E.
    exact (F64_leb_trans _ _ _ (Hle r Hr Hrs) (proj1 E)).
  - split; [exact Hhi|]. split; [exact Hle|]. right.
    apply in_map_iff in I2. destruct I2 as (r & <- & Hr).
    apply filter_In in Hr. exists r. tauto.
Qed.

(** X22: the overall duration is the latest timestamp of the table, or 0 when
    no timestamp is above 0: no row is later than it, it is never
    negative, and it is 0 or the timestamp of a row. *)
Theorem get_conversation_summary_duration (db : database) :
  timestamps_stored db ->
  (forall r, In r (table db) ->
     (row_timestamp r <=? duration (get_conversation_summary db))%float = true) /\
  (0 <=? duration (get_conversation_summary db))%float = true /\
  (duration (get_conversation_summary db) = 0%float \/
   exists r, In r (table db) /\
             duration (get_conversation_summary db) = row_timestamp r).
Proof.
  intros Hst. rewrite get_conversation_summary_fold, select_groups_rows.
  rewrite summary_fold_duration, map_map. cbn [duration].
  set (latest := fun s =>
         group_latest (s, List.length (rows_of_type s (table db)),
                       sql_min (map row_timestamp (rows_of_type s (table db))),
                       sql_max (map row_timestamp (rows_of_type s (table db))))).
  assert (Hord : Forall (fun v => F64.ordered v = true)
                        (map latest (group_keys (table db)))).
  { rewrite Forall_forall. intros v Hv. apply in_map_iff in Hv.
    destruct Hv as (s & <- & Hs). apply (group_latest_spec db s Hst Hs). }
  destruct (fold_py_max_spec (map latest (group_keys (table db))) 0%float
              eq_refl Hord) as (H0 & Hall & Hin).
  split; [|split].
  - intros r Hr.
    assert (Hs : In (row_source_type r) (group_keys (table db)))
      by (apply group_keys_In; exists r; auto).
    destruct (group_latest_spec db _ Hst Hs) as (_ & Hle & _).
    rewrite Forall_forall in Hall.
    exact (F64_leb_trans _ _ _ (Hle r Hr eq_refl)
             (Hall _ (in_map latest _ _ Hs))).
  - exact H0.
  - destruct Hin as [Hin|Hin]; [now left|].
    apply in_map_iff in Hin. destruct Hin as (s & Es & Hs).
    destruct (group_latest_spec db s Hst Hs) as (_ & _ & [Hz|(r & Hr & Er)]).
    + left. rewrite <- Es. exact Hz.
    + right. exists r. split; [exact Hr|]. rewrite <- Es. exact Er.
Qed.

Lemma get_conversation_summary_duration_witness :
  (forall r, In r (table tie_db) ->
     (row_timestamp r <=? duration (get_conversation_summary tie_db))%float = true) /\
  (0 <=? duration (get_conversation_summary tie_db))%float = true /\
  (duration (get_conversation_summary tie_db) = 0%float \/
   exists r, In r (table tie_db) /\
             duration (get_conversation_summary tie_db) = row_timestamp r).
Proof.
  apply (get_conversation_summary_duration tie_db). repeat constructor.
Defined.

(** ** Invariants of the store *)

Lemma insert_vectors_timestamps (src_type : string)
    (vectors : list feature_vector) (src_file : string) (db : database) :
  timestamps_stored db ->
  timestamps_stored (fst (insert_vectors src_type vectors src_file db)).
Proof.
  revert db. induction vectors as [|v vectors IH]; intros db H; [exact H|].
  cbn [insert_vectors]. unfold execute_insert.
  destruct (F64.ordered (fv_timestamp v)) eqn:Hv; [|exact H].
  apply IH. unfold timestamps_stored. cbn [table].
  apply Forall_app. split; [exact H|].
  constructor; [|constructor]. cbn [row_timestamp].
  now rewrite sqlite_real_ordered.
Qed.

(** X5: the loaders keep the store well formed: starting from a database
    whose ids increase along the table below the counter and whose
    timestamps are numbers, a loader (returning or raising) leaves such a
    database; a fresh database is one. *)
Theorem store_vectors_invariants
    (store_vectors : database -> list feature_vector -> string
                     -> database * outcome unit)
    (db : database) (vectors : list feature_vector) (src_file : string) :
  In store_vectors loaders ->
  well_formed db /\ timestamps_stored db ->
  well_formed (fst (store_vectors db vectors src_file)) /\
  timestamps_stored (fst (store_vectors db vectors src_file)) /\
  NoDup (map row_id (table (fst (store_vectors db vectors src_file)))).
Proof.
  intros Hin [Hwf Hts].
  assert (H : well_formed (fst (store_vectors db vectors src_file)) /\
              timestamps_stored (fst (store_vectors db vectors src_file))).
  { destruct Hin as [<-|[<-|[<-|[]]]];
      unfold store_audio_vectors, store_visual_vectors, store_semantic_vectors;
      (split; [apply insert_vectors_well_formed, Hwf
              |apply insert_vectors_timestamps, Hts]). }
  destruct H as [H1 H2]. repeat split; try assumption; try apply H1.
  apply StronglySorted_lt_NoDup, StronglySorted_map, H1.
Qed.

Lemma store_vectors_invariants_witness :
  well_formed scenario_db /\ timestamps_stored scenario_db /\
  NoDup (map row_id (table scenario_db)).
Proof.
  apply (store_vectors_invariants store_audio_vectors create_tables
           scenario_vectors "conversation_audio.wav").
  - left. reflexivity.
  - split; [apply create_tables_well_formed|constructor].
Defined.

(** ** Storing, then reading *)

Lemma tagged_loaders_insert (tag : string)
    (store_vectors : database -> list feature_vector -> string
                     -> database * outcome unit) :
  In (tag, store_vectors) tagged_loaders ->
  tag <> EmptyString /\
  forall db vectors src_file,
    store_vectors db vectors src_file = insert_vectors tag vectors src_file db.
Proof.
  intros [H|[H|[H|[]]]]; injection H as <- <-; split;
    try discriminate; reflexivity.
Qed.

Lemma new_rows_In (src_type src_file : string) (seq : Z)
    (vectors : list feature_vector) (r : row) :
  In r (new_rows src_type src_file seq vectors) ->
  row_source_type r = src_type /\ row_source_file r = src_file /\
  (seq < row_id r)%Z /\
  exists v, In v vectors /\
            row_timestamp r = sqlite_real (fv_timestamp v) /\
            row_vector_data r = fv_dense_vector v /\
            row_metadata r = Some (fv_features v).
Proof.
  revert seq. induction vectors as [|v vectors IH]; intros seq; simpl; [tauto|].
  intros [<-|Hr].
  - simpl. repeat split; try lia. exists v. auto.
  - destruct (IH _ Hr) as (H1 & H2 & H3 & v' & Hv' & H4).
    repeat split; try assumption; try lia. exists v'. auto.
Qed.

Lemma new_rows_of (src_type src_file : string) (seq : Z)
    (vectors : list feature_vector) (v : feature_vector) :
  In v vectors ->
  exists r, In r (new_rows src_type src_file seq vectors) /\
            row_source_type r = src_type /\ row_source_file r = src_file /\
            (seq < row_id r)%Z /\
            row_timestamp r = sqlite_real (fv_timestamp v) /\
            row_vector_data r = fv_dense_vector v /\
            row_metadata r = Some (fv_features v).
Proof.
  revert seq. induction vectors as [|v' vectors IH]; intros seq; simpl; [tauto|].
  intros [->|Hv].
  - eexists. split; [left; reflexivity|]. simpl. repeat split. lia.
  - destruct (IH (seq + 1)%Z Hv) as (r & Hr & H1 & H2 & H3 & H4).
    exists r. split; [now right|]. repeat split; try tauto. lia.
Qed.

(** X6: what is stored can be read back under its type, whatever the store
    held before: after a loader returned, each record of the batch whose
    timestamp is in the range comes back from the query filtered on the
    loader's source type, with the submitted fields (the timestamp an
    equal number, and the same float unless [-0.0] was submitted; the
    vector and the metadata the same values), the loader's type, the given
    file and a new id. *)
Theorem store_then_query_finds (tag : string)
    (store_vectors : database -> list feature_vector -> string
                     -> database * outcome unit)
    (db : database) (vectors : list feature_vector) (src_file : string)
    (start_time end_time : float) (v : feature_vector) :
  In (tag, store_vectors) tagged_loaders ->
  snd (store_vectors db vectors src_file) = Returned tt ->
  In v vectors ->
  (start_time <=? fv_timestamp v)%float = true ->
  (fv_timestamp v <=? end_time)%float = true ->
  exists rec,
    In rec (query_by_timerange (fst (store_vectors db vectors src_file))
              start_time end_time (Some tag)) /\
    same_fields (returned_fields rec) (stored_fields v) /\
    source_type rec = tag /\ source_file rec = src_file /\
    (sequence db < id rec)%Z.
Proof.
  intros Htag Hret Hv H1 H2.
  destruct (tagged_loaders_insert tag store_vectors Htag) as [Hne Hst].
  rewrite Hst in Hret |- *.
  apply insert_vectors_returns_ordered in Hret.
  rewrite (insert_vectors_accepts _ _ _ _ Hret). cbn [fst].
  assert (Hord : F64.ordered (fv_timestamp v) = true).
  { rewrite Forall_forall in Hret. apply Hret, Hv. }
  destruct (new_rows_of tag src_file (sequence db) vectors v Hv)
    as (r & Hr & Ht & Hf & Hid & Ets & Evec & Emeta).
  exists (record_of_row r). split; [|split; [|split; [|split]]].
  - apply in_query_by_timerange. exists r. cbn [table].
    split; [apply in_or_app; now right|]. split; [reflexivity|]. split.
    + unfold in_range.
      now rewrite Ets, sqlite_real_leb_l, sqlite_real_leb_r, H1, H2.
    + unfold matches_filter. destruct tag as [|c s]; [now elim Hne|].
      rewrite Ht. apply String.eqb_refl.
  - unfold same_fields, returned_fields, stored_fields, record_of_row. simpl.
    rewrite Ets, Evec, Emeta. split; [apply sqlite_real_eqb, Hord|].
    split; [apply sqlite_real_same|]. split; reflexivity.
  - exact Ht.
  - exact Hf.
  - exact Hid.
Qed.

Lemma store_then_query_finds_witness :
  exists rec,
    In rec (query_by_timerange tie_db 15 25 (Some "visual"%string)) /\
    same_fields (returned_fields rec) (20%float, JList [JNum 3], JNull) /\
    source_type rec = "visual"%string /\
    source_file rec = "google_meet.mp4"%string /\
    (sequence scenario_db < id rec)%Z.
Proof.
  apply (store_then_query_finds "visual" store_visual_vectors scenario_db
           [ mkFeature 20 (JList [JNum 3]) JNull;
             mkFeature 10 (JList [JNum 4]) JNull ]
           "google_meet.mp4" 15 25 (mkFeature 20 (JList [JNum 3]) JNull)).
  - right. left. reflexivity.
  - vm_compute. reflexivity.
  - left. reflexivity.
  - vm_compute. reflexivity.
  - vm_compute. reflexivity.
Defined.

(** X7: a loader does not touch the other source types: the query filtered
    on another type returns after the call, successful or not, what it
    returned before. *)
Theorem store_other_type_unchanged (tag : string)
    (store_vectors : database -> list feature_vector -> string
                     -> database * outcome unit)
    (db : database) (vectors : list feature_vector) (src_file : string)
    (start_time end_time : float) (c : ascii) (s : string) :
  In (tag, store_vectors) tagged_loaders ->
  String c s <> tag ->
  query_by_timerange (fst (store_vectors db vectors src_file))
                     start_time end_time (Some (String c s))
  = query_by_timerange db start_time end_time (Some (String c s)).
Proof.
  intros Htag Hne.
  destruct (tagged_loaders_insert tag store_vectors Htag) as [_ Hst].
  rewrite Hst. destruct (insert_vectors_prefix tag vectors src_file db)
    as [k ->].
  rewrite !query_by_timerange_rows. do 2 f_equal. unfold selected, appended.
  cbn [table]. rewrite filter_app.
  rewrite (filter_none _ (new_rows tag src_file (sequence db) (firstn k vectors)));
    [apply app_nil_r|].
  intros r Hr. apply new_rows_In in Hr. destruct Hr as (Ht & _).
  unfold matches_filter. rewrite Ht.
  destruct (String.eqb_spec tag (String c s)) as [E|E]; [congruence|].
  apply andb_false_r.
Qed.

Lemma store_other_type_unchanged_witness :
  query_by_timerange tie_db 0 infinity (Some "audio"%string)
  = query_by_timerange scenario_db 0 infinity (Some "audio"%string).
Proof.
  apply (store_other_type_unchanged "visual" store_visual_vectors scenario_db).
  - right. left. reflexivity.
  - discriminate.
Defined.

Lemma total_vectors_rows (db : database) :
  total_vectors (get_conversation_summary db) = List.length (table db).
Proof.
  rewrite get_conversation_summary_fold, select_groups_rows.
  rewrite summary_fold_total. simpl. rewrite map_map. simpl.
  rewrite <- (list_sum_perm _ _
                (Permutation_map _ (group_keys_perm (table db)))).
  apply distinct_source_types_count.
Qed.

(** X23: the summary follows the loaders: after a loader returned, the total
    of the summary has grown by the size of the batch. *)
Theorem store_then_summary_total
    (store_vectors : database -> list feature_vector -> string
                     -> database * outcome unit)
    (db : database) (vectors : list feature_vector) (src_file : string) :
  In store_vectors loaders ->
  snd (store_vectors db vectors src_file) = Returned tt ->
  total_vectors (get_conversation_summary (fst (store_vectors db vectors src_file)))
  = total_vectors (get_conversation_summary db) + List.length vectors.
Proof.
  intros Hin Hret. rewrite !total_vectors_rows.
  assert (H : exists st, store_vectors db vectors src_file
                         = insert_vectors st vectors src_file db).
  { destruct Hin as [<-|[<-|[<-|[]]]]; eexists; reflexivity. }
  destruct H as [st H]. rewrite H in Hret |- *.
  apply insert_vectors_returns_ordered in Hret.
  rewrite (insert_vectors_accepts _ _ _ _ Hret). cbn [fst table].
  now rewrite length_app, new_rows_length.
Qed.

Lemma store_then_summary_total_witness :
  total_vectors (get_conversation_summary scenario_db)
  = total_vectors (get_conversation_summary create_tables)
    + List.length scenario_vectors.
Proof.
  apply (store_then_summary_total store_audio_vectors create_tables
           scenario_vectors "conversation_audio.wav").
  - left. reflexivity.
  - vm_compute. reflexivity.
Defined.

(** ** The extractors' vectors *)

Lemma py_index_found {A : Type} (l : list A) (i : nat) :
  i < List.length l -> exists a, py_index l i = inl a /\ nth_error l i = Some a.
Proof.
  intros H. unfold py_index.
  destruct (nth_error l i) as [a|] eqn:E; [exists a; auto|].
  apply nth_error_None in E. lia.
Qed.

Lemma py_index_missing {A : Type} (l : list A) (i : nat) :
  List.length l <= i -> py_index l i = inr IndexError.
Proof.
  intros H. unfold py_index. now rewrite (proj2 (nth_error_None l i) H).
Qed.

Lemma create_vectors_from_returns (features : audio_features) (i n : nat) :
  i + n <= shortest_list features ->
  exists vectors,
    create_vectors_from features i n = inl vectors /\
    List.length vectors = n /\
    (forall k, k < n ->
       exists t rms peak zcr centroid ratio,
         nth_error (timestamps features) (i + k) = Some t /\
         nth_error (rms_energy features) (i + k) = Some rms /\
         nth_error (peak_amplitude features) (i + k) = Some peak /\
         nth_error (zero_crossing_rate features) (i + k) = Some zcr /\
         nth_error (spectral_centroid_approx features) (i + k) = Some centroid /\
         nth_error (energy_ratio features) (i + k) = Some ratio /\
         nth_error vectors k = Some (audio_vector t rms peak zcr centroid ratio)).
Proof.
  unfold shortest_list. revert i. induction n as [|n IH]; intros i Hn.
  - exists []. repeat split. intros k Hk. lia.
  - cbn [create_vectors_from].
    destruct (py_index_found (timestamps features) i) as (t & -> & Et); [lia|].
    destruct (py_index_found (rms_energy features) i) as (r & -> & Er); [lia|].
    destruct (py_index_found (peak_amplitude features) i) as (p & -> & Ep); [lia|].
    destruct (py_index_found (zero_crossing_rate features) i) as (z & -> & Ez); [lia|].
    destruct (py_index_found (spectral_centroid_approx features) i)
      as (c & -> & Ec); [lia|].
    destruct (py_index_found (energy_ratio features) i) as (e & -> & Ee); [lia|].
    destruct (IH (S i)) as (vectors & -> & Hlen & Hnth); [lia|].
    eexists. split; [reflexivity|]. split; [simpl; now rewrite Hlen|].
    intros [|k] Hk.
    + rewrite Nat.add_0_r. exists t, r, p, z, c, e. repeat split; assumption.
    + destruct (Hnth k) as (t' & r' & p' & z' & c' & e' & H); [lia|].
      replace (i + S k) with (S i + k) by lia.
      exists t', r', p', z', c', e'. exact H.
Qed.

Lemma create_vectors_from_raises (features : audio_features) (i n : nat) :
  i <= shortest_list features -> shortest_list features < i + n ->
  create_vectors_from features i n = inr IndexError.
Proof.
  unfold shortest_list. revert i. induction n as [|n IH]; intros i Hi Hn.
  - lia.
  - cbn [create_vectors_from].
    destruct (Nat.le_gt_cases
                (Nat.min (List.length (timestamps features))
                   (Nat.min (List.length (rms_energy features))
                      (Nat.min (List.length (peak_amplitude features))
                         (Nat.min (List.length (zero_crossing_rate features))
                            (Nat.min (List.length (spectral_centroid_approx features))
                                     (List.length (energy_ratio features)))))))
                i) as [Hshort|Hlong].
    + destruct (py_index (timestamps features) i) as [t|[]] eqn:Et; [|reflexivity].
      destruct (py_index (rms_energy features) i) as [r|[]] eqn:Er; [|reflexivity].
      destruct (py_index (peak_amplitude features) i) as [p|[]] eqn:Ep; [|reflexivity].
      destruct (py_index (zero_crossing_rate features) i) as [z|[]] eqn:Ez;
        [|reflexivity].
      destruct (py_index (spectral_centroid_approx features) i) as [c|[]] eqn:Ec;
        [|reflexivity].
      destruct (py_index (energy_ratio features) i) as [e|[]] eqn:Ee;
        [|reflexivity].
      exfalso. unfold py_index in *.
      destruct (nth_error (timestamps features) i) eqn:N1; [|discriminate].
      destruct (nth_error (rms_energy features) i) eqn:N2; [|discriminate].
      destruct (nth_error (peak_amplitude features) i) eqn:N3; [|discriminate].
      destruct (nth_error (zero_crossing_rate features) i) eqn:N4; [|discriminate].
      destruct (nth_error (spectral_centroid_approx features) i) eqn:N5;
        [|discriminate].
      destruct (nth_error (energy_ratio features) i) eqn:N6; [|discriminate].
      assert (H1 : nth_error (timestamps features) i <> None) by congruence.
      assert (H2 : nth_error (rms_energy features) i <> None) by congruence.
      assert (H3 : nth_error (peak_amplitude features) i <> None) by congruence.
      assert (H4 : nth_error (zero_crossing_rate features) i <> None) by congruence.
      assert (H5 : nth_error (spectral_centroid_approx features) i <> None)
        by congruence.
      assert (H6 : nth_error (energy_ratio features) i <> None) by congruence.
      apply nth_error_Some in H1, H2, H3, H4, H5, H6. lia.
    + rewrite (IH (S i)) by lia.
      destruct (py_index (timestamps features) i) as [t|[]]; [|reflexivity].
      destruct (py_index (rms_energy features) i) as [r|[]]; [|reflexivity].
      destruct (py_index (peak_amplitude features) i) as [p|[]]; [|reflexivity].
      destruct (py_index (zero_crossing_rate features) i) as [z|[]]; [|reflexivity].
      destruct (py_index (spectral_centroid_approx features) i) as [c|[]];
        [|reflexivity].
      destruct (py_index (energy_ratio features) i) as [e|[]]; reflexivity.
Qed.

(** X24: [create_vectors] needs [num_frames] items in each of the six lists.
    With that many it returns [num_frames] vectors, the i-th made of the
    i-th items: the timestamp, and the five features in the order rms
    energy, peak amplitude, zero crossing rate, spectral centroid, energy
    ratio.  With a list that is shorter it raises [IndexError] and returns
    no vector at all. *)
Theorem create_vectors_spec (features : audio_features) :
  (Z.to_nat (num_frames features) <= shortest_list features ->
   exists vectors,
     create_vectors features = inl vectors /\
     List.length vectors = Z.to_nat (num_frames features) /\
     (forall k, k < Z.to_nat (num_frames features) ->
        exists t rms peak zcr centroid ratio,
          nth_error (timestamps features) k = Some t /\
          nth_error (rms_energy features) k = Some rms /\
          nth_error (peak_amplitude features) k = Some peak /\
          nth_error (zero_crossing_rate features) k = Some zcr /\
          nth_error (spectral_centroid_approx features) k = Some centroid /\
          nth_error (energy_ratio features) k = Some ratio /\
          nth_error vectors k = Some (audio_vector t rms peak zcr centroid ratio))) /\
  (shortest_list features < Z.to_nat (num_frames features) ->
   create_vectors features = inr IndexError).
Proof.
  unfold create_vectors. split; intros H.
  - apply (create_vectors_from_returns features 0). exact H.
  - apply create_vectors_from_raises; [lia|exact H].
Qed.

Lemma create_vectors_spec_witness :
  create_vectors (mkAudioFeatures 3 [0; 1]%float [1; 2; 3]%float [1; 2; 3]%float
                    [1; 2; 3]%float [1; 2; 3]%float [1; 2; 3]%float)
  = inr IndexError.
Proof.
  apply (proj2 (create_vectors_spec
                  (mkAudioFeatures 3 [0; 1]%float [1; 2; 3]%float [1; 2; 3]%float
                     [1; 2; 3]%float [1; 2; 3]%float [1; 2; 3]%float))).
  vm_compute. lia.
Defined.

Lemma create_vectors_from_numeric (features : audio_features) (i n : nat)
    (vectors : list feature_vector) :
  create_vectors_from features i n = inl vectors ->
  Forall (fun v => exists a b c d e,
            fv_dense_vector v = json_vector [a; b; c; d; e]) vectors.
Proof.
  revert i vectors. induction n as [|n IH]; intros i vectors; cbn [create_vectors_from].
  - intros [= <-]. constructor.
  - destruct (py_index (timestamps features) i) as [t|]; [|discriminate].
    destruct (py_index (rms_energy features) i) as [r|]; [|discriminate].
    destruct (py_index (peak_amplitude features) i) as [p|]; [|discriminate].
    destruct (py_index (zero_crossing_rate features) i) as [z|]; [|discriminate].
    destruct (py_index (spectral_centroid_approx features) i) as [c|];
      [|discriminate].
    destruct (py_index (energy_ratio features) i) as [e|]; [|discriminate].
    destruct (create_vectors_from features (S i) n) as [rest|] eqn:E;
      [|discriminate].
    intros [= <-]. constructor; [|exact (IH _ _ E)].
    exists r, p, z, c, e. reflexivity.
Qed.

(** X25: an audio vector and a visual vector are never similar: the first
    has five entries and the second three, so their cosine similarity is
    0.0, in either order, whatever the entries are. *)
Theorem audio_visual_similarity_zero (features : audio_features)
    (audio : list feature_vector) (frames : list frame)
    (a v : feature_vector) :
  create_vectors features = inl audio ->
  In a audio -> In v (create_visual_vectors frames) ->
  call_cosine_similarity (fv_dense_vector a) (fv_dense_vector v)
    = Returned 0%float /\
  call_cosine_similarity (fv_dense_vector v) (fv_dense_vector a)
    = Returned 0%float.
Proof.
  intros Hc Ha Hv. apply create_vectors_from_numeric in Hc.
  rewrite Forall_forall in Hc.
  destruct (Hc a Ha) as (x1 & x2 & x3 & x4 & x5 & ->).
  unfold create_visual_vectors in Hv. apply in_map_iff in Hv.
  destruct Hv as (fr & <- & _). split; reflexivity.
Qed.

Lemma audio_visual_similarity_zero_witness :
  call_cosine_similarity
    (JList [JNum 120; JNum 300; JNum 0.25; JNum 0.5; JNum 1])
    (JList [JNum 12; JNum (12000 / 10000); JNum 0]) = Returned 0%float /\
  call_cosine_similarity
    (JList [JNum 12; JNum (12000 / 10000); JNum 0])
    (JList [JNum 120; JNum 300; JNum 0.25; JNum 0.5; JNum 1]) = Returned 0%float.
Proof.
  apply (audio_visual_similarity_zero sample_audio_features
           [ audio_vector 0 120 300 0.25 0.5 1;
             audio_vector 0x1.999999999999ap-4 80 200 0.5 0.25 0.5 ]
           sample_frames
           (audio_vector 0 120 300 0.25 0.5 1)
           (mkFeature 0 (JList [JNum 12; JNum (12000 / 10000); JNum 0])
              (JObj [ ("complexity"%string, JNum 12);
                      ("file_size"%string, JNum 12000);
                      ("temporal_position"%string, JNum 0) ]))).
  - vm_compute. reflexivity.
  - left. reflexivity.
  - left. reflexivity.
Defined.

Lemma insert_vectors_numeric (src_type : string) (vectors : list feature_vector)
    (src_file : string) (db : database) :
  Forall (fun r => numeric_vector (row_vector_data r) = true) (table db) ->
  Forall (fun v => numeric_vector (fv_dense_vector v) = true) vectors ->
  Forall (fun r => numeric_vector (row_vector_data r) = true)
         (table (fst (insert_vectors src_type vectors src_file db))).
Proof.
  intros Hdb Hv. destruct (insert_vectors_prefix src_type vectors src_file db)
    as [k ->].
  unfold appended. cbn [table]. apply Forall_app. split; [exact Hdb|].
  rewrite Forall_forall in Hv |- *. intros r Hr. apply new_rows_In in Hr.
  destruct Hr as (_ & _ & _ & v & Hin & _ & -> & _).
  apply Hv. exact (In_firstn _ _ _ Hin).
Qed.

Lemma find_similar_moments_numeric (db : database)
    (target_timestamp window_size : float) (src_type : option string) :
  Forall (fun r => numeric_vector (row_vector_data r) = true) (table db) ->
  exists result,
    find_similar_moments db target_timestamp window_size src_type
    = Returned result.
Proof.
  intros Hnum. rewrite Forall_forall in Hnum.
  assert (Hq : forall s e rec,
             In rec (query_by_timerange db s e src_type) ->
             numeric_vector (vector rec) = true).
  { intros s e rec Hrec. apply in_query_by_timerange in Hrec.
    destruct Hrec as (r & Hr & -> & _). apply Hnum, Hr. }
  unfold find_similar_moments.
  destruct (query_by_timerange db (target_timestamp - 5) (target_timestamp + 5)
              src_type) as [|first others] eqn:Href.
  - exists []. reflexivity.
  - destruct (collect_similarities_returns target_timestamp window_size
                (vector first) (query_by_timerange db 0 infinity src_type))
      as [sims Hs].
    + apply (Hq (target_timestamp - 5)%float (target_timestamp + 5)%float).
      rewrite Href. now left.
    + rewrite Forall_forall. apply Hq.
    + rewrite Hs. cbn [bind]. eexists. reflexivity.
Qed.

Lemma create_visual_vectors_numeric (frames : list frame) :
  Forall (fun v => numeric_vector (fv_dense_vector v) = true)
         (create_visual_vectors frames).
Proof.
  unfold create_visual_vectors. rewrite Forall_forall. intros v Hv.
  apply in_map_iff in Hv. destruct Hv as (fr & <- & _). reflexivity.
Qed.

(** X26: the pipeline of the extractors into the store cannot make a search
    fail: in a fresh database loaded with the vectors [create_vectors]
    returned and then with those of [create_visual_vectors], whether or not
    a loader stopped at a NaN timestamp, [find_similar_moments] returns
    for every target, window and filter. *)
Theorem extracted_vectors_searchable (features : audio_features)
    (audio : list feature_vector) (frames : list frame)
    (audio_file video_file : string)
    (target_timestamp window_size : float) (src_type : option string) :
  create_vectors features = inl audio ->
  exists result,
    find_similar_moments
      (fst (store_visual_vectors
              (fst (store_audio_vectors create_tables audio audio_file))
              (create_visual_vectors frames) video_file))
      target_timestamp window_size src_type
    = Returned result.
Proof.
  intros Hc. apply find_similar_moments_numeric.
  unfold store_visual_vectors, store_audio_vectors.
  apply insert_vectors_numeric; [apply insert_vectors_numeric|].
  - constructor.
  - apply create_vectors_from_numeric in Hc.
    eapply Forall_impl; [|exact Hc]. simpl.
    intros v (a & b & c & d & e & ->). reflexivity.
  - apply create_visual_vectors_numeric.
Qed.

Lemma extracted_vectors_searchable_witness :
  exists result,
    find_similar_moments
      (fst (store_visual_vectors
              (fst (store_audio_vectors create_tables
                      [ audio_vector 0 120 300 0.25 0.5 1;
                        audio_vector 0x1.999999999999ap-4 80 200 0.5 0.25 0.5 ]
                      "conversation_audio.wav"))
              (create_visual_vectors sample_frames) "google_meet.mp4"))
      0 30 (Some "audio"%string)
    = Returned result.
Proof.
  apply (extracted_vectors_searchable sample_audio_features).
  vm_compute. reflexivity.
Defined.
